(** * The template data functions of [libs/swig_functions.js]

    A shallow embedding of the query and pagination functions that the
    generator hands to every swig template, together with the properties
    the specification states about them.

    The JavaScript objects the functions read and annotate live in an
    explicit heap, because the functions return references into the content
    store and write [_type] and [_id] on the objects they return.  The
    fields of the [swigFunctions] instance ([self.data], [self.curPage],
    ...) are a record next to that heap.  A call either returns a value or
    throws, and in both cases leaves a state behind.  The file is in strict
    mode, so writing a property on a primitive throws.

    The model follows the own properties of objects.  A property holds of
    the program where its keys are no names an object inherits from
    [Object.prototype]; the properties that speak of keys the store does
    not have say so, and [get] follows the cache of [getCombined] on those
    names as well.  Numbers are integers, printed digit by digit, which is
    how the program prints them below 2^53; the slugger is applied to
    strings; and lodash goes through a collection as through an object,
    which it does unless the collection has a number as its [length].

    The first part gives the model, the second the vocabulary of the
    properties and the sample data, the third the properties. *)

From Stdlib Require Import ZArith Bool Ascii String DecimalString.
From Stdlib Require DecimalFacts DecimalPos DecimalNat DecimalZ.
From stdpp Require Import base option list strings gmap.

Open Scope string_scope.
Open Scope Z_scope.

(** ** JavaScript values *)

(** Numbers.  The functions only meet integers (lengths, page numbers,
    millisecond time stamps), [Infinity] (a division by a zero page size)
    and [NaN] (an unparsable date); fractions are outside the model and the
    two zeros are identified. *)
Inductive number : Type :=
  | Fin (z : Z)
  | PosInf
  | NaN.

Abbreviation loc := nat.

Inductive value : Type :=
  | VUndef
  | VNull
  | VBool (b : bool)
  | VNum (n : number)
  | VStr (s : string)
  | VRef (l : loc).

(** Own properties in enumeration order (the order of [for ... in]). *)
Abbreviation props := (list (string * value)).

Inductive object : Type :=
  | Obj (ps : props)
  | Arr (es : list value) (ps : props).

Abbreviation heap := (list object).

Inductive error : Type :=
  | TypeError
  | Error (msg : string).

#[global] Instance number_eq_dec : EqDecision number.
Proof. solve_decision. Defined.
#[global] Instance value_eq_dec : EqDecision value.
Proof. solve_decision. Defined.
#[global] Instance object_eq_dec : EqDecision object.
Proof. solve_decision. Defined.
#[global] Instance error_eq_dec : EqDecision error.
Proof. solve_decision. Defined.

(** [ToBoolean]: what [if (v)] and [!v] test. *)
Definition truthy (v : value) : bool :=
  match v with
  | VUndef | VNull => false
  | VBool b => b
  | VNum (Fin z) => negb (Z.eqb z 0)
  | VNum PosInf => true
  | VNum NaN => false
  | VStr s => negb (String.eqb s "")
  | VRef _ => true
  end.

(** [a > b] and [a <= b] on numbers; every comparison with [NaN] is false. *)
Definition num_gt (a b : number) : bool :=
  match a, b with
  | NaN, _ | _, NaN => false
  | PosInf, Fin _ => true
  | PosInf, PosInf => false
  | Fin _, PosInf => false
  | Fin x, Fin y => Z.ltb y x
  end.

Definition num_le (a b : number) : bool :=
  match a, b with
  | NaN, _ | _, NaN => false
  | _, PosInf => true
  | PosInf, Fin _ => false
  | Fin x, Fin y => Z.leb x y
  end.

(** ** Strings *)

Definition string_of_Z (z : Z) : string := NilZero.string_of_int (Z.to_int z).

Definition string_of_number (n : number) : string :=
  match n with
  | Fin z => string_of_Z z
  | PosInf => "Infinity"
  | NaN => "NaN"
  end.

(** [l.join(sep)] on a list of strings. *)
Fixpoint join (sep : string) (l : list string) : string :=
  match l with
  | [] => ""
  | [s] => s
  | s :: rest => s ++ sep ++ join sep rest
  end.

(** The pieces of [s] between the occurrences of the character [sep]. *)
Fixpoint split_on (sep : ascii) (s : string) : list string :=
  match s with
  | EmptyString => [""]
  | String c rest =>
      if Ascii.eqb c sep then "" :: split_on sep rest
      else match split_on sep rest with
           | [] => [String c ""]
           | p :: ps => String c p :: ps
           end
  end.

(** [s.split(" ", limit)]: all the pieces, cut after the first [limit]. *)
Definition String_split (s : string) (limit : nat) : list string :=
  take limit (split_on " " s).

(** [key.indexOf('_') === 0] *)
Definition starts_with_underscore (key : string) : bool :=
  match key with
  | String c _ => Ascii.eqb c "_"
  | EmptyString => false
  end.

(** The array index a property key denotes, if it is a canonical one. *)
Definition index_of_key (k : string) : option nat :=
  match NilZero.uint_of_string k with
  | Some d =>
      let n := Nat.of_uint d in
      if String.eqb (NilZero.string_of_uint (Nat.to_uint n)) k then Some n else None
  | None => None
  end.

(** ** Objects in the heap *)

Fixpoint lookup_prop (k : string) (ps : props) : option value :=
  match ps with
  | [] => None
  | (k', v) :: rest => if String.eqb k' k then Some v else lookup_prop k rest
  end.

(** [o[k] = v] on the property list: an existing key keeps its place, a new
    one goes last. *)
Fixpoint set_prop (k : string) (v : value) (ps : props) : props :=
  match ps with
  | [] => [(k, v)]
  | (k', v') :: rest =>
      if String.eqb k' k then (k', v) :: rest else (k', v') :: set_prop k v rest
  end.

Definition arr_member (es : list value) (ps : props) (k : string) : value :=
  if String.eqb k "length" then VNum (Fin (Z.of_nat (length es)))
  else match index_of_key k with
       | Some i => default VUndef (es !! i)
       | None => default VUndef (lookup_prop k ps)
       end.

Definition str_member (s : string) (k : string) : value :=
  if String.eqb k "length" then VNum (Fin (Z.of_nat (String.length s)))
  else match index_of_key k with
       | Some i => match String.get i s with
                   | Some c => VStr (String c "")
                   | None => VUndef
                   end
       | None => VUndef
       end.

(** [v[k]] for a value [v]: [None] is the TypeError of reading a property of
    [undefined] or [null].  Only own properties are modelled; the store is
    JSON data, and names inherited from the prototypes ([constructor],
    [toString], ...) are not looked up: on a plain object this is [v[k]]
    for every key but the names of [Object.prototype], which the vocabulary
    below lists as [Object_prototype]. *)
Definition member (h : heap) (v : value) (k : string) : option value :=
  match v with
  | VUndef | VNull => None
  | VBool _ | VNum _ => Some VUndef
  | VStr s => Some (str_member s k)
  | VRef l =>
      match h !! l with
      | Some (Obj ps) => Some (default VUndef (lookup_prop k ps))
      | Some (Arr es ps) => Some (arr_member es ps k)
      | None => Some VUndef
      end
  end.

(** [v[k] = x] in strict mode, for a key [k] that is not an array index:
    [None] is the TypeError of creating a property on a primitive. *)
Definition assign (h : heap) (v : value) (k : string) (x : value) : option heap :=
  match v with
  | VRef l =>
      match h !! l with
      | Some (Obj ps) => Some (<[l := Obj (set_prop k x ps)]> h)
      | Some (Arr es ps) => Some (<[l := Arr es (set_prop k x ps)]> h)
      | None => Some h
      end
  | _ => None
  end.

(** [String(v)], which is also the property key [v] stands for.  Arrays
    print their elements joined by commas; the recursion through nested
    arrays is bounded by [fuel], for which the callers give the size of the
    heap. *)
Fixpoint ToString (fuel : nat) (h : heap) (v : value) : string :=
  match v with
  | VUndef => "undefined"
  | VNull => "null"
  | VBool true => "true"
  | VBool false => "false"
  | VNum n => string_of_number n
  | VStr s => s
  | VRef l =>
      match fuel with
      | O => ""
      | S fuel' =>
          match h !! l with
          | Some (Arr es _) =>
              join "," (map (fun e => match e with
                                      | VUndef | VNull => ""
                                      | _ => ToString fuel' h e
                                      end) es)
          | _ => "[object Object]"
          end
      end
  end.

(** ** The instance and its state *)

Module Self.
(** The fields of [this] set up at lines 16-27.  [paginationBaseUrl] is
    [null] or a string. *)
Record t : Type := mk {
  context : value;
  data : value;
  settings : value;
  typeInfo : value;
  paginate : bool;
  curPage : Z;
  maxPage : number;
  pageUrl : string;
  paginationBaseUrl : option string;
  cachedData : gmap string value;
  CURRENT_URL : string
}.
End Self.

Record state : Type := mkState {
  st_heap : heap;
  self : Self.t
}.

Inductive outcome (A : Type) : Type :=
  | Ok (a : A) (σ : state)
  | Throw (e : error) (σ : state).
Arguments Ok {A} a σ.
Arguments Throw {A} e σ.

(** Computations that read and write the state and may throw. *)
Definition M (A : Type) : Type := state → outcome A.

Definition ret {A} (a : A) : M A := fun σ => Ok a σ.

Definition throw {A} (e : error) : M A := fun σ => Throw e σ.

Definition bind {A B} (m : M A) (f : A → M B) : M B :=
  fun σ => match m σ with
           | Ok a σ' => f a σ'
           | Throw e σ' => Throw e σ'
           end.

Notation "'let!' x ':=' m 'in' k" := (bind m (fun x => k))
  (at level 20, x pattern, m at level 100, k at level 200, only parsing).
Notation "m ';;!' k" := (bind m (fun _ => k))
  (at level 20, k at level 200, only parsing).

Definition get_self : M Self.t := fun σ => Ok (self σ) σ.

Definition set_self (f : Self.t → Self.t) : M unit :=
  fun σ => Ok tt (mkState (st_heap σ) (f (self σ))).

Definition get_heap : M heap := fun σ => Ok (st_heap σ) σ.

Definition put_heap (h : heap) : M unit := fun σ => Ok tt (mkState h (self σ)).

(** A new object; its reference is the next free location. *)
Definition alloc (o : object) : M value :=
  fun σ => Ok (VRef (length (st_heap σ))) (mkState (st_heap σ ++ [o])%list (self σ)).

(** [{}] and [[]] *)
Definition new_object : M value := alloc (Obj []).
Definition new_array (es : list value) : M value := alloc (Arr es []).

Definition get_member (v : value) (k : string) : M value :=
  let! h := get_heap in
  match member h v k with
  | Some x => ret x
  | None => throw TypeError
  end.

Definition set_member (v : value) (k : string) (x : value) : M unit :=
  let! h := get_heap in
  match assign h v k x with
  | Some h' => put_heap h'
  | None => throw TypeError
  end.

Definition to_string (v : value) : M string :=
  let! h := get_heap in ret (ToString (length h) h v).

(** [v[k]] where the key [k] is itself a value. *)
Definition get_index (v k : value) : M value :=
  let! s := to_string k in get_member v s.

(** [Array.isArray(v)] together with the elements. *)
Definition array_elems (v : value) : M (option (list value)) :=
  let! h := get_heap in
  match v with
  | VRef l => match h !! l with
              | Some (Arr es _) => ret (Some es)
              | _ => ret None
              end
  | _ => ret None
  end.

(** [arr.push(x)] on an array in the heap. *)
Definition push (arr x : value) : M unit :=
  let! h := get_heap in
  match arr with
  | VRef l => match h !! l with
              | Some (Arr es ps) => put_heap (<[l := Arr (es ++ [x])%list ps]> h)
              | _ => throw TypeError
              end
  | _ => throw TypeError
  end.

(** [es.forEach(f)] *)
Fixpoint forEach {A} (es : list A) (f : A → M unit) : M unit :=
  match es with
  | [] => ret tt
  | e :: rest => f e ;;! forEach rest f
  end.

(** The results of [f] on the elements of [l], left to right. *)
Fixpoint mapM {A B} (f : A → M B) (l : list A) : M (list B) :=
  match l with
  | [] => ret []
  | a :: rest => let! b := f a in let! bs := mapM f rest in ret (b :: bs)
  end.

(** ** The setters (lines 52-71) *)

(** The cache is kept as the map of the entries [getCombined] has written
    on the object [self.cachedData]; [setData] starts a new one. *)
Definition setData (data : value) : M unit :=
  set_self (fun s => Self.mk (Self.context s) data (Self.settings s) (Self.typeInfo s)
                       (Self.paginate s) (Self.curPage s) (Self.maxPage s)
                       (Self.pageUrl s) (Self.paginationBaseUrl s)
                       ∅ (Self.CURRENT_URL s)).

Definition setTypeInfo (typeInfo : value) : M unit :=
  set_self (fun s => Self.mk (Self.context s) (Self.data s) (Self.settings s) typeInfo
                       (Self.paginate s) (Self.curPage s) (Self.maxPage s)
                       (Self.pageUrl s) (Self.paginationBaseUrl s)
                       (Self.cachedData s) (Self.CURRENT_URL s)).

Definition setSettings (settings : value) : M unit :=
  set_self (fun s => Self.mk (Self.context s) (Self.data s) settings (Self.typeInfo s)
                       (Self.paginate s) (Self.curPage s) (Self.maxPage s)
                       (Self.pageUrl s) (Self.paginationBaseUrl s)
                       (Self.cachedData s) (Self.CURRENT_URL s)).

(** ** lodash

    [_.omit] with a callback, [_.map] and [_.filter] as lodash 2 has them.
    [_.map] goes through the own properties of the object [_.omit] built; a
    collection with a numeric property called [length], which lodash would
    take for an array, is outside the model. *)

(** [_.isEmpty(v)]: an array or a string is empty when its length is zero,
    an object when it has no own property, anything else always. *)
Definition isEmpty (v : value) : M bool :=
  if negb (truthy v) then ret true
  else
    let! h := get_heap in
    match v with
    | VStr s => ret (String.eqb s "")
    | VRef l =>
        match h !! l with
        | Some (Arr es _) => ret (bool_decide (es = []))
        | Some (Obj ps) => ret (bool_decide (ps = []))
        | None => ret true
        end
    | _ => ret true
    end.

(** The properties [for ... in] enumerates on a value: the indices of an
    array before its other properties, nothing on a primitive. *)
Definition enumerate (h : heap) (v : value) : props :=
  match v with
  | VRef l =>
      match h !! l with
      | Some (Obj ps) => ps
      | Some (Arr es ps) =>
          (imap (fun i e => (NilZero.string_of_uint (Nat.to_uint i), e)) es ++ ps)%list
      | None => []
      end
  | _ => []
  end.

(** [_.omit(v, function(value, key) { return key.indexOf('_') === 0; })]:
    a new object with the remaining properties, sharing their values. *)
Definition omit_underscore (v : value) : M value :=
  let! h := get_heap in
  alloc (Obj (filter (fun kv => starts_with_underscore kv.1 = false) (enumerate h v))).

(** ** The query functions (lines 95-215) *)

Section Queries.

(** [Date.parse] on the string form of its argument, and the reading of
    the clock, [Date.now()]; the clock is taken to stand still during a
    call. *)
Variable Date_parse : string → number.
Variable now : Z.

(** Lines 128-137 and, again, 194-205: [true] when the item fails the
    publication test. *)
Definition unpublished (item : value) : M bool :=
  let! publish_date := get_member item "publish_date" in
  if negb (truthy publish_date) then ret true
  else
    let! s := to_string publish_date in
    let pdate := Date_parse s in
    ret (num_gt pdate (Fin (now + 1 * 60 * 1000))).

(** The test of lines 128-137 on the value of [publish_date]: it fails on a
    falsy value and on a date later than a minute from [now]. *)
Definition unpublished_date (h : heap) (publish_date : value) : bool :=
  negb (truthy publish_date)
  || num_gt (Date_parse (ToString (length h) h publish_date)) (Fin (now + 60000)).

(** The same test on an item in the heap [h]. *)
Definition hidden (h : heap) (item : value) : bool :=
  match member h item "publish_date" with
  | Some publish_date => unpublished_date h publish_date
  | None => true
  end.

(** Lines 108-114: [type.split(" ", 2)]; a value that is not a string has
    no [split] to call. *)
Definition relation_parts (type : value) : M (option (value * value)) :=
  match type with
  | VStr s =>
      match String_split s 2 with
      | [t; k] => ret (Some (VStr t, VStr k))
      | _ => ret None
      end
  | _ => throw TypeError
  end.

(** Lines 100-115: [None] stands for the [return {}] of lines 105 and 110. *)
Definition relation_of (type key : value) : M (option (value * value)) :=
  if negb (truthy key) then
    let! es := array_elems type in
    match es with
    | Some [] => ret None
    | Some (first :: _) => relation_parts first
    | None => relation_parts type
    end
  else ret (Some (type, key)).

(** Lines 140-141: the item, with its type written on it. *)
Definition tagged (item type : value) : M value :=
  set_member item "_type" type ;;! ret item.

Definition getItem (type key : value) : M value :=
  if negb (truthy type) then new_object
  else
    let! r := relation_of type key in
    match r with
    | None => new_object
    | Some (type, key) =>
        let! s := get_self in
        let! info := get_index (Self.typeInfo s) type in
        if negb (truthy info) then new_object
        else
          let! collection := get_index (Self.data s) type in
          let! item := get_index collection key in
          if negb (truthy item) then new_object
          else
            let! oneOff := get_member info "oneOff" in
            let! hide := (if negb (truthy oneOff) then unpublished item
                          else ret false) in
            if (hide : bool) then new_object
            else tagged item type
    end.

Definition getItems (arr : value) : M value :=
  if negb (truthy arr) then new_array []
  else
    let! items := new_array [] in
    let! es := array_elems arr in
    match es with
    | None => throw TypeError
    | Some es =>
        forEach es (fun itm =>
          let! obj := getItem itm VUndef in
          let! e := isEmpty obj in
          if (e : bool) then ret tt
          else let! x := getItem itm VUndef in push items x) ;;!
        ret items
    end.

(** The callback of [_.map] at line 192. *)
Definition annotate (name : string) (kv : string * value) : M value :=
  set_member kv.2 "_id" (VStr kv.1) ;;!
  set_member kv.2 "_type" (VStr name) ;;!
  ret kv.2.

(** [_.map] over the own properties of the object [_.omit] made, which is
    how lodash goes through an object that has no number as its [length]
    (with one it takes the object for an array). *)
Definition map_annotate (name : string) (v : value) : M value :=
  let! h := get_heap in
  let! vs := mapM (annotate name) (enumerate h v) in
  new_array vs.

(** The callback of [_.filter], lines 193-206, on each element. *)
Fixpoint filterM (es : list value) : M (list value) :=
  match es with
  | [] => ret []
  | e :: rest =>
      let! hide := unpublished e in
      let! kept := filterM rest in
      ret (if (hide : bool) then kept else e :: kept)
  end.

Definition filter_published (v : value) : M value :=
  let! es := array_elems v in
  let! kept := filterM (default [] es) in
  new_array kept.

(** [data.concat(tempData)], line 208: array concatenation when [data] is
    an array, string concatenation when it is a string, and no such method
    on anything else. *)
Definition concat (data tempData : value) : M value :=
  let! des := array_elems data in
  let! tes := array_elems tempData in
  match des, data with
  | Some des, _ => new_array (des ++ default [] tes)%list
  | None, VStr s => let! t := to_string tempData in ret (VStr (s ++ t))
  | None, _ => throw TypeError
  end.

(** The body of [names.forEach] (lines 182-208), as a function from the
    [data] accumulated so far to the new one. *)
Definition combine (name : string) (data : value) : M value :=
  let! s := get_self in
  let! d := get_member (Self.data s) name in
  let! tempData := (if truthy d then ret d else new_object) in
  let! info := get_member (Self.typeInfo s) name in
  let! oneOff := (if truthy info then get_member info "oneOff" else ret info) in
  if truthy oneOff then ret tempData
  else
    let! tempData := omit_underscore tempData in
    let! tempData := map_annotate name tempData in
    let! tempData := filter_published tempData in
    concat data tempData.

Fixpoint combine_all (names : list string) (data : value) : M value :=
  match names with
  | [] => ret data
  | name :: rest => let! data := combine name data in combine_all rest data
  end.

(** Lines 180-214: what [getCombined] does when the cache has no entry. *)
Definition getCombined_fresh (names : list string) : M value :=
  let! data := new_array [] in
  let! data := combine_all names data in
  set_self (fun s => Self.mk (Self.context s) (Self.data s) (Self.settings s) (Self.typeInfo s)
                       (Self.paginate s) (Self.curPage s) (Self.maxPage s)
                       (Self.pageUrl s) (Self.paginationBaseUrl s)
                       (<[join "," names := data]> (Self.cachedData s))
                       (Self.CURRENT_URL s)) ;;!
  ret data.

(** [getCombined] (lines 170-215): the test of the cache of lines 173-176,
    then the computation.  The read of the cache is the read of an entry
    written on it; for a key that is a name of [Object.prototype] the
    program finds what the cache object inherits, which is outside the
    model. *)
Definition getCombined (names : list string) : M value :=
  let! s := get_self in
  let cached := default VUndef (Self.cachedData s !! join "," names) in
  if truthy cached then ret cached
  else getCombined_fresh names.

End Queries.

(** ** Pagination (lines 217-289) *)

(** Modelled from the spec: [utils.slice(data, limit, offset)] of
    [libs/utils.js], which is not among the sources.  The slice of [data]
    of length [limit] starting at [offset]: empty when [data] has fewer than
    [offset] elements, the available remainder when it runs past the end. *)
Definition utils_slice {T} (data : list T) (limit offset : Z) : list T :=
  take (Z.to_nat limit) (drop (Z.to_nat offset) data).

(** [Math.ceil(n / p)] for a size [n] and an integer [p]. *)
Definition ceil_div (n p : Z) : number :=
  if Z.eqb p 0 then (if Z.eqb n 0 then NaN else PosInf)
  else Fin (- ((- n) / p)).

Definition set_pagination (active : bool) (baseUrl : option string)
    (pageUrl : string) (maxPage : number) : M unit :=
  set_self (fun s => Self.mk (Self.context s) (Self.data s) (Self.settings s)
                       (Self.typeInfo s) active (Self.curPage s) maxPage
                       pageUrl baseUrl (Self.cachedData s) (Self.CURRENT_URL s)).

(** [paginate(data, perPage, pageName)], with [pageName = None] when the
    argument is left out.  [data] is the sequence of the array's elements. *)
Definition paginate {T} (data : list T) (perPage : Z) (pageName : option string)
    : M (list T) :=
  let! s := get_self in
  if Z.eqb (Self.curPage s) 1 && Self.paginate s then
    throw (Error "Can only paginate one set of data in a template.")
  else
    let items := utils_slice data perPage (perPage * (Self.curPage s - 1)) in
    set_pagination true
      (match Self.paginationBaseUrl s with
       | None => Some (Self.CURRENT_URL s)
       | Some url => Some url
       end)
      (match pageName with
       | Some name => if String.eqb name "" then Self.pageUrl s else name
       | None => Self.pageUrl s
       end)
      (ceil_div (Z.of_nat (length data)) perPage) ;;!
    ret items.

Definition getCurPage : M Z := let! s := get_self in ret (Self.curPage s).

Definition getMaxPage : M number := let! s := get_self in ret (Self.maxPage s).

Definition shouldPaginate : M bool :=
  let! s := get_self in ret (num_le (Fin (Self.curPage s)) (Self.maxPage s)).

Definition init : M unit :=
  set_self (fun s => Self.mk (Self.context s) (Self.data s) (Self.settings s)
                       (Self.typeInfo s) false 1 (Fin (-1)) "page-" None
                       (Self.cachedData s) (Self.CURRENT_URL s)).

Definition increasePage : M unit :=
  set_self (fun s => Self.mk (Self.context s) (Self.data s) (Self.settings s)
                       (Self.typeInfo s) (Self.paginate s) (Self.curPage s + 1)
                       (Self.maxPage s) (Self.pageUrl s)
                       (Self.paginationBaseUrl s) (Self.cachedData s)
                       (Self.CURRENT_URL s)).

(** The instance as [swigFunctions] builds it (lines 16-27): four empty
    objects for [context], [data], [settings] and [typeInfo]. *)
Definition swigFunctions : state :=
  mkState [Obj []; Obj []; Obj []; Obj []]
    (Self.mk (VRef 0%nat) (VRef 1%nat) (VRef 2%nat) (VRef 3%nat)
       false 1 (Fin (-1)) "page-" None ∅ "/").

(** ** The other template functions (lines 34-46, 77-87, 244-271) *)

(** The keys [for (var key in v)] goes through: the own properties of an
    object, the indices of an array or of a string, nothing otherwise. *)
Definition for_in_keys (h : heap) (v : value) : list string :=
  match v with
  | VStr s =>
      map (fun i => NilZero.string_of_uint (Nat.to_uint i)) (seq 0 (String.length s))
  | _ => (enumerate h v).*1
  end.

(** The body of the loop of [getTypes] for one key (lines 81-83). *)
Definition getTypes_step (types : value) (key : string) : M unit :=
  let! s := get_self in
  let! info := get_member (Self.typeInfo s) key in
  let! oneOff := get_member info "oneOff" in
  if negb (truthy oneOff) then
    let! name := get_member info "name" in
    let! entry := alloc (Obj [("slug", VStr key); ("name", name)]) in
    push types entry
  else ret tt.

Definition getTypes : M value :=
  let! types := new_array [] in
  let! s := get_self in
  let! h := get_heap in
  forEach (for_in_keys h (Self.typeInfo s)) (getTypes_step types) ;;!
  ret types.

Section Url.

(** [uslug] of the [uslug] package, which is not part of this repository,
    on a name that is a string, and [String.prototype.toLowerCase]; what
    [uslug] makes of a name that is no string is outside the model, which
    hands it the string form. *)
Variable slugger : string → string.
Variable toLowerCase : string → string.

Definition url (object : value) : M value :=
  let! s := get_member object "slug" in
  let! slug :=
    (if truthy s then ret s
     else
       let! name := get_member object "name" in
       if truthy name then
         let! n := to_string name in ret (VStr (toLowerCase (slugger n)))
       else ret VNull) in
  let! t := get_member object "_type" in
  let prefix := if truthy t then t else VStr "" in
  let! p := to_string prefix in
  let! g := to_string slug in
  if truthy prefix then ret (VStr ("/" ++ p ++ "/" ++ g ++ "/"))
  else ret (VStr ("/" ++ g ++ "/")).

End Url.

(** [getPageUrl(pageNum)] for an integer page number, which the program
    prints digit by digit as long as it is below 2^53 in size; [null] is
    what [paginationBaseUrl] holds before the first [paginate]. *)
Definition getPageUrl (pageNum : Z) : M value :=
  let! s := get_self in
  if Z.eqb pageNum 1 then
    ret (match Self.paginationBaseUrl s with
         | Some base => VStr base
         | None => VNull
         end)
  else
    ret (VStr (match Self.paginationBaseUrl s with
               | Some base => base
               | None => "null"
               end ++ Self.pageUrl s ++ string_of_Z pageNum ++ "/")).

Definition getCurrentUrl : M string :=
  let! s := get_self in ret (Self.CURRENT_URL s).

Definition getSetting (key : string) : M value :=
  let! s := get_self in
  let! general := get_member (Self.settings s) "general" in
  if negb (truthy general) then ret VNull
  else get_member general key.

Section Random.

(** [Math.floor(Math.random() * n)], the draw of one call, as a function of
    the length [n]. *)
Variable Math_random_floor : nat → nat.

Definition randomElement (array : value) : M value :=
  if negb (truthy array) then ret VNull
  else
    let! es := array_elems array in
    match es with
    | None => ret VNull
    | Some es =>
        let! index :=
          new_array [VNum (Fin (Z.of_nat (Math_random_floor (length es))))] in
        get_index array index
    end.

End Random.

(** What a call left behind, and its result. *)
Definition state_of {A} (r : outcome A) : state :=
  match r with Ok _ σ | Throw _ σ => σ end.

Definition returned {A} (r : outcome A) : option A :=
  match r with Ok a _ => Some a | Throw _ _ => None end.

Definition thrown {A} (r : outcome A) : option error :=
  match r with Ok _ _ => None | Throw e _ => Some e end.

(** The elements of the array a call returned. *)
Definition returned_elems (r : outcome value) : option (list value) :=
  match r with
  | Ok (VRef a) σ =>
      match st_heap σ !! a with
      | Some (Arr es _) => Some es
      | _ => None
      end
  | _ => None
  end.

(** * Vocabulary of the properties *)

(** A render pass, as far as pagination is concerned: the calls made since
    the last [init].  A call that throws leaves the state as it was. *)
Inductive call : Type :=
  | CallPaginate (size : nat) (perPage : Z) (pageName : option string)
  | CallIncreasePage.

(** The state a call leaves; the data of a [paginate] call matter to the
    pagination state by their number only. *)
Definition run_call (c : call) (σ : state) : state :=
  match c with
  | CallPaginate size perPage pageName =>
      state_of (paginate (replicate size tt) perPage pageName σ)
  | CallIncreasePage => state_of (increasePage σ)
  end.

Definition run_calls (cs : list call) (σ : state) : state :=
  foldl (fun σ c => run_call c σ) σ cs.

Definition is_paginate (c : call) : bool :=
  match c with CallPaginate _ _ _ => true | CallIncreasePage => false end.

(** The error of line 220. *)
Definition conflict : error :=
  Error "Can only paginate one set of data in a template.".

(** Whether the character [c] occurs in [s]. *)
Fixpoint has_char (c : ascii) (s : string) : bool :=
  match s with
  | EmptyString => false
  | String c' rest => Ascii.eqb c' c || has_char c rest
  end.

(** The part of a string before its first space. *)
Definition first_token (s : string) : string := hd "" (split_on " " s).

(** Objects that agree except on the properties named in [K]. *)
Definition same_but (K : list string) (o o' : object) : Prop :=
  match o, o' with
  | Obj ps, Obj ps' => ∀ k, k ∉ K → lookup_prop k ps' = lookup_prop k ps
  | Arr es ps, Arr es' ps' =>
      es' = es ∧ ∀ k, k ∉ K → lookup_prop k ps' = lookup_prop k ps
  | _, _ => False
  end.

(** [h'] keeps every object of [h] in its place, as an object or as an array
    with the same elements, and with the same properties outside [K]. *)
Definition heap_ext (K : list string) (h h' : heap) : Prop :=
  ∀ l o, h !! l = Some o → ∃ o', h' !! l = Some o' ∧ same_but K o o'.

(** The state after differs from the state before by new objects and by
    properties in [K] only. *)
Definition frame (K : list string) (σ σ' : state) : Prop :=
  self σ' = self σ ∧ heap_ext K (st_heap σ) (st_heap σ').

(** A computation that changes the state in this way only, whether it
    returns or throws. *)
Definition respects (K : list string) {A} (m : M A) : Prop :=
  ∀ σ, frame K σ (state_of (m σ)).

(** Computations that return without changing the state. *)
Definition reads {A} (m : M A) : Prop := ∀ σ a σ', m σ = Ok a σ' → σ' = σ.

(** The properties the query functions write on the items they return. *)
Definition annotations : list string := ["_id"; "_type"].

(** The own property [k] of the object at [l]. *)
Definition own_prop (h : heap) (l : loc) (k : string) : option value :=
  match h !! l with
  | Some (Obj ps) | Some (Arr _ ps) => lookup_prop k ps
  | None => None
  end.

(** A value that is not a reference to an object. *)
Definition is_prim (v : value) : bool :=
  match v with VRef _ => false | _ => true end.

(** The properties of a collection that [_.omit] keeps. *)
Definition listed (ps : props) : props :=
  filter (fun kv => starts_with_underscore kv.1 = false) ps.

(** An item of a collection as the store has them: an object in the heap
    whose [publish_date], if any, is not itself an object. *)
Definition plain_item (h : heap) (v : value) : Prop :=
  ∃ l pd, v = VRef l ∧ (l < length h)%nat
          ∧ member h v "publish_date" = Some pd ∧ is_prim pd = true.

(** A reference that points into the heap, or a primitive. *)
Definition valid (h : heap) (v : value) : Prop :=
  ∀ l, v = VRef l → (l < length h)%nat.

(** The render of a paginated template: the first page after [init], and
    each next page after [increasePage], with the same [paginate] call in
    the template every time. *)
Definition first_page {T} (data : list T) (perPage : Z) (pageName : option string)
    (σ0 : state) : state :=
  state_of (paginate data perPage pageName (state_of (init σ0))).

Definition next_page {T} (data : list T) (perPage : Z) (pageName : option string)
    (σ : state) : state :=
  state_of (paginate data perPage pageName (state_of (increasePage σ))).

Definition nth_page {T} (data : list T) (perPage : Z) (pageName : option string)
    (k : nat) (σ0 : state) : state :=
  Nat.iter k (next_page data perPage pageName) (first_page data perPage pageName σ0).

(** The segment of the page URLs after a [paginate] call with [pageName] in
    a pass that began with [init]. *)
Definition segment (pageName : option string) : string :=
  match pageName with
  | Some name => if String.eqb name "" then "page-" else name
  | None => "page-"
  end.

(** [frame], for the objects at the locations below [n] only. *)
Definition frame_below (n : nat) (K : list string) (σ σ' : state) : Prop :=
  self σ' = self σ
  ∧ ∀ l o, (l < n)%nat → st_heap σ !! l = Some o →
           ∃ o', st_heap σ' !! l = Some o' ∧ same_but K o o'.

Definition keeps (n : nat) (K : list string) {A} (m : M A) : Prop :=
  ∀ σ, frame_below n K σ (state_of (m σ)).

(** The calls a template and the generator make between two [setData]. *)
Inductive op : Type :=
  | OpInit
  | OpIncreasePage
  | OpPaginate (size : nat) (perPage : Z) (pageName : option string)
  | OpSetTypeInfo (typeInfo : value)
  | OpSetSettings (settings : value)
  | OpGetItem (type key : value)
  | OpGetItems (arr : value)
  | OpGetCombined (names : list string)
  | OpGetTypes
  | OpGetSetting (key : string).

Definition run_op (Date_parse : string → number) (now : Z) (o : op) (σ : state)
    : state :=
  match o with
  | OpInit => state_of (init σ)
  | OpIncreasePage => state_of (increasePage σ)
  | OpPaginate size perPage pageName =>
      state_of (paginate (replicate size tt) perPage pageName σ)
  | OpSetTypeInfo typeInfo => state_of (setTypeInfo typeInfo σ)
  | OpSetSettings settings => state_of (setSettings settings σ)
  | OpGetItem type key => state_of (getItem Date_parse now type key σ)
  | OpGetItems arr => state_of (getItems Date_parse now arr σ)
  | OpGetCombined names => state_of (getCombined Date_parse now names σ)
  | OpGetTypes => state_of (getTypes σ)
  | OpGetSetting key => state_of (getSetting key σ)
  end.

Definition run_ops (Date_parse : string → number) (now : Z) (ops : list op)
    (σ : state) : state :=
  foldl (fun σ o => run_op Date_parse now o σ) σ ops.

(** The pagination state of the instance. *)
Definition pagination_of (s : Self.t)
    : bool * Z * number * string * option string * string :=
  (Self.paginate s, Self.curPage s, Self.maxPage s, Self.pageUrl s,
   Self.paginationBaseUrl s, Self.CURRENT_URL s).

(** A value [getItem] cannot take as its only argument: a truthy value
    that is neither a string nor an array, or an array whose first element
    is not a string. *)
Definition not_a_relation (h : heap) (v : value) : bool :=
  match v with
  | VStr _ => false
  | VRef l =>
      match h !! l with
      | Some (Arr [] _) | Some (Arr (VStr _ :: _) _) => false
      | _ => true
      end
  | _ => truthy v
  end.

(** An entry of a relation list that names no item: a falsy value, or a
    string without a space. *)
Definition names_no_item (e : value) : bool :=
  match e with
  | VStr s => negb (has_char " " s)
  | _ => negb (truthy e)
  end.

(** The values [getCombined] goes through for [name]: those the collection
    has under the keys that do not start with an underscore, in the order
    of the keys. *)
Definition items_of (h : heap) (s : Self.t) (name : string) : list value :=
  match member h (Self.data s) name with
  | Some coll => (listed (enumerate h coll)).*2
  | None => []
  end.

(** Those of them that pass the test on [publish_date]. *)
Definition visible_of (Date_parse : string → number) (now : Z)
    (h : heap) (s : Self.t) (name : string) : list value :=
  filter (fun v => hidden Date_parse now h v = false) (items_of h s name).

(** A value that is none of the items [all]: a primitive, or an object of
    the heap other than these. *)
Definition apart (h : heap) (all : list value) (v : value) : Prop :=
  valid h v ∧ v ∉ all.

(** An ordinary type of a store laid out as a tree: the type table has an
    object for [name] whose [oneOff] is falsy, the store has a collection,
    neither is one of the items [all], and the items of the collection are
    objects. *)
Definition ordinary (h : heap) (s : Self.t) (all : list value) (name : string)
    : Prop :=
  ∃ i flag c ps,
    member h (Self.typeInfo s) name = Some (VRef i) ∧ apart h all (VRef i)
    ∧ member h (VRef i) "oneOff" = Some flag ∧ truthy flag = false
    ∧ member h (Self.data s) name = Some (VRef c) ∧ h !! c = Some (Obj ps)
    ∧ (VRef c ∉ all)
    ∧ Forall (plain_item h) (listed ps).*2.

(** The state during the loop of [getCombined] over the names, begun in
    [σ]: allocations and annotations apart, the heap is the one of [σ], and
    what is none of the items [all] is as it was. *)
Definition during (σ : state) (all : list value) (σk : state) : Prop :=
  self σk = self σ
  ∧ heap_ext annotations (st_heap σ) (st_heap σk)
  ∧ ∀ l, (l < length (st_heap σ))%nat → VRef l ∉ all →
         st_heap σk !! l = st_heap σ !! l.

(** The entry [getTypes] makes for a property of the type table, read in
    the heap [h]: none for a type flagged [oneOff]. *)
Definition type_entry (h : heap) (kv : string * value) : option object :=
  match member h kv.2 "oneOff", member h kv.2 "name" with
  | Some flag, Some name =>
      if truthy flag then None
      else Some (Obj [("slug", VStr kv.1); ("name", name)])
  | _, _ => None
  end.

Definition type_entries (h : heap) (tps : props) : list object :=
  omap (type_entry h) tps.

(** [null] and [undefined], which have no properties to read. *)
Definition nullish (v : value) : bool :=
  match v with VUndef | VNull => true | _ => false end.

(** The names every object inherits from [Object.prototype].  [member] and
    the cache of [getCombined] follow own properties; they are the
    program's [v[k]] for a plain object [v] and a key [k] that is none of
    these names, which is what the properties below that speak of keys the
    store does not have ask of their keys. *)
Definition Object_prototype : list string :=
  ["constructor"; "toString"; "toLocaleString"; "valueOf"; "hasOwnProperty";
   "isPrototypeOf"; "propertyIsEnumerable"; "__proto__"; "__defineGetter__";
   "__defineSetter__"; "__lookupGetter__"; "__lookupSetter__"].

Definition inherited (k : string) : bool :=
  existsb (String.eqb k) Object_prototype.

(** What the read of the cache at lines 173-176 finds: a value written on
    the cache, [undefined] with it, or what the cache object inherits from
    [Object.prototype] under the key, such as the function [Object] for
    [constructor]; all of these are truthy and none is a value of the
    store. *)
Inductive found : Type :=
  | Stored (v : value)
  | Native (k : string).

Definition read_cache (c : gmap string value) (k : string) : found :=
  match c !! k with
  | Some v => Stored v
  | None => if inherited k then Native k else Stored VUndef
  end.

(** [get], as the templates call [getCombined] (line 299), with the names
    the cache inherits: lines 171-176, then lines 180-214.  [getCombined]
    above is this function on the keys that are no names of
    [Object.prototype]. *)
Definition get (Date_parse : string → number) (now : Z) (names : list string)
    : M found :=
  let! s := get_self in
  match read_cache (Self.cachedData s) (join "," names) with
  | Native k => ret (Native k)
  | Stored cached =>
      if truthy cached then ret (Stored cached)
      else let! data := getCombined_fresh Date_parse now names in
           ret (Stored data)
  end.

(** A plain object of the heap, such as JSON data is made of. *)
Definition plain (h : heap) (v : value) : Prop :=
  ∃ l ps, v = VRef l ∧ h !! l = Some (Obj ps).

(** A property that is a string or is not there. *)
Definition textual (v : value) : bool :=
  match v with
  | VStr _ | VUndef | VNull => true
  | _ => false
  end.

(** An integer a JavaScript number holds exactly and prints digit by
    digit. *)
Definition safe_integer (n : Z) : Prop := - 2 ^ 53 < n < 2 ^ 53.

(** The state after [setParams({ CURRENT_URL: url })] (lines 291-295): the
    loop over the one key of that object assigns the one field. *)
Definition at_url (url : string) (σ : state) : state :=
  mkState (st_heap σ)
    (Self.mk (Self.context (self σ)) (Self.data (self σ))
       (Self.settings (self σ)) (Self.typeInfo (self σ))
       (Self.paginate (self σ)) (Self.curPage (self σ))
       (Self.maxPage (self σ)) (Self.pageUrl (self σ))
       (Self.paginationBaseUrl (self σ)) (Self.cachedData (self σ)) url).

(** A render whose pages have URLs of their own: the first page at [url]
    after [init], each next page at its URL after [increasePage], with the
    same [paginate] call in the template every time. *)
Definition first_page_at {T} (data : list T) (perPage : Z)
    (pageName : option string) (url : string) (σ0 : state) : state :=
  state_of (paginate data perPage pageName (at_url url (state_of (init σ0)))).

Fixpoint pages_at {T} (data : list T) (perPage : Z) (pageName : option string)
    (urls : list string) (σ : state) : state :=
  match urls with
  | [] => σ
  | url :: rest =>
      pages_at data perPage pageName rest
        (state_of (paginate data perPage pageName
                     (at_url url (state_of (increasePage σ)))))
  end.

(** The keys that go with [items_of]: the properties of the collection of
    [name] that [_.omit] keeps. *)
Definition entries_of (h : heap) (s : Self.t) (name : string) : props :=
  match member h (Self.data s) name with
  | Some coll => listed (enumerate h coll)
  | None => []
  end.

(** * Sample data *)

(** [Date.parse] on the few ISO dates the examples use; any other string
    there is not a date, for which [Date.parse] gives [NaN]. *)
Definition sample_Date_parse (s : string) : number :=
  if String.eqb s "1970-01-01T00:00:00.000Z" then Fin 0
  else if String.eqb s "1970-01-01T00:00:59.999Z" then Fin 59999
  else if String.eqb s "1970-01-01T00:01:00.000Z" then Fin 60000
  else if String.eqb s "1970-01-01T00:01:00.001Z" then Fin 60001
  else NaN.

(** A fresh instance after [setData(data)] and [setTypeInfo(typeInfo)], with
    the objects of the store and of the type table at locations 4, 5, ... *)
Definition loaded (objs : list object) (data typeInfo : value) : state :=
  state_of (setTypeInfo typeInfo
    (state_of (setData data
      (mkState (st_heap swigFunctions ++ objs)%list (self swigFunctions))))).

(** A store with the two types [x] and [x,x], one published item each. *)
Definition comma_store : state :=
  loaded [ Obj [("x", VRef 6); ("x,x", VRef 7)]%nat;
           Obj [("x", VRef 8); ("x,x", VRef 8)]%nat;
           Obj [("1", VRef 9%nat)];
           Obj [("2", VRef 10%nat)];
           Obj [("name", VStr "X"); ("oneOff", VBool false)];
           Obj [("name", VStr "first");
                ("publish_date", VStr "1970-01-01T00:00:00.000Z")];
           Obj [("name", VStr "second");
                ("publish_date", VStr "1970-01-01T00:00:00.000Z")] ]
    (VRef 4%nat) (VRef 5%nat).

(** A store whose [companies] have the keys [42], [a] and [a b]. *)
Definition relation_store : state :=
  loaded [ Obj [("companies", VRef 6%nat)];
           Obj [("companies", VRef 7%nat)];
           Obj [("42", VRef 8); ("a", VRef 9); ("a b", VRef 10)]%nat;
           Obj [("name", VStr "Companies"); ("oneOff", VBool false)];
           Obj [("name", VStr "Acme");
                ("publish_date", VStr "1970-01-01T00:00:00.000Z")];
           Obj [("name", VStr "A");
                ("publish_date", VStr "1970-01-01T00:00:00.000Z")];
           Obj [("name", VStr "A B");
                ("publish_date", VStr "1970-01-01T00:00:00.000Z")] ]
    (VRef 4%nat) (VRef 5%nat).

(** The type table knows [companies]; the store has nothing under that
    name.  Location 7 is the relation list [["companies 42"]]. *)
Definition missing_collection_store : state :=
  loaded [ Obj [];
           Obj [("companies", VRef 6%nat)];
           Obj [("name", VStr "Companies"); ("oneOff", VBool false)];
           Arr [VStr "companies 42"] [] ]
    (VRef 4%nat) (VRef 5%nat).

(** A one-off type [about] next to the ordinary type [companies]. *)
Definition oneOff_store : state :=
  loaded [ Obj [("about", VRef 6); ("companies", VRef 7)]%nat;
           Obj [("about", VRef 8); ("companies", VRef 9)]%nat;
           Obj [("title", VStr "About us")];
           Obj [("1", VRef 10%nat)];
           Obj [("name", VStr "About"); ("oneOff", VBool true)];
           Obj [("name", VStr "Companies"); ("oneOff", VBool false)];
           Obj [("name", VStr "Acme");
                ("publish_date", VStr "1970-01-01T00:00:00.000Z")] ]
    (VRef 4%nat) (VRef 5%nat).

(** The ordinary type [companies] with items dated just inside and just
    outside the minute of grace ([a], [b]), without a date ([c]), with an
    empty date ([d]) and under a key with an underscore ([_e]); and the
    one-off type [about].  The clock of the examples reads 0. *)
Definition visibility_store : state :=
  loaded [ Obj [("companies", VRef 6); ("about", VRef 7)]%nat;
           Obj [("companies", VRef 8); ("about", VRef 9)]%nat;
           Obj [("a", VRef 10); ("b", VRef 11); ("c", VRef 12); ("d", VRef 13);
                ("_e", VRef 14)]%nat;
           Obj [("hero", VRef 15%nat)];
           Obj [("name", VStr "Companies"); ("oneOff", VBool false)];
           Obj [("name", VStr "About"); ("oneOff", VBool true)];
           Obj [("name", VStr "A");
                ("publish_date", VStr "1970-01-01T00:00:59.999Z")];
           Obj [("name", VStr "B");
                ("publish_date", VStr "1970-01-01T00:01:00.001Z")];
           Obj [("name", VStr "C")];
           Obj [("name", VStr "D"); ("publish_date", VStr "")];
           Obj [("name", VStr "E");
                ("publish_date", VStr "1970-01-01T00:00:00.000Z")];
           Obj [("caption", VStr "Welcome")] ]
    (VRef 4%nat) (VRef 5%nat).

(** [relation_store] with the relation list
    [["companies 42", "nothing", "companies a"]] at location 11. *)
Definition related_store : state :=
  mkState (st_heap relation_store
             ++ [Arr [VStr "companies 42"; VStr "nothing"; VStr "companies a"] []])%list
    (self relation_store).

(** [relation_store] with the list [["nothing", "", null]] at location 11. *)
Definition loose_store : state :=
  mkState (st_heap relation_store ++ [Arr [VStr "nothing"; VStr ""; VNull] []])%list
    (self relation_store).

(** A store whose [companies] have a string where an item should be. *)
Definition draft_store : state :=
  loaded [ Obj [("companies", VRef 6%nat)];
           Obj [("companies", VRef 7%nat)];
           Obj [("1", VRef 8%nat); ("2", VStr "draft")];
           Obj [("name", VStr "Companies"); ("oneOff", VBool false)];
           Obj [("name", VStr "Acme");
                ("publish_date", VStr "1970-01-01T00:00:00.000Z")] ]
    (VRef 4%nat) (VRef 5%nat).

(** A type table with [null] where the entry of [about] should be. *)
Definition null_type_store : state :=
  loaded [ Obj [];
           Obj [("companies", VRef 6%nat); ("about", VNull)];
           Obj [("name", VStr "Companies"); ("oneOff", VBool false)] ]
    (VRef 4%nat) (VRef 5%nat).

(** * Properties *)

(** ** Pagination *)

Lemma paginate_throws_iff {T} (data : list T) perPage pageName σ :
  thrown (paginate data perPage pageName σ) = Some conflict
  ↔ Self.curPage (self σ) = 1 ∧ Self.paginate (self σ) = true.
Proof.
  unfold paginate, bind, get_self, throw, set_pagination, set_self, ret; simpl.
  destruct (Z.eqb_spec (Self.curPage (self σ)) 1) as [Hc|Hc];
    destruct (Self.paginate (self σ)); simpl; split;
    try (intros [? ?]); try discriminate; try done.
Qed.

Lemma paginate_throw_state {T} (data : list T) perPage pageName σ e :
  thrown (paginate data perPage pageName σ) = Some e →
  e = conflict ∧ paginate data perPage pageName σ = Throw conflict σ.
Proof.
  unfold paginate, bind, get_self, throw, set_pagination, set_self, ret; simpl.
  destruct (Z.eqb (Self.curPage (self σ)) 1 && Self.paginate (self σ)); simpl.
  - intros [= <-]. done.
  - discriminate.
Qed.

Lemma paginate_ok_active {T} (data : list T) perPage pageName σ :
  thrown (paginate data perPage pageName σ) = None →
  Self.paginate (self (state_of (paginate data perPage pageName σ))) = true
  ∧ Self.curPage (self (state_of (paginate data perPage pageName σ)))
    = Self.curPage (self σ).
Proof.
  unfold paginate, bind, get_self, throw, set_pagination, set_self, ret; simpl.
  destruct (Z.eqb (Self.curPage (self σ)) 1 && Self.paginate (self σ)); simpl.
  - discriminate.
  - done.
Qed.

(** After [init] and any calls, the flag is set exactly when one of the
    calls was a [paginate]: the first of them cannot meet the guard. *)
Lemma active_after_calls cs σ0 :
  Self.paginate (self (run_calls cs (state_of (init σ0))))
  = existsb is_paginate cs.
Proof.
  assert (Hgen : ∀ cs σ,
    Self.paginate (self (run_calls cs σ))
    = Self.paginate (self σ) || existsb is_paginate cs).
  { clear. induction cs as [|c cs IH]; intros σ; simpl.
    - by rewrite orb_false_r.
    - unfold run_calls in *. simpl. rewrite IH. destruct c as [n p nm|]; simpl.
      + destruct (thrown (paginate (replicate n tt) p nm σ)) as [e|] eqn:Hthr.
        * apply paginate_throw_state in Hthr as [-> Heq]. rewrite Heq. simpl.
          assert (Ht : thrown (paginate (replicate n tt) p nm σ) = Some conflict)
            by (by rewrite Heq).
          apply paginate_throws_iff in Ht as [_ ->]. done.
        * apply paginate_ok_active in Hthr as [-> _]. simpl.
          by rewrite orb_true_r.
      + done. }
  rewrite Hgen. done.
Qed.

(** C3: [paginate] throws its conflict error exactly when [curPage] is 1 and
    the pagination flag is set; the flag is set exactly when an earlier
    [paginate] call was made since the last [init]; a call made while
    [curPage] is above 1 does not throw; and a call that throws leaves the
    whole state, the pagination state in it, as it was. *)
Theorem paginate_conflict_guard :
  ∀ (T : Type) (data : list T) (perPage : Z) (pageName : option string),
    (∀ σ, thrown (paginate data perPage pageName σ) = Some conflict
          ↔ Self.curPage (self σ) = 1 ∧ Self.paginate (self σ) = true)
    ∧ (∀ σ0 cs,
          let σ := run_calls cs (state_of (init σ0)) in
          thrown (paginate data perPage pageName σ) = Some conflict
          ↔ Self.curPage (self σ) = 1 ∧ existsb is_paginate cs = true)
    ∧ (∀ σ, 1 < Self.curPage (self σ) →
            thrown (paginate data perPage pageName σ) = None)
    ∧ (∀ σ e, thrown (paginate data perPage pageName σ) = Some e →
              e = conflict ∧ state_of (paginate data perPage pageName σ) = σ).
Proof.
  intros T data perPage pageName. split; [|split; [|split]].
  - intros σ. apply paginate_throws_iff.
  - intros σ0 cs σ. rewrite <- (active_after_calls cs σ0). apply paginate_throws_iff.
  - intros σ Hlt.
    destruct (thrown (paginate data perPage pageName σ)) as [e|] eqn:Hthr; [|done].
    apply paginate_throw_state in Hthr as [-> Heq].
    assert (Ht : thrown (paginate data perPage pageName σ) = Some conflict)
      by (by rewrite Heq).
    apply paginate_throws_iff in Ht. lia.
  - intros σ e H. apply paginate_throw_state in H as [-> ->]. done.
Qed.

(** The asymmetry on a concrete pass: a second call on the first page throws
    and changes nothing, a second call on the second page returns. *)
Lemma paginate_conflict_guard_witness :
  let σ1 := state_of (paginate [1; 2; 3] 2 None (state_of (init swigFunctions))) in
  let σ2 := state_of (increasePage σ1) in
  paginate [1; 2; 3] 2 None σ1 = Throw conflict σ1
  ∧ 1 < Self.curPage (self σ2)
  ∧ thrown (paginate [1; 2; 3] 2 None σ2) = None.
Proof.
  intros σ1 σ2.
  destruct (paginate_conflict_guard Z [1; 2; 3] 2 None) as (_ & _ & Hlater & _).
  split; [reflexivity|]. split; [reflexivity|].
  apply Hlater. reflexivity.
Defined.

(** What a call that meets no conflict returns and leaves behind. *)
Lemma paginate_ok {T} (data : list T) perPage pageName σ :
  Z.eqb (Self.curPage (self σ)) 1 && Self.paginate (self σ) = false →
  ∃ σ', paginate data perPage pageName σ
        = Ok (utils_slice data perPage (perPage * (Self.curPage (self σ) - 1))) σ'
      ∧ Self.curPage (self σ') = Self.curPage (self σ)
      ∧ Self.maxPage (self σ') = ceil_div (Z.of_nat (length data)) perPage
      ∧ Self.paginate (self σ') = true.
Proof.
  intros Hguard.
  unfold paginate, bind, get_self, throw, set_pagination, set_self, ret; simpl.
  rewrite Hguard. eexists. split; [reflexivity|]. done.
Qed.

Lemma utils_slice_lookup {T} (data : list T) (limit offset : Z) (i : nat) :
  utils_slice data limit offset !! i
  = if decide (Z.of_nat i < limit) then data !! (Z.to_nat offset + i)%nat else None.
Proof.
  unfold utils_slice. case_decide as Hi.
  - rewrite lookup_take_lt by lia. by rewrite lookup_drop.
  - rewrite lookup_take_ge by lia. done.
Qed.

Lemma utils_slice_length {T} (data : list T) (limit offset : Z) :
  length (utils_slice data limit offset)
  = (Z.to_nat limit `min` (length data - Z.to_nat offset))%nat.
Proof. unfold utils_slice. by rewrite length_take, length_drop. Qed.

Lemma utils_slice_past_end {T} (data : list T) (limit offset : Z) :
  0 ≤ offset → Z.of_nat (length data) ≤ offset → utils_slice data limit offset = [].
Proof.
  intros H0 Hge. unfold utils_slice. rewrite drop_ge by lia. by rewrite take_nil.
Qed.

(** C4: after [init], [paginate(data, 5)] on 12 elements returns the first
    five and sets [maxPage] to 3; on page 3 the same call returns the last
    two; [shouldPaginate] holds on pages 1, 2 and 3 and fails on page 4.  In
    general the call returns the [perPage] elements from offset
    [perPage * (curPage - 1)] on, cut at the end of [data], and nothing when
    the offset is past the end. *)
Theorem paginate_slices :
  ∀ (T : Type) (data : list T),
    (length data = 12%nat → ∀ σ0,
       let r1 := paginate data 5 None (state_of (init σ0)) in
       let σ2 := state_of (increasePage (state_of r1)) in
       let σ3 := state_of (increasePage σ2) in
       let r3 := paginate data 5 None σ3 in
       let σ4 := state_of (increasePage (state_of r3)) in
       returned r1 = Some (take 5 data)
       ∧ length (take 5 data) = 5%nat
       ∧ returned (getMaxPage (state_of r1)) = Some (Fin 3)
       ∧ returned (getCurPage (state_of r1)) = Some 1
       ∧ returned (shouldPaginate (state_of r1)) = Some true
       ∧ returned (getCurPage σ2) = Some 2
       ∧ returned (shouldPaginate σ2) = Some true
       ∧ returned (getCurPage σ3) = Some 3
       ∧ returned r3 = Some (drop 10 data)
       ∧ length (drop 10 data) = 2%nat
       ∧ returned (shouldPaginate (state_of r3)) = Some true
       ∧ returned (getCurPage σ4) = Some 4
       ∧ returned (shouldPaginate σ4) = Some false)
    ∧ (∀ perPage pageName σ,
         0 < perPage → 1 ≤ Self.curPage (self σ) →
         thrown (paginate data perPage pageName σ) = None →
         let offset := perPage * (Self.curPage (self σ) - 1) in
         ∃ items,
           returned (paginate data perPage pageName σ) = Some items
           ∧ (∀ i : nat, items !! i
                = if decide (Z.of_nat i < perPage)
                  then data !! (Z.to_nat offset + i)%nat else None)
           ∧ length items
             = (Z.to_nat perPage `min` (length data - Z.to_nat offset))%nat
           ∧ (Z.of_nat (length data) ≤ offset → items = [])
           ∧ Self.maxPage (self (state_of (paginate data perPage pageName σ)))
             = Fin (- (- Z.of_nat (length data) / perPage))).
Proof.
  intros T data. split.
  - intros Hlen σ0 r1.
    destruct (paginate_ok data 5 None (state_of (init σ0)) eq_refl)
      as (σ1 & Hr1 & Hc1 & Hm1 & _).
    change (r1 = Ok (take 5 (drop 0 data)) σ1) in Hr1.
    change (Self.curPage (self σ1) = 1) in Hc1.
    rewrite Hlen in Hm1. change (Self.maxPage (self σ1) = Fin 3) in Hm1.
    clearbody r1. subst r1. simpl state_of. intros σ2 σ3 r3.
    assert (Hc3 : Self.curPage (self σ3) = 3).
    { change (Self.curPage (self σ1) + 1 + 1 = 3). by rewrite Hc1. }
    assert (Hm3 : Self.maxPage (self σ3) = Fin 3) by exact Hm1.
    assert (Hg3 : Z.eqb (Self.curPage (self σ3)) 1 && Self.paginate (self σ3)
                  = false) by (by rewrite Hc3).
    destruct (paginate_ok data 5 None σ3 Hg3) as (σ3' & Hr3 & Hc3' & Hm3' & _).
    rewrite Hc3 in Hr3, Hc3'. rewrite Hlen in Hm3'.
    change (r3 = Ok (take 5 (drop 10 data)) σ3') in Hr3.
    change (Self.maxPage (self σ3') = Fin 3) in Hm3'.
    rewrite (take_ge (drop 10 data)) in Hr3 by (rewrite length_drop; lia).
    clearbody r3 σ3. subst r3. simpl state_of. intros σ4.
    rewrite length_take, length_drop, Hlen.
    unfold getMaxPage, getCurPage, shouldPaginate, bind, get_self, ret.
    subst σ2 σ4. simpl. rewrite Hc1, Hm1, Hc3, Hc3', Hm3'.
    repeat split; reflexivity.
  - intros perPage pageName σ Hpp Hcur Hthr offset.
    assert (Hguard : Z.eqb (Self.curPage (self σ)) 1 && Self.paginate (self σ)
                     = false).
    { destruct (Z.eqb (Self.curPage (self σ)) 1 && Self.paginate (self σ)) eqn:Hg;
        [|done].
      exfalso. revert Hthr.
      unfold paginate, bind, get_self, throw; simpl. by rewrite Hg. }
    destruct (paginate_ok data perPage pageName σ Hguard)
      as (σ' & Hr & _ & Hm & _).
    rewrite Hr. simpl. eexists. split; [reflexivity|].
    split; [apply utils_slice_lookup|]. split; [apply utils_slice_length|].
    split; [apply utils_slice_past_end; subst offset; nia|].
    rewrite Hm. unfold ceil_div.
    destruct (Z.eqb_spec perPage 0); [lia|done].
Qed.

(** The twelve-element instance, and the general statement on its third page. *)
Lemma paginate_slices_witness :
  let data := [1; 2; 3; 4; 5; 6; 7; 8; 9; 10; 11; 12] in
  let σ3 := state_of (increasePage (state_of (increasePage
              (state_of (paginate data 5 None (state_of (init swigFunctions))))))) in
  returned (paginate data 5 None (state_of (init swigFunctions)))
    = Some [1; 2; 3; 4; 5]
  ∧ returned (paginate data 5 None σ3) = Some [11; 12]
  ∧ ∃ items, returned (paginate data 5 None σ3) = Some items
             ∧ length items = 2%nat.
Proof.
  intros data σ3.
  destruct (paginate_slices Z data) as [Hex Hgen].
  destruct (Hex eq_refl swigFunctions) as (H1 & _ & _ & _ & _ & _ & _ & _ & H3 & _).
  split; [exact H1|]. split; [exact H3|].
  destruct (Hgen 5 None σ3 ltac:(lia) ltac:(vm_compute; discriminate) eq_refl)
    as (items & Hret & _ & Hlen & _).
  exists items. split; [exact Hret|]. rewrite Hlen. reflexivity.
Defined.

(** ** Splitting and joining *)

Lemma split_on_nonempty c s : split_on c s ≠ [].
Proof.
  destruct s as [|c' s]; simpl; [done|].
  destruct (Ascii.eqb c' c); [done|]. by destruct (split_on c s).
Qed.

Lemma split_on_free c s : has_char c s = false → split_on c s = [s].
Proof.
  induction s as [|c' s IH]; simpl; [done|].
  intros [Hc Hs]%orb_false_elim. rewrite Hc, (IH Hs). done.
Qed.

Lemma split_on_app c s rest :
  has_char c s = false →
  split_on c (s ++ String c rest) = s :: split_on c rest.
Proof.
  induction s as [|c' s IH]; simpl.
  - intros _. by rewrite Ascii.eqb_refl.
  - intros [Hc Hs]%orb_false_elim. rewrite Hc, (IH Hs). done.
Qed.

Lemma split_on_join c l :
  l ≠ [] → Forall (fun s => has_char c s = false) l →
  split_on c (join (String c "") l) = l.
Proof.
  induction l as [|s l IH]; [done|]. intros _ Hall.
  apply Forall_cons in Hall as [Hs Hl]. destruct l as [|s' l].
  - simpl. by apply split_on_free.
  - change (join (String c "") (s :: s' :: l))
      with (s ++ String c (join (String c "") (s' :: l))).
    rewrite split_on_app by done. f_equal. by apply IH.
Qed.

(** Lists of comma-free strings with the same join are the same list. *)
Lemma join_comma_inj l1 l2 :
  l1 ≠ [] → l2 ≠ [] →
  Forall (fun s => has_char "," s = false) l1 →
  Forall (fun s => has_char "," s = false) l2 →
  join "," l1 = join "," l2 → l1 = l2.
Proof.
  intros H1 H2 F1 F2 Heq.
  rewrite <- (split_on_join "," l1), <- (split_on_join "," l2) by done.
  by rewrite Heq.
Qed.

(** ** Reasoning about computations *)

Lemma bind_Ok {A B} (m : M A) (f : A → M B) σ b σ2 :
  bind m f σ = Ok b σ2 ↔ ∃ a σ1, m σ = Ok a σ1 ∧ f a σ1 = Ok b σ2.
Proof.
  unfold bind. destruct (m σ) as [a σ1|e σ1]; split.
  - eauto.
  - by intros (? & ? & [= -> ->] & ?).
  - done.
  - by intros (? & ? & ? & ?).
Qed.

Lemma bind_eval {A B} (m : M A) (f : A → M B) σ a σ1 :
  m σ = Ok a σ1 → bind m f σ = f a σ1.
Proof. intros H. unfold bind. by rewrite H. Qed.

Lemma state_of_bind {A B} (m : M A) (f : A → M B) σ :
  state_of (bind m f σ)
  = match m σ with
    | Ok a σ1 => state_of (f a σ1)
    | Throw _ σ1 => σ1
    end.
Proof. unfold bind. by destruct (m σ). Qed.

Lemma same_but_refl K o : same_but K o o.
Proof. by destruct o. Qed.

Lemma same_but_trans K o1 o2 o3 :
  same_but K o1 o2 → same_but K o2 o3 → same_but K o1 o3.
Proof.
  destruct o1, o2, o3; simpl; try done.
  - intros H1 H2 k Hk. by rewrite H2, H1.
  - intros [-> H1] [-> H2]. split; [done|]. intros k Hk. by rewrite H2, H1.
Qed.

Lemma heap_ext_refl K h : heap_ext K h h.
Proof. intros l o Hl. eauto using same_but_refl. Qed.

Lemma heap_ext_trans K h1 h2 h3 :
  heap_ext K h1 h2 → heap_ext K h2 h3 → heap_ext K h1 h3.
Proof.
  intros H12 H23 l o Hl.
  destruct (H12 l o Hl) as (o2 & Hl2 & Ho2).
  destruct (H23 l o2 Hl2) as (o3 & Hl3 & Ho3).
  eauto using same_but_trans.
Qed.

Lemma heap_ext_length K h h' : heap_ext K h h' → (length h ≤ length h')%nat.
Proof.
  intros Hext. destruct (decide (length h ≤ length h')%nat) as [|Hn]; [done|].
  destruct (lookup_lt_is_Some_2 h (length h')) as [o Ho]; [lia|].
  destruct (Hext _ _ Ho) as (o' & Ho' & _).
  apply lookup_lt_Some in Ho'. lia.
Qed.

Lemma frame_refl K σ : frame K σ σ.
Proof. split; [done|apply heap_ext_refl]. Qed.

Lemma frame_trans K σ1 σ2 σ3 : frame K σ1 σ2 → frame K σ2 σ3 → frame K σ1 σ3.
Proof.
  intros [Hs1 Hh1] [Hs2 Hh2]. split; [congruence|].
  eauto using heap_ext_trans.
Qed.

Lemma lookup_set_prop_ne k k' v ps :
  k' ≠ k → lookup_prop k' (set_prop k v ps) = lookup_prop k' ps.
Proof.
  intros Hne. induction ps as [|[k0 v0] ps IH]; simpl.
  - destruct (String.eqb_spec k k'); [congruence|done].
  - destruct (String.eqb_spec k0 k) as [->|Hk0]; simpl.
    + destruct (String.eqb_spec k k'); [congruence|done].
    + destruct (String.eqb_spec k0 k'); [done|apply IH].
Qed.

Lemma lookup_set_prop_eq k v ps : lookup_prop k (set_prop k v ps) = Some v.
Proof.
  induction ps as [|[k0 v0] ps IH]; simpl.
  - by rewrite String.eqb_refl.
  - destruct (String.eqb_spec k0 k) as [->|Hk0]; simpl.
    + by rewrite String.eqb_refl.
    + destruct (String.eqb_spec k0 k); [done|apply IH].
Qed.

Lemma heap_ext_alloc K h o : heap_ext K h (h ++ [o])%list.
Proof.
  intros l o' Hl. exists o'. split; [|apply same_but_refl].
  by apply lookup_app_l_Some.
Qed.

Lemma heap_ext_insert K (h : heap) l o o' :
  h !! l = Some o → same_but K o o' → heap_ext K h (<[l := o']> h).
Proof.
  intros Hl Ho l' o1 Hl'. destruct (decide (l' = l)) as [->|Hne].
  - rewrite Hl in Hl'. injection Hl' as <-. exists o'. split; [|done].
    apply list_lookup_insert_eq. by eapply lookup_lt_Some.
  - exists o1. split; [|apply same_but_refl].
    rewrite list_lookup_insert_ne; [done|]. by intros ->.
Qed.

Lemma heap_ext_assign K h v k x h' :
  k ∈ K → assign h v k x = Some h' → heap_ext K h h'.
Proof.
  intros Hk. unfold assign. destruct v as [| | | | |l]; try done.
  destruct (h !! l) as [[ps|es ps]|] eqn:Hl; intros [= <-].
  - eapply heap_ext_insert; [done|]. simpl. intros k' Hk'.
    apply lookup_set_prop_ne. by intros ->.
  - eapply heap_ext_insert; [done|]. simpl. split; [done|]. intros k' Hk'.
    apply lookup_set_prop_ne. by intros ->.
  - apply heap_ext_refl.
Qed.

Lemma assign_length h v k x h' : assign h v k x = Some h' → length h' = length h.
Proof.
  unfold assign. destruct v as [| | | | |l]; try done.
  destruct (h !! l) as [[ps|es ps]|]; intros [= <-]; by rewrite ?length_insert.
Qed.

Lemma respects_ret K {A} (a : A) : respects K (ret a).
Proof. intros σ. apply frame_refl. Qed.

Lemma respects_throw K {A} e : respects K (@throw A e).
Proof. intros σ. apply frame_refl. Qed.

Lemma respects_bind K {A B} (m : M A) (f : A → M B) :
  respects K m → (∀ a, respects K (f a)) → respects K (bind m f).
Proof.
  intros Hm Hf σ. unfold bind. specialize (Hm σ).
  destruct (m σ) as [a σ1|e σ1]; simpl in *; [|done].
  eapply frame_trans; [done|apply Hf].
Qed.

Lemma respects_get_self K : respects K get_self.
Proof. intros σ. apply frame_refl. Qed.

Lemma respects_get_heap K : respects K get_heap.
Proof. intros σ. apply frame_refl. Qed.

Lemma respects_alloc K o : respects K (alloc o).
Proof. intros σ. split; [done|]. apply heap_ext_alloc. Qed.

Create HintDb respects.

#[local] Hint Resolve respects_ret respects_throw respects_get_self
  respects_get_heap respects_alloc : respects.

Ltac respects_tac :=
  repeat first
    [ progress intros
    | solve [eauto with respects]
    | apply respects_bind
    | match goal with |- respects _ (if ?b then _ else _) => destruct b end
    | match goal with |- respects _ (match ?x with _ => _ end) => destruct x end ].

Lemma respects_new_object K : respects K new_object.
Proof. apply respects_alloc. Qed.

Lemma respects_new_array K es : respects K (new_array es).
Proof. apply respects_alloc. Qed.

Lemma respects_get_member K v k : respects K (get_member v k).
Proof. unfold get_member. respects_tac. Qed.

Lemma respects_set_member K v k x : k ∈ K → respects K (set_member v k x).
Proof.
  intros Hk σ. unfold set_member, bind, get_heap, put_heap, throw.
  destruct (assign (st_heap σ) v k x) as [h'|] eqn:Ha; simpl.
  - split; [done|]. by eapply heap_ext_assign.
  - apply frame_refl.
Qed.

Lemma respects_to_string K v : respects K (to_string v).
Proof. unfold to_string. respects_tac. Qed.

#[local] Hint Resolve respects_new_object respects_new_array respects_get_member
  respects_set_member respects_to_string : respects.

Lemma respects_get_index K v k : respects K (get_index v k).
Proof. unfold get_index. respects_tac. Qed.

Lemma respects_array_elems K v : respects K (array_elems v).
Proof. unfold array_elems. respects_tac. Qed.

Lemma respects_omit_underscore K v : respects K (omit_underscore v).
Proof. unfold omit_underscore. respects_tac. Qed.

Lemma respects_mapM K {A B} (f : A → M B) l :
  (∀ a, respects K (f a)) → respects K (mapM f l).
Proof. intros Hf. induction l as [|a l IH]; simpl; respects_tac. Qed.

#[local] Hint Resolve respects_get_index respects_array_elems
  respects_omit_underscore respects_mapM : respects.

Section QueryFrames.

Variable Date_parse : string → number.
Variable now : Z.
Variable K : list string.
Hypothesis K_id : "_id" ∈ K.
Hypothesis K_type : "_type" ∈ K.

Lemma respects_unpublished item : respects K (unpublished Date_parse now item).
Proof. unfold unpublished. respects_tac. Qed.

Lemma respects_relation_parts type : respects K (relation_parts type).
Proof. unfold relation_parts. respects_tac. Qed.

Hint Resolve respects_unpublished respects_relation_parts : respects.

Lemma respects_relation_of type key : respects K (relation_of type key).
Proof. unfold relation_of. respects_tac. Qed.

Hint Resolve respects_relation_of : respects.

Lemma respects_getItem type key : respects K (getItem Date_parse now type key).
Proof. unfold getItem. respects_tac. Qed.

Lemma respects_annotate name kv : respects K (annotate name kv).
Proof. unfold annotate. respects_tac. Qed.

Hint Resolve respects_annotate : respects.

Lemma respects_map_annotate name v : respects K (map_annotate name v).
Proof. unfold map_annotate. respects_tac. Qed.

Lemma respects_filterM es : respects K (filterM Date_parse now es).
Proof. induction es as [|e es IH]; simpl; respects_tac. Qed.

Hint Resolve respects_map_annotate respects_filterM : respects.

Lemma respects_filter_published v : respects K (filter_published Date_parse now v).
Proof. unfold filter_published. respects_tac. Qed.

Lemma respects_concat data tempData : respects K (concat data tempData).
Proof. unfold concat. respects_tac. Qed.

Hint Resolve respects_filter_published respects_concat : respects.

Lemma respects_combine name data : respects K (combine Date_parse now name data).
Proof. unfold combine. respects_tac. Qed.

Hint Resolve respects_combine : respects.

Lemma respects_combine_all names data :
  respects K (combine_all Date_parse now names data).
Proof. revert data. induction names as [|n names IH]; simpl; respects_tac. Qed.

End QueryFrames.

Lemma id_annotation : "_id" ∈ annotations.
Proof. apply list_elem_of_here. Qed.

Lemma type_annotation : "_type" ∈ annotations.
Proof. apply list_elem_of_further, list_elem_of_here. Qed.

Lemma publish_date_not_annotation : "publish_date" ∉ annotations.
Proof.
  intros H. apply elem_of_cons in H as [H|H]; [discriminate|].
  apply elem_of_cons in H as [H|H]; [discriminate|]. by apply elem_of_nil in H.
Qed.

(** ** The query cache *)

Ltac inv_Ok :=
  repeat match goal with
    | H : bind _ _ _ = Ok _ _ |- _ =>
        let a := fresh "a" in let σ := fresh "σ" in let H1 := fresh "H" in
        apply bind_Ok in H as (a & σ & H1 & H)
    | H : ret _ _ = Ok _ _ |- _ => unfold ret in H; injection H as <- <-
    | H : throw _ _ = Ok _ _ |- _ => discriminate H
    | H : alloc _ _ = Ok _ _ |- _ => unfold alloc in H; injection H as <- <-
    | H : new_object _ = Ok _ _ |- _ => unfold new_object in H
    | H : new_array _ _ = Ok _ _ |- _ => unfold new_array in H
    end.

Lemma append_nonempty s t : String.eqb s "" = false → String.eqb (s ++ t) "" = false.
Proof. by destruct s. Qed.

Lemma concat_truthy data tempData σ v σ' :
  truthy data = true → concat data tempData σ = Ok v σ' → truthy v = true.
Proof.
  intros Hd H. unfold concat in H. inv_Ok.
  destruct a as [des|].
  - by inv_Ok.
  - destruct data; inv_Ok; try discriminate. simpl in *.
    apply negb_true_iff. apply append_nonempty. by apply negb_true_iff.
Qed.

Section Cache.

Variable Date_parse : string → number.
Variable now : Z.

Lemma combine_truthy name data σ v σ' :
  truthy data = true →
  combine Date_parse now name data σ = Ok v σ' → truthy v = true.
Proof.
  intros Hd H. unfold combine in H. inv_Ok.
  assert (Ht : truthy a1 = true).
  { destruct (truthy a0) eqn:Ha0; by inv_Ok. }
  destruct (truthy a3); inv_Ok.
  - done.
  - exact (concat_truthy _ _ _ _ _ Hd H).
Qed.

Lemma combine_all_truthy names data σ v σ' :
  truthy data = true →
  combine_all Date_parse now names data σ = Ok v σ' → truthy v = true.
Proof.
  revert data σ. induction names as [|n names IH]; simpl; intros data σ Hd H.
  - by inv_Ok.
  - inv_Ok. eapply IH; [|exact H]. exact (combine_truthy _ _ _ _ _ Hd H0).
Qed.

(** A call that returns leaves its result in the cache under the joined
    names, and touches no other entry and no other field. *)
Lemma getCombined_cached names σ v σ' :
  getCombined Date_parse now names σ = Ok v σ' →
  truthy v = true
  ∧ Self.cachedData (self σ') !! join "," names = Some v
  ∧ (∀ key, key ≠ join "," names →
            Self.cachedData (self σ') !! key = Self.cachedData (self σ) !! key).
Proof.
  intros H. unfold getCombined in H. apply bind_Ok in H as (s & σ0 & Hs & H).
  unfold get_self in Hs. injection Hs as <- <-.
  destruct (truthy (default VUndef (Self.cachedData (self σ) !! join "," names)))
    eqn:Hhit.
  - unfold ret in H. injection H as <- <-. split; [done|]. split; [|done].
    destruct (Self.cachedData (self σ) !! join "," names); [done|discriminate].
  - unfold getCombined_fresh in H.
    apply bind_Ok in H as (d0 & σ1 & H0 & H).
    apply bind_Ok in H as (d & σ2 & Hall & H).
    apply bind_Ok in H as ([] & σ3 & Hset & H).
    unfold ret in H. injection H as <- <-.
    unfold set_self in Hset. injection Hset as <-. simpl.
    assert (Hself : self σ2 = self σ).
    { pose proof (respects_combine_all Date_parse now annotations id_annotation
                    type_annotation names d0 σ1) as [Hf _].
      rewrite Hall in Hf. simpl in Hf. rewrite Hf.
      unfold new_array, alloc in H0. by injection H0 as <- <-. }
    rewrite Hself. split.
    + eapply combine_all_truthy; [|done].
      unfold new_array, alloc in H0. by injection H0 as <- <-.
    + split; [apply lookup_insert_eq|].
      intros key Hkey. by apply lookup_insert_ne.
Qed.

(** With an entry in the cache the call returns it and does nothing else. *)
Lemma getCombined_hit names σ v :
  Self.cachedData (self σ) !! join "," names = Some v → truthy v = true →
  getCombined Date_parse now names σ = Ok v σ.
Proof.
  intros Hc Hv. unfold getCombined, bind, get_self. rewrite Hc. simpl.
  by rewrite Hv.
Qed.

Lemma getCombined_miss names σ :
  Self.cachedData (self σ) !! join "," names = None →
  getCombined Date_parse now names σ = getCombined_fresh Date_parse now names σ.
Proof. intros Hc. unfold getCombined, bind, get_self. by rewrite Hc. Qed.

End Cache.

Section CacheTheorems.

Variable Date_parse : string → number.
Variable now : Z.

(** C5, as amended: a second call with the same argument list returns the
    very value the first call returned, and leaves the state alone; calls
    with different lists of comma-free slugs, such as the same slugs in
    another order, use different keys, and neither call touches the
    other's entry. *)
Theorem query_cache_keying :
  ∀ names σ v σ1,
    getCombined Date_parse now names σ = Ok v σ1 →
    getCombined Date_parse now names σ1 = Ok v σ1
    ∧ (∀ names',
         names ≠ [] → names' ≠ [] →
         Forall (fun s => has_char "," s = false) names →
         Forall (fun s => has_char "," s = false) names' →
         names' ≠ names →
         join "," names' ≠ join "," names
         ∧ Self.cachedData (self σ1) !! join "," names'
           = Self.cachedData (self σ) !! join "," names'
         ∧ ∀ v' σ2,
             getCombined Date_parse now names' σ1 = Ok v' σ2 →
             Self.cachedData (self σ2) !! join "," names = Some v
             ∧ Self.cachedData (self σ2) !! join "," names' = Some v').
Proof.
  intros names σ v σ1 H.
  destruct (getCombined_cached _ _ _ _ _ _ H) as (Hv & Hin & Hother).
  split; [by apply getCombined_hit|].
  intros names' Hne Hne' Hfree Hfree' Hdiff.
  assert (Hkey : join "," names' ≠ join "," names).
  { intros Heq. apply Hdiff. by apply join_comma_inj. }
  split; [done|]. split; [by apply Hother|].
  intros v' σ2 H'.
  destruct (getCombined_cached _ _ _ _ _ _ H') as (_ & Hin' & Hother').
  split; [|done]. rewrite Hother'; [done|]. by intros Heq.
Qed.

(** C10: a single slug with a comma in it and the two slugs around the
    comma have the same cache key, the two slugs joined by that comma (the
    key [a,b] for the slugs [a] and [b]); the call that comes first leaves
    its result in the cache under this key, and the call that comes second
    returns that result, the same reference, and computes nothing. *)
Theorem cache_key_collision :
  ∀ a b σ v σ1,
    let key := a ++ "," ++ b in
    join "," [key] = key
    ∧ join "," [a; b] = key
    ∧ (getCombined Date_parse now [key] σ = Ok v σ1 →
       Self.cachedData (self σ1) !! key = Some v
       ∧ getCombined Date_parse now [a; b] σ1 = Ok v σ1)
    ∧ (getCombined Date_parse now [a; b] σ = Ok v σ1 →
       Self.cachedData (self σ1) !! key = Some v
       ∧ getCombined Date_parse now [key] σ1 = Ok v σ1).
Proof.
  intros a b σ v σ1 key. subst key.
  split; [reflexivity|]. split; [reflexivity|]. split; intros H.
  - destruct (getCombined_cached _ _ _ _ _ _ H) as (Hv & Hin & _).
    split; [exact Hin|]. by apply getCombined_hit.
  - destruct (getCombined_cached _ _ _ _ _ _ H) as (Hv & Hin & _).
    split; [exact Hin|]. by apply getCombined_hit.
Qed.

End CacheTheorems.

(** The two orders of [a] and [b] on an empty store: the first call is
    repeated from the cache, and the other order has another key. *)
Lemma query_cache_keying_witness :
  let r := getCombined sample_Date_parse 0 ["a"; "b"] swigFunctions in
  ∃ v, r = Ok v (state_of r)
       ∧ getCombined sample_Date_parse 0 ["a"; "b"] (state_of r) = Ok v (state_of r)
       ∧ join "," ["b"; "a"] ≠ join "," ["a"; "b"].
Proof.
  intros r. eexists.
  assert (Hr : r = Ok (VRef 14%nat) (state_of r)) by (vm_compute; reflexivity).
  split; [exact Hr|].
  destruct (query_cache_keying sample_Date_parse 0 _ _ _ _ Hr) as [Hsame Hother].
  split; [exact Hsame|].
  refine (proj1 (Hother ["b"; "a"] _ _ _ _ _)).
  - discriminate.
  - discriminate.
  - repeat constructor.
  - repeat constructor.
  - discriminate.
Defined.

(** C5 as stated fails when a slug has a comma in it: the lists
    [("x", "x,x")] and [("x,x", "x")] differ only in order and share one
    key.  After the first call the second is answered from the first's
    entry, an array that starts with the item of [x], where its own
    computation would start with the item of [x,x]. *)
Lemma query_cache_order_collision :
  let names1 := ["x"; "x,x"] in
  let names2 := ["x,x"; "x"] in
  let r1 := getCombined sample_Date_parse 0 names1 comma_store in
  let r2 := getCombined sample_Date_parse 0 names2 (state_of r1) in
  let own := getCombined_fresh sample_Date_parse 0 names2 (state_of r1) in
  names1 ≡ₚ names2 ∧ names1 ≠ names2
  ∧ join "," names1 = join "," names2
  ∧ thrown r1 = None ∧ returned r2 = returned r1 ∧ state_of r2 = state_of r1
  ∧ (v ← returned r2; member (st_heap (state_of r2)) v "0") = Some (VRef 9%nat)
  ∧ (v ← returned own; member (st_heap (state_of own)) v "0") = Some (VRef 10%nat).
Proof.
  intros names1 names2 r1 r2 own.
  split; [apply Permutation_swap|]. split; [discriminate|].
  split; [reflexivity|]. repeat split; vm_compute; reflexivity.
Qed.

(** The slug [x,x] and the two slugs [x], [x] on [comma_store]: the second
    call is served the one item of [x,x], where its own computation would
    give the item of [x] twice. *)
Lemma cache_key_collision_witness :
  let r := getCombined sample_Date_parse 0 ["x,x"] comma_store in
  let σ1 := state_of r in
  r = Ok (VRef 15%nat) σ1
  ∧ Self.cachedData (self σ1) !! "x,x" = Some (VRef 15%nat)
  ∧ getCombined sample_Date_parse 0 ["x"; "x"] σ1 = Ok (VRef 15%nat) σ1
  ∧ returned_elems (getCombined sample_Date_parse 0 ["x"; "x"] σ1)
    = Some [VRef 10%nat]
  ∧ returned_elems (getCombined_fresh sample_Date_parse 0 ["x"; "x"] σ1)
    = Some [VRef 9%nat; VRef 9%nat].
Proof.
  intros r σ1.
  assert (Hr : r = Ok (VRef 15%nat) σ1) by (vm_compute; reflexivity).
  destruct (cache_key_collision sample_Date_parse 0 "x" "x" comma_store
              (VRef 15%nat) σ1) as (_ & _ & Hfirst & _).
  destruct (Hfirst Hr) as [Hin Hsecond].
  split; [exact Hr|]. split; [exact Hin|]. split; [exact Hsecond|].
  split; [by rewrite Hsecond|vm_compute; reflexivity].
Defined.

(** ** Relation strings *)

Lemma first_token_free s : has_char " " s = false → first_token s = s.
Proof. intros H. unfold first_token. by rewrite split_on_free. Qed.

Lemma first_token_app k rest :
  has_char " " k = false → first_token (k ++ " " ++ rest) = k.
Proof.
  intros H. unfold first_token.
  change (k ++ " " ++ rest) with (k ++ String " " rest).
  by rewrite split_on_app.
Qed.

Lemma String_split_relation t r :
  has_char " " t = false →
  String_split (t ++ " " ++ r) 2 = [t; first_token r].
Proof.
  intros Ht. unfold String_split, first_token.
  change (t ++ " " ++ r) with (t ++ String " " r).
  rewrite split_on_app by done. simpl.
  pose proof (split_on_nonempty " " r). by destruct (split_on " " r).
Qed.

Lemma String_split_single s : has_char " " s = false → String_split s 2 = [s].
Proof. intros H. unfold String_split. by rewrite split_on_free. Qed.

Lemma truthy_VStr s : s ≠ "" → truthy (VStr s) = true.
Proof.
  intros H. simpl. apply negb_true_iff. by destruct (String.eqb_spec s "").
Qed.

Section RelationStrings.

Variable Date_parse : string → number.
Variable now : Z.

(** C7, as amended: the one-string form [getItem("type key")] is the
    two-argument form [getItem("type", "key")]; the string is split at its
    spaces and the first two pieces are the type and the key, so that a
    string with more spaces has the piece between the first two of them as
    its key and loses the rest; a string without a space gives the empty
    item. *)
Theorem relation_string_form :
  ∀ (t r : string) σ,
    has_char " " t = false → t ≠ "" → first_token r ≠ "" →
    getItem Date_parse now (VStr (t ++ " " ++ r)) VUndef σ
    = getItem Date_parse now (VStr t) (VStr (first_token r)) σ
    ∧ (has_char " " r = false → first_token r = r)
    ∧ (∀ k rest, r = k ++ " " ++ rest → has_char " " k = false →
                 first_token r = k)
    ∧ getItem Date_parse now (VStr t) VUndef σ = new_object σ.
Proof.
  intros t r σ Ht Hne Hk. split; [|split; [|split]].
  - assert (Hs : truthy (VStr (t ++ " " ++ r)) = true).
    { apply truthy_VStr. by destruct t. }
    unfold getItem. rewrite Hs, (truthy_VStr t Hne). simpl negb.
    unfold relation_of. rewrite (truthy_VStr _ Hk). simpl negb.
    unfold bind at 1 3. unfold bind at 1. simpl.
    by rewrite String_split_relation.
  - apply first_token_free.
  - intros k rest -> Hfree. by apply first_token_app.
  - unfold getItem. rewrite (truthy_VStr t Hne). simpl.
    unfold bind at 1. unfold relation_of. simpl. unfold bind at 1. simpl.
    by rewrite String_split_single.
Qed.

End RelationStrings.

(** [getItem("companies 42")] and [getItem("companies", "42")]. *)
Lemma relation_string_form_witness :
  getItem sample_Date_parse 0 (VStr "companies 42") VUndef relation_store
  = getItem sample_Date_parse 0 (VStr "companies") (VStr "42") relation_store
  ∧ returned (getItem sample_Date_parse 0 (VStr "companies 42") VUndef relation_store)
    = Some (VRef 8%nat).
Proof.
  split; [|vm_compute; reflexivity].
  refine (proj1 (relation_string_form sample_Date_parse 0 "companies" "42"
                   relation_store _ _ _)).
  - reflexivity.
  - discriminate.
  - vm_compute. discriminate.
Defined.

(** C7 as stated fails on a key with a space in it: [getItem("companies a b")]
    looks up the key [a], not the remainder [a b] that
    [getItem("companies", "a b")] looks up. *)
Lemma relation_key_is_not_the_remainder :
  returned (getItem sample_Date_parse 0 (VStr "companies a b") VUndef relation_store)
  = Some (VRef 9%nat)
  ∧ returned (getItem sample_Date_parse 0 (VStr "companies") (VStr "a b") relation_store)
    = Some (VRef 10%nat)
  ∧ getItem sample_Date_parse 0 (VStr "companies a b") VUndef relation_store
    ≠ getItem sample_Date_parse 0 (VStr "companies") (VStr "a b") relation_store.
Proof.
  split; [vm_compute; reflexivity|]. split; [vm_compute; reflexivity|].
  intros Heq. apply (f_equal returned) in Heq. vm_compute in Heq. discriminate.
Qed.

(** ** A type without a collection *)

(** C2 fails on the code: with a type that is in the type table and not in
    the store, line 121 reads a property of [undefined] and both forms of
    [getItem], and [getItems] through it, throw a TypeError. *)
Theorem getItem_missing_collection_throws :
  thrown (getItem sample_Date_parse 0 (VStr "companies") (VStr "42")
            missing_collection_store) = Some TypeError
  ∧ thrown (getItem sample_Date_parse 0 (VStr "companies 42") VUndef
              missing_collection_store) = Some TypeError
  ∧ thrown (getItems sample_Date_parse 0 (VRef 7%nat) missing_collection_store)
    = Some TypeError
  ∧ thrown (getCombined sample_Date_parse 0 ["companies"] missing_collection_store)
    = None.
Proof. repeat split; vm_compute; reflexivity. Qed.

(** ** One-off types in [getCombined] *)

(** A property read that gave a truthy value gives it again after any
    allocation. *)
Lemma member_app_truthy h ext v k x :
  member h v k = Some x → truthy x = true → member (h ++ ext)%list v k = Some x.
Proof.
  destruct v as [| | | | |l]; simpl; try done.
  destruct (h !! l) as [o|] eqn:Hl.
  - by rewrite (lookup_app_l_Some _ _ _ _ Hl).
  - by intros [= <-].
Qed.

Lemma combine_all_app Date_parse now names1 names2 data σ :
  combine_all Date_parse now (names1 ++ names2)%list data σ
  = bind (combine_all Date_parse now names1 data)
         (combine_all Date_parse now names2) σ.
Proof.
  revert data σ. induction names1 as [|n names1 IH]; intros data σ; simpl.
  - done.
  - unfold bind in *. destruct (combine Date_parse now n data σ); [|done].
    apply IH.
Qed.

Section OneOff.

Variable Date_parse : string → number.
Variable now : Z.

(** The callback on a one-off type, after any allocations. *)
Lemma combine_oneOff σ ext (name : string) (d info flag data : value) :
  member (st_heap σ) (Self.typeInfo (self σ)) name = Some info →
  truthy info = true →
  member (st_heap σ) info "oneOff" = Some flag →
  truthy flag = true →
  member (st_heap σ) (Self.data (self σ)) name = Some d →
  truthy d = true →
  let σ' := mkState (st_heap σ ++ ext)%list (self σ) in
  combine Date_parse now name data σ' = Ok d σ'.
Proof.
  intros Hinfo Hti Hflag Htf Hd Htd σ'.
  unfold combine, get_self, get_member, get_heap, ret, bind. simpl.
  rewrite (member_app_truthy _ ext _ _ _ Hd Htd). simpl. rewrite Htd. simpl.
  rewrite (member_app_truthy _ ext _ _ _ Hinfo Hti). simpl. rewrite Hti. simpl.
  rewrite (member_app_truthy _ ext _ _ _ Hflag Htf). simpl. by rewrite Htf.
Qed.

(** The whole call on a single one-off slug: the store value comes back,
    behind it the empty array of line 180 stays in the heap, and the value
    is in the cache. *)
Lemma getCombined_oneOff σ (name : string) (d info flag : value) :
  member (st_heap σ) (Self.typeInfo (self σ)) name = Some info →
  truthy info = true →
  member (st_heap σ) info "oneOff" = Some flag →
  truthy flag = true →
  member (st_heap σ) (Self.data (self σ)) name = Some d →
  truthy d = true →
  Self.cachedData (self σ) !! name = None →
  ∃ s', getCombined Date_parse now [name] σ
        = Ok d (mkState (st_heap σ ++ [Arr [] []])%list s')
      ∧ Self.cachedData s' = <[name := d]> (Self.cachedData (self σ)).
Proof.
  intros Hinfo Hti Hflag Htf Hd Htd Hmiss.
  rewrite getCombined_miss by done. unfold getCombined_fresh.
  erewrite bind_eval; [|reflexivity].
  erewrite bind_eval;
    [|simpl combine_all; erewrite bind_eval;
      [reflexivity|by apply (combine_oneOff σ [Arr [] []] name d info flag)]].
  erewrite bind_eval; [|reflexivity]. simpl. eexists. split; reflexivity.
Qed.

(** X21: for a one-off type the callback of [getCombined] makes the type's
    store value the accumulated result, whatever had been accumulated
    before, and changes nothing; so a call whose last slug is a one-off
    type, and a call on a single one-off slug in particular (one that is no
    name of [Object.prototype], with nothing cached for it), returns that
    store value itself, and every object is as it was before the call. *)
Theorem oneOff_overwrites :
  ∀ σ (name : string) (d info flag : value),
    member (st_heap σ) (Self.typeInfo (self σ)) name = Some info →
    truthy info = true →
    member (st_heap σ) info "oneOff" = Some flag →
    truthy flag = true →
    member (st_heap σ) (Self.data (self σ)) name = Some d →
    truthy d = true →
    (∀ data, combine Date_parse now name data σ = Ok d σ)
    ∧ (∀ names data0 σ0 data,
         combine_all Date_parse now names data0 σ0 = Ok data σ →
         combine_all Date_parse now (names ++ [name])%list data0 σ0 = Ok d σ)
    ∧ (inherited name = false →
       Self.cachedData (self σ) !! name = None →
       returned (getCombined Date_parse now [name] σ) = Some d
       ∧ ∀ l o, st_heap σ !! l = Some o →
                st_heap (state_of (getCombined Date_parse now [name] σ)) !! l
                = Some o).
Proof.
  intros σ name d info flag Hinfo Hti Hflag Htf Hd Htd.
  assert (Hstep : ∀ data, combine Date_parse now name data σ = Ok d σ).
  { intros data.
    pose proof (combine_oneOff σ [] name d info flag data Hinfo Hti Hflag Htf
                  Hd Htd) as Hone.
    simpl in Hone. rewrite app_nil_r in Hone. by destruct σ. }
  split; [exact Hstep|]. split.
  - intros names data0 σ0 data Hpre. rewrite combine_all_app.
    erewrite bind_eval; [|exact Hpre]. simpl.
    erewrite bind_eval; [|apply Hstep]. done.
  - intros _ Hmiss.
    destruct (getCombined_oneOff σ name d info flag Hinfo Hti Hflag Htf Hd Htd
                Hmiss) as (s' & -> & _).
    split; [done|]. intros l o Hl. simpl. by apply lookup_app_l_Some.
Qed.

End OneOff.

(** [getCombined("about")] returns the object of the store at location 6,
    which is as it was, and the callback returns it over any [data]. *)
Lemma oneOff_overwrites_witness :
  returned (getCombined sample_Date_parse 0 ["about"] oneOff_store)
  = Some (VRef 6%nat)
  ∧ st_heap (state_of (getCombined sample_Date_parse 0 ["about"] oneOff_store))
      !! 6%nat = Some (Obj [("title", VStr "About us")])
  ∧ ∀ data, combine sample_Date_parse 0 "about" data oneOff_store
            = Ok (VRef 6%nat) oneOff_store.
Proof.
  destruct (oneOff_overwrites sample_Date_parse 0 oneOff_store "about"
              (VRef 6%nat) (VRef 8%nat) (VBool true)
              eq_refl eq_refl eq_refl eq_refl eq_refl eq_refl)
    as (Hstep & _ & Hsingle).
  destruct (Hsingle eq_refl eq_refl) as [Hret Hheap].
  split; [exact Hret|]. split; [|exact Hstep].
  apply Hheap. reflexivity.
Defined.

(** C6 fails on the code: after the one-off type [about] the accumulated
    value is the plain object of the store, line 208 calls [concat] on it
    for the ordinary type [companies] that follows, and
    [getCombined("about", "companies")] throws a TypeError where the claim
    has the items of [companies] appended; in the other order the one-off
    value replaces what was accumulated and is returned. *)
Lemma oneOff_then_append_throws :
  thrown (getCombined sample_Date_parse 0 ["about"; "companies"] oneOff_store)
  = Some TypeError
  ∧ returned (getCombined sample_Date_parse 0 ["about"; "companies"] oneOff_store)
    = None
  ∧ returned (getCombined sample_Date_parse 0 ["companies"; "about"] oneOff_store)
    = Some (VRef 6%nat).
Proof. repeat split; vm_compute; reflexivity. Qed.

(** ** Reads *)

Lemma reads_ret {A} (a : A) : reads (ret a).
Proof. by intros σ a' σ' [= _ <-]. Qed.

Lemma reads_throw {A} e : reads (@throw A e).
Proof. by intros σ a' σ'. Qed.

Lemma reads_bind {A B} (m : M A) (f : A → M B) :
  reads m → (∀ a, reads (f a)) → reads (bind m f).
Proof.
  intros Hm Hf σ b σ2 (a & σ1 & H1 & H2)%bind_Ok.
  apply Hm in H1 as ->. by apply Hf in H2.
Qed.

Lemma reads_get_self : reads get_self.
Proof. by intros σ a' σ' [= _ <-]. Qed.

Lemma reads_get_heap : reads get_heap.
Proof. by intros σ a' σ' [= _ <-]. Qed.

Create HintDb reads.

#[local] Hint Resolve reads_ret reads_throw reads_get_self reads_get_heap : reads.

Ltac reads_tac :=
  repeat first
    [ progress intros
    | solve [eauto with reads]
    | apply reads_bind
    | match goal with |- reads (if ?b then _ else _) => destruct b end
    | match goal with |- reads (match ?x with _ => _ end) => destruct x end ].

Lemma reads_get_member v k : reads (get_member v k).
Proof. unfold get_member. reads_tac. Qed.

Lemma reads_to_string v : reads (to_string v).
Proof. unfold to_string. reads_tac. Qed.

#[local] Hint Resolve reads_get_member reads_to_string : reads.

Lemma reads_get_index v k : reads (get_index v k).
Proof. unfold get_index. reads_tac. Qed.

Lemma reads_array_elems v : reads (array_elems v).
Proof. unfold array_elems. reads_tac. Qed.

Lemma reads_relation_parts type : reads (relation_parts type).
Proof. unfold relation_parts. reads_tac. Qed.

#[local] Hint Resolve reads_get_index reads_array_elems reads_relation_parts : reads.

Lemma reads_relation_of type key : reads (relation_of type key).
Proof. unfold relation_of. reads_tac. Qed.

Lemma reads_unpublished Date_parse now item :
  reads (unpublished Date_parse now item).
Proof. unfold unpublished. reads_tac. Qed.

#[local] Hint Resolve reads_relation_of reads_unpublished : reads.

Lemma reads_filterM Date_parse now es : reads (filterM Date_parse now es).
Proof. induction es as [|e es IH]; simpl; reads_tac. Qed.

Lemma assign_own_prop h l k x h' :
  (l < length h)%nat → assign h (VRef l) k x = Some h' → own_prop h' l k = Some x.
Proof.
  intros Hl. unfold assign, own_prop.
  destruct (lookup_lt_is_Some_2 h l Hl) as [o Ho]. rewrite Ho.
  destruct o as [ps|es ps]; intros [= <-];
    rewrite list_lookup_insert_eq by done; apply lookup_set_prop_eq.
Qed.

(** What [getItem] can return: a new empty object, or the item the store
    has under the key [k] of the collection [ty], after writing [ty] on it
    as its [_type]; [ty] and [k] are the two arguments, or the two pieces of
    the relation string. *)
Lemma getItem_result Date_parse now type key σ v σ' :
  getItem Date_parse now type key σ = Ok v σ' →
  (v = VRef (length (st_heap σ))
   ∧ σ' = mkState (st_heap σ ++ [Obj []])%list (self σ))
  ∨ (∃ ty k coll h',
       relation_of type key σ = Ok (Some (ty, k)) σ
       ∧ get_index (Self.data (self σ)) ty σ = Ok coll σ
       ∧ get_index coll k σ = Ok v σ
       ∧ assign (st_heap σ) v "_type" ty = Some h'
       ∧ σ' = mkState h' (self σ)).
Proof.
  intros H. unfold getItem in H.
  assert (Hnew : ∀ σ0 v0 σ0', new_object σ0 = Ok v0 σ0' →
            v0 = VRef (length (st_heap σ0))
            ∧ σ0' = mkState (st_heap σ0 ++ [Obj []])%list (self σ0)).
  { intros σ0 v0 σ0' [= <- <-]. done. }
  destruct (negb (truthy type)); [left; by apply Hnew|].
  apply bind_Ok in H as (r & σ1 & Hr & H).
  pose proof (reads_relation_of _ _ _ _ _ Hr) as ->.
  destruct r as [[type' key']|]; [|left; by apply Hnew].
  apply bind_Ok in H as (s & σ1 & Hs & H).
  pose proof (reads_get_self _ _ _ Hs) as ->.
  unfold get_self in Hs. injection Hs as <-.
  apply bind_Ok in H as (info & σ1 & Hi & H). apply reads_get_index in Hi as ->.
  destruct (negb (truthy info)); [left; by apply Hnew|].
  apply bind_Ok in H as (coll & σ1 & Hc & H).
  pose proof (reads_get_index _ _ _ _ _ Hc) as ->.
  apply bind_Ok in H as (item & σ1 & Hit & H).
  pose proof (reads_get_index _ _ _ _ _ Hit) as ->.
  destruct (negb (truthy item)); [left; by apply Hnew|].
  apply bind_Ok in H as (oneOff & σ1 & Ho & H). apply reads_get_member in Ho as ->.
  apply bind_Ok in H as (hide & σ1 & Hh & H).
  assert (σ1 = σ) as ->.
  { destruct (negb (truthy oneOff)).
    - by apply reads_unpublished in Hh.
    - by apply reads_ret in Hh. }
  destruct hide; [left; by apply Hnew|].
  apply bind_Ok in H as ([] & σ1 & Hset & H). injection H as <- <-.
  right. unfold set_member, bind, get_heap in Hset.
  destruct (assign (st_heap σ) item "_type" type') as [h'|] eqn:Ha; [|done].
  injection Hset as <-. by exists type', key', coll, h'.
Qed.

(** ** What the queries do to the store *)

Lemma getCombined_frame Date_parse now names σ :
  Self.data (self (state_of (getCombined Date_parse now names σ)))
  = Self.data (self σ)
  ∧ heap_ext annotations (st_heap σ)
      (st_heap (state_of (getCombined Date_parse now names σ))).
Proof.
  unfold getCombined. erewrite bind_eval; [|reflexivity].
  destruct (truthy _); [split; [done|apply heap_ext_refl]|].
  unfold getCombined_fresh. erewrite bind_eval; [|reflexivity].
  set (σ1 := mkState (st_heap σ ++ [Arr [] []])%list (self σ)).
  pose proof (respects_combine_all Date_parse now annotations id_annotation
                type_annotation names (VRef (length (st_heap σ))) σ1) as [Hs1 Hh1].
  assert (Hh0 : heap_ext annotations (st_heap σ) (st_heap σ1))
    by apply heap_ext_alloc.
  rewrite state_of_bind.
  destruct (combine_all Date_parse now names _ σ1) as [d σ2|e σ2]; simpl in *.
  - rewrite Hs1. split; [done|]. by eapply heap_ext_trans.
  - rewrite Hs1. split; [done|]. by eapply heap_ext_trans.
Qed.

(** ** Visibility *)

Lemma ToString_prim n h n' h' v :
  is_prim v = true → ToString n h v = ToString n' h' v.
Proof. destruct v; try done; by destruct n, n'. Qed.

Lemma get_member_eval v k x σ :
  member (st_heap σ) v k = Some x → get_member v k σ = Ok x σ.
Proof. intros H. unfold get_member, get_heap, bind. simpl. by rewrite H. Qed.

Lemma get_index_eval v s x σ :
  member (st_heap σ) v s = Some x → get_index v (VStr s) σ = Ok x σ.
Proof.
  intros H. unfold get_index, to_string.
  erewrite bind_eval; [|by erewrite bind_eval].
  replace (ToString _ _ (VStr s)) with s by (by destruct (length (st_heap σ))).
  by apply get_member_eval.
Qed.

Lemma array_elems_eval l es ps σ :
  st_heap σ !! l = Some (Arr es ps) → array_elems (VRef l) σ = Ok (Some es) σ.
Proof. intros H. unfold array_elems, get_heap, bind. simpl. by rewrite H. Qed.

(** Reading a property through a reference that is not dangling gives the
    same after allocations. *)
Lemma member_app h ext l k :
  (l < length h)%nat → member (h ++ ext)%list (VRef l) k = member h (VRef l) k.
Proof. intros Hl. simpl. by rewrite lookup_app_l. Qed.

Lemma member_ext K h h' l k :
  heap_ext K h h' → (l < length h)%nat → k ∉ K → k ≠ "length" →
  index_of_key k = None →
  member h' (VRef l) k = member h (VRef l) k.
Proof.
  intros Hext Hl Hk Hlen Hidx. simpl.
  destruct (lookup_lt_is_Some_2 h l Hl) as [o Ho].
  destruct (Hext l o Ho) as (o' & Ho' & Hsame). rewrite Ho, Ho'.
  destruct o as [ps|es ps], o' as [ps'|es' ps']; simpl in Hsame; try done.
  - by rewrite Hsame.
  - destruct Hsame as [-> Hsame]. unfold arr_member.
    destruct (String.eqb_spec k "length"); [done|]. by rewrite Hidx, Hsame.
Qed.

Section Visibility.

Variable Date_parse : string → number.
Variable now : Z.

Lemma unpublished_eval l σ :
  unpublished Date_parse now (VRef l) σ = Ok (hidden Date_parse now (st_heap σ) (VRef l)) σ.
Proof.
  unfold unpublished, hidden.
  destruct (member (st_heap σ) (VRef l) "publish_date") as [pd|] eqn:Hpd.
  - erewrite bind_eval; [|by apply get_member_eval].
    unfold unpublished_date. destruct (truthy pd); simpl; [|done].
    unfold to_string. erewrite bind_eval; [|by erewrite bind_eval]. done.
  - simpl in Hpd. by destruct (st_heap σ !! l) as [[]|].
Qed.

Lemma hidden_ext K h h' l pd :
  heap_ext K h h' → "publish_date" ∉ K → (l < length h)%nat →
  member h (VRef l) "publish_date" = Some pd → is_prim pd = true →
  hidden Date_parse now h' (VRef l) = hidden Date_parse now h (VRef l).
Proof.
  intros Hext HK Hl Hpd Hprim. unfold hidden.
  rewrite (member_ext K h h' l "publish_date") by done. rewrite Hpd.
  unfold unpublished_date.
  by rewrite (ToString_prim (length h') h' (length h) h).
Qed.

(** [_.filter] keeps the elements that pass the test, in order. *)
Lemma filterM_eval es σ :
  Forall (fun e => ∃ l, e = VRef l) es →
  filterM Date_parse now es σ
  = Ok (filter (fun e => hidden Date_parse now (st_heap σ) e = false) es) σ.
Proof.
  induction 1 as [|e es [l ->] _ IH]; simpl; [done|].
  erewrite bind_eval; [|apply unpublished_eval].
  erewrite bind_eval; [|apply IH]. unfold ret.
  rewrite filter_cons. destruct (hidden Date_parse now (st_heap σ) (VRef l)); by case_decide.
Qed.

End Visibility.

(** [_.map] writes the annotations on every value and collects the values;
    a value that is not an object makes it throw. *)
Lemma mapM_annotate_eval name kvs σ :
  Forall (fun kv : string * value => ∃ l, kv.2 = VRef l) kvs →
  ∃ σ', mapM (annotate name) kvs σ = Ok (kvs.*2) σ'
        ∧ frame annotations σ σ'
        ∧ length (st_heap σ') = length (st_heap σ).
Proof.
  intros Hall. revert σ.
  induction Hall as [|[k v] kvs [l Hl] _ IH]; intros σ; simpl.
  - exists σ. split; [done|]. split; [apply frame_refl|done].
  - simpl in Hl. subst v.
    assert (Hs : ∀ key x σ0, ∃ h', assign (st_heap σ0) (VRef l) key x = Some h'
              ∧ set_member (VRef l) key x σ0 = Ok tt (mkState h' (self σ0))).
    { intros key x σ0. unfold set_member, bind, get_heap, put_heap.
      destruct (assign (st_heap σ0) (VRef l) key x) as [h'|] eqn:Ha; [by eauto|].
      simpl in Ha. by destruct (st_heap σ0 !! l) as [[]|]. }
    destruct (Hs "_id" (VStr k) σ) as (h1 & Ha1 & Hs1).
    destruct (Hs "_type" (VStr name) (mkState h1 (self σ))) as (h2 & Ha2 & Hs2).
    change (assign h1 (VRef l) "_type" (VStr name) = Some h2) in Ha2.
    simpl in Hs2.
    destruct (IH (mkState h2 (self σ))) as (σ' & Hm & Hf & Hlen).
    exists σ'. split; [|split].
    + unfold annotate. simpl.
      erewrite bind_eval;
        [|erewrite bind_eval; [|exact Hs1];
          erewrite bind_eval; [|exact Hs2]; reflexivity].
      erewrite bind_eval; [|exact Hm]. done.
    + eapply frame_trans; [|exact Hf]. split; [done|]. simpl.
      eapply heap_ext_trans.
      * eapply heap_ext_assign; [apply id_annotation|exact Ha1].
      * eapply heap_ext_assign; [apply type_annotation|exact Ha2].
    + rewrite Hlen. simpl.
      by rewrite (assign_length _ _ _ _ _ Ha2), (assign_length _ _ _ _ _ Ha1).
Qed.

Lemma filter_ext_Forall {A} (P Q : A → Prop)
    `{∀ x, Decision (P x)} `{∀ x, Decision (Q x)} (l : list A) :
  Forall (fun x => P x ↔ Q x) l → filter P l = filter Q l.
Proof.
  induction 1 as [|x l Hx _ IH]; [done|].
  rewrite !filter_cons, IH. by repeat case_decide; try tauto.
Qed.

Lemma member_app_valid h ext v k :
  valid h v → member (h ++ ext)%list v k = member h v k.
Proof.
  intros Hv. destruct v as [| | | | |l]; try done.
  apply member_app. by apply Hv.
Qed.

Section Combine.

Variable Date_parse : string → number.
Variable now : Z.

(** One ordinary type in [getCombined]: the visible items of the collection,
    in the order of its keys, go after what was accumulated. *)
Lemma combine_eval σ name info flag c ps d0 es0 ps0 :
  member (st_heap σ) (Self.typeInfo (self σ)) name = Some info →
  truthy info = true →
  member (st_heap σ) info "oneOff" = Some flag →
  truthy flag = false →
  member (st_heap σ) (Self.data (self σ)) name = Some (VRef c) →
  st_heap σ !! c = Some (Obj ps) →
  st_heap σ !! d0 = Some (Arr es0 ps0) →
  Forall (plain_item (st_heap σ)) (listed ps).*2 →
  ∃ σ' r,
    combine Date_parse now name (VRef d0) σ = Ok (VRef r) σ'
    ∧ frame annotations σ σ'
    ∧ st_heap σ' !! r
      = Some (Arr (es0 ++ filter (fun v => hidden Date_parse now (st_heap σ) v = false)
                            (listed ps).*2)%list []).
Proof.
  intros Hinfo Hti Hflag Htf Hd Hc Hd0 Hitems.
  set (h := st_heap σ) in *.
  (* _.omit *)
  set (σa := mkState (h ++ [Obj (listed ps)])%list (self σ)).
  assert (Homit : omit_underscore (VRef c) σ = Ok (VRef (length h)) σa).
  { unfold omit_underscore. erewrite bind_eval; [|reflexivity].
    unfold enumerate. fold h. by rewrite Hc. }
  (* _.map *)
  assert (Hrefs : Forall (fun kv : string * value => ∃ l, kv.2 = VRef l) (listed ps)).
  { pose proof (proj1 (Forall_fmap snd (plain_item h) (listed ps)) Hitems) as Hps.
    eapply Forall_impl; [exact Hps|].
    intros kv (l & pd & Hl & _). by exists l. }
  destruct (mapM_annotate_eval name (listed ps) σa Hrefs) as (σb & Hmap & Hfb & Hlenb).
  set (vs := (listed ps).*2) in *.
  set (σc := mkState (st_heap σb ++ [Arr vs []])%list (self σb)).
  assert (Hann : map_annotate name (VRef (length h)) σa = Ok (VRef (length (st_heap σb))) σc).
  { unfold map_annotate. erewrite bind_eval; [|reflexivity].
    unfold enumerate. simpl st_heap. rewrite list_lookup_middle by done.
    erewrite bind_eval; [|exact Hmap]. done. }
  (* _.filter *)
  assert (Hvs : Forall (fun e => ∃ l, e = VRef l) vs).
  { eapply Forall_impl; [exact Hitems|]. intros v (l & pd & Hl & _). by exists l. }
  set (kept := filter (fun v => hidden Date_parse now (st_heap σc) v = false) vs).
  set (σd := mkState (st_heap σc ++ [Arr kept []])%list (self σc)).
  assert (Hfil : filter_published Date_parse now (VRef (length (st_heap σb))) σc
                 = Ok (VRef (length (st_heap σc))) σd).
  { unfold filter_published.
    erewrite bind_eval;
      [|apply (array_elems_eval _ vs []); simpl; by rewrite list_lookup_middle].
    simpl default. erewrite bind_eval; [|by apply filterM_eval]. done. }
  (* the heaps on the way *)
  assert (Hext_c : heap_ext annotations h (st_heap σc)).
  { eapply heap_ext_trans; [apply (heap_ext_alloc _ h (Obj (listed ps)))|].
    eapply heap_ext_trans; [apply Hfb|]. apply heap_ext_alloc. }
  assert (Hext_d : heap_ext annotations h (st_heap σd)).
  { eapply heap_ext_trans; [exact Hext_c|]. apply heap_ext_alloc. }
  assert (Hkept : kept = filter (fun v => hidden Date_parse now h v = false) vs).
  { apply filter_ext_Forall. eapply Forall_impl; [exact Hitems|].
    intros v (l & pd & -> & Hl & Hpd & Hprim).
    rewrite (hidden_ext Date_parse now annotations h (st_heap σc) l pd); try done.
    apply publish_date_not_annotation. }
  (* data.concat *)
  destruct (Hext_d d0 _ Hd0) as (o' & Hd0' & Hsame).
  destruct o' as [|es0' ps0']; [done|]. destruct Hsame as [-> _].
  set (σe := mkState (st_heap σd ++ [Arr (es0 ++ kept) []])%list (self σd)).
  assert (Hcat : concat (VRef d0) (VRef (length (st_heap σc))) σd
                 = Ok (VRef (length (st_heap σd))) σe).
  { unfold concat.
    erewrite bind_eval; [|by apply (array_elems_eval _ es0 ps0')].
    erewrite bind_eval;
      [|apply (array_elems_eval _ kept []); simpl; by rewrite list_lookup_middle].
    done. }
  exists σe, (length (st_heap σd)). split; [|split].
  - unfold combine. erewrite bind_eval; [|reflexivity].
    erewrite bind_eval; [|by apply get_member_eval]. simpl truthy. cbv iota.
    erewrite bind_eval; [|reflexivity].
    erewrite bind_eval; [|by apply get_member_eval]. rewrite Hti.
    erewrite bind_eval; [|by apply get_member_eval]. rewrite Htf.
    erewrite bind_eval; [|exact Homit].
    erewrite bind_eval; [|exact Hann].
    erewrite bind_eval; [|exact Hfil].
    exact Hcat.
  - split.
    + simpl. by destruct Hfb as [-> _].
    + eapply heap_ext_trans; [exact Hext_d|]. apply heap_ext_alloc.
  - simpl st_heap. rewrite list_lookup_middle by done. by rewrite Hkept.
Qed.

End Combine.

Section VisibilityRule.

Variable Date_parse : string → number.
Variable now : Z.

(** [getItem(type, key)] on an item the store has. *)
Lemma getItem_eval σ (name key : string) info flag coll l :
  name ≠ "" → key ≠ "" →
  member (st_heap σ) (Self.typeInfo (self σ)) name = Some info →
  truthy info = true →
  member (st_heap σ) info "oneOff" = Some flag →
  member (st_heap σ) (Self.data (self σ)) name = Some coll →
  member (st_heap σ) coll key = Some (VRef l) →
  getItem Date_parse now (VStr name) (VStr key) σ
  = if negb (truthy flag) && hidden Date_parse now (st_heap σ) (VRef l)
    then new_object σ
    else tagged (VRef l) (VStr name) σ.
Proof.
  intros Hname Hkey Hinfo Hti Hflag Hcoll Hitem.
  unfold getItem. rewrite (truthy_VStr name Hname). cbn [negb]. cbv iota.
  erewrite bind_eval;
    [|unfold relation_of; rewrite (truthy_VStr key Hkey); reflexivity].
  cbv beta iota.
  erewrite bind_eval; [|reflexivity].
  erewrite bind_eval; [|by apply get_index_eval]. rewrite Hti. cbn [negb]. cbv iota.
  erewrite bind_eval; [|by apply get_index_eval].
  erewrite bind_eval; [|by apply get_index_eval]. cbn [truthy negb]. cbv iota.
  erewrite bind_eval; [|by apply get_member_eval].
  destruct (truthy flag); cbn [negb andb]; cbv iota.
  - erewrite bind_eval; [|reflexivity]. done.
  - erewrite bind_eval; [|apply unpublished_eval].
    by destruct (hidden Date_parse now (st_heap σ) (VRef l)).
Qed.

Lemma tagged_returns l ty σ : returned (tagged (VRef l) ty σ) = Some (VRef l).
Proof.
  unfold tagged, set_member, bind, get_heap, put_heap. simpl.
  by destruct (st_heap σ !! l) as [[]|].
Qed.

(** [getCombined(name)] on an ordinary type, with nothing cached. *)
Lemma getCombined_listing σ name info flag c ps :
  member (st_heap σ) (Self.typeInfo (self σ)) name = Some info →
  truthy info = true → valid (st_heap σ) info →
  member (st_heap σ) info "oneOff" = Some flag →
  truthy flag = false →
  member (st_heap σ) (Self.data (self σ)) name = Some (VRef c) →
  st_heap σ !! c = Some (Obj ps) →
  Forall (plain_item (st_heap σ)) (listed ps).*2 →
  Self.cachedData (self σ) !! name = None →
  ∃ a, returned (getCombined Date_parse now [name] σ) = Some (VRef a)
       ∧ st_heap (state_of (getCombined Date_parse now [name] σ)) !! a
         = Some (Arr (filter (fun v => hidden Date_parse now (st_heap σ) v = false)
                        (listed ps).*2) []).
Proof.
  intros Hinfo Hti Hvalid Hflag Htf Hd Hc Hitems Hmiss.
  set (h := st_heap σ) in *.
  set (σ1 := mkState (h ++ [Arr [] []])%list (self σ)).
  assert (Hitems1 : Forall (plain_item (st_heap σ1)) (listed ps).*2).
  { eapply Forall_impl; [exact Hitems|].
    intros v (l & pd & -> & Hl & Hpd & Hprim). exists l, pd.
    split; [done|]. split; [simpl; rewrite length_app; lia|].
    split; [|done]. simpl st_heap. by rewrite member_app. }
  destruct (combine_eval Date_parse now σ1 name info flag c ps (length h) [] [])
    as (σ2 & a & Hcomb & _ & Ha); try done.
  { by apply member_app_truthy. }
  { simpl st_heap. by rewrite member_app_valid. }
  { by apply member_app_truthy. }
  { by apply lookup_app_l_Some. }
  { simpl. by rewrite list_lookup_middle. }
  assert (Hfilt : filter (fun v => hidden Date_parse now (st_heap σ1) v = false)
                    (listed ps).*2
                  = filter (fun v => hidden Date_parse now h v = false) (listed ps).*2).
  { apply filter_ext_Forall. eapply Forall_impl; [exact Hitems|].
    intros v (l & pd & -> & Hl & Hpd & Hprim).
    rewrite (hidden_ext Date_parse now annotations h (st_heap σ1) l pd); try done.
    - apply heap_ext_alloc.
    - apply publish_date_not_annotation. }
  rewrite Hfilt in Ha. clear Hfilt.
  exists a. rewrite getCombined_miss by done. unfold getCombined_fresh.
  erewrite bind_eval; [|reflexivity].
  erewrite bind_eval;
    [|simpl combine_all; erewrite bind_eval; [|exact Hcomb]; reflexivity].
  erewrite bind_eval; [|reflexivity]. simpl. split; [done|]. exact Ha.
Qed.

End VisibilityRule.

(** C1, as amended: for a one-off type [getItem] returns the item and
    [getCombined] the type's store value, whatever [publish_date] is; for
    any other type the item is hidden ([getItem] returns a new empty object,
    the array of [getCombined] leaves it out) exactly when its
    [publish_date] is falsy (absent, or null, empty, zero, false) or parses
    to a time later than [now + 60000], and [getCombined] lists the items
    under the keys that do not start with an underscore; so a date of
    [now + 59999] is shown and one of [now + 60001] is hidden. *)
Theorem visibility_rule :
  ∀ (Date_parse : string → number) (now : Z) σ (name : string)
    (info flag coll : value),
    let h := st_heap σ in
    name ≠ "" →
    member h (Self.typeInfo (self σ)) name = Some info →
    truthy info = true → valid h info →
    member h info "oneOff" = Some flag →
    member h (Self.data (self σ)) name = Some coll →
    truthy coll = true →
    (∀ (key : string) l,
       key ≠ "" → member h coll key = Some (VRef l) →
       let r := getItem Date_parse now (VStr name) (VStr key) σ in
       (truthy flag = true → returned r = Some (VRef l))
       ∧ (truthy flag = false → hidden Date_parse now h (VRef l) = false →
          returned r = Some (VRef l))
       ∧ (truthy flag = false → hidden Date_parse now h (VRef l) = true →
          r = new_object σ))
    ∧ (Self.cachedData (self σ) !! name = None →
       let r := getCombined Date_parse now [name] σ in
       (truthy flag = true → returned r = Some coll)
       ∧ (truthy flag = false →
          ∀ c ps, coll = VRef c → h !! c = Some (Obj ps) →
                  Forall (plain_item h) (listed ps).*2 →
                  ∃ a es,
                    returned r = Some (VRef a)
                    ∧ st_heap (state_of r) !! a = Some (Arr es [])
                    ∧ es = filter (fun v => hidden Date_parse now h v = false)
                             (listed ps).*2
                    ∧ ∀ v, v ∈ es
                           ↔ hidden Date_parse now h v = false
                             ∧ ∃ key, (key, v) ∈ ps
                                      ∧ starts_with_underscore key = false))
    ∧ (∀ item pd,
         member h item "publish_date" = Some pd →
         let parsed := Date_parse (ToString (length h) h pd) in
         (hidden Date_parse now h item = true
          ↔ truthy pd = false ∨ num_gt parsed (Fin (now + 60000)) = true)
         ∧ (truthy pd = true → parsed = Fin (now + 59999) →
            hidden Date_parse now h item = false)
         ∧ (truthy pd = true → parsed = Fin (now + 60001) →
            hidden Date_parse now h item = true)).
Proof.
  intros Date_parse now σ name info flag coll h Hname Hinfo Hti Hvalid Hflag
    Hcoll Htc.
  subst h. split; [|split].
  - intros key l Hkey Hitem r. subst r.
    rewrite (getItem_eval Date_parse now σ name key info flag coll l) by done.
    split; [|split].
    + intros ->. simpl. apply tagged_returns.
    + intros -> ->. simpl. apply tagged_returns.
    + by intros -> ->.
  - intros Hmiss r. subst r. split.
    + intros Htf.
      by destruct (getCombined_oneOff Date_parse now σ name coll info flag Hinfo
                     Hti Hflag Htf Hcoll Htc Hmiss) as (s' & -> & _).
    + intros Htf c ps -> Hc Hitems.
      destruct (getCombined_listing Date_parse now σ name info flag c ps)
        as (a & Hret & Ha); try done.
      exists a, (filter (fun v => hidden Date_parse now (st_heap σ) v = false)
                   (listed ps).*2).
      split; [done|]. split; [done|]. split; [done|].
      intros v. rewrite list_elem_of_filter, list_elem_of_fmap.
      unfold listed. split.
      * intros [Hv ([key v'] & -> & Hin)]. apply list_elem_of_filter in Hin as [Hu Hin].
        split; [done|]. by exists key.
      * intros [Hv (key & Hin & Hu)]. split; [done|]. exists (key, v).
        split; [done|]. by apply list_elem_of_filter.
  - intros item pd Hpd parsed. unfold hidden. rewrite Hpd.
    unfold unpublished_date. fold parsed. split; [|split].
    + rewrite orb_true_iff, negb_true_iff. done.
    + intros -> ->. simpl. lia.
    + intros -> ->. simpl. lia.
Qed.

(** On [visibility_store]: the item dated 59999 is returned and listed, the
    one dated 60001 is not, and the one-off type is returned as it is. *)
Lemma visibility_rule_witness :
  returned (getItem sample_Date_parse 0 (VStr "companies") (VStr "a")
              visibility_store) = Some (VRef 10%nat)
  ∧ getItem sample_Date_parse 0 (VStr "companies") (VStr "b") visibility_store
    = new_object visibility_store
  ∧ (∃ a es,
       returned (getCombined sample_Date_parse 0 ["companies"] visibility_store)
       = Some (VRef a)
       ∧ st_heap (state_of (getCombined sample_Date_parse 0 ["companies"]
                              visibility_store)) !! a = Some (Arr es [])
       ∧ es = [VRef 10%nat])
  ∧ returned (getItem sample_Date_parse 0 (VStr "about") (VStr "hero")
                visibility_store) = Some (VRef 15%nat)
  ∧ returned (getCombined sample_Date_parse 0 ["about"] visibility_store)
    = Some (VRef 7%nat).
Proof.
  assert (Hvalid : ∀ n : nat, (n < 16)%nat → valid (st_heap visibility_store) (VRef n)).
  { intros n Hn l [= <-]. exact Hn. }
  destruct (visibility_rule sample_Date_parse 0 visibility_store "companies"
              (VRef 8%nat) (VBool false) (VRef 6%nat))
    as (Hitem & Hlist & _); try reflexivity; try discriminate.
  { apply Hvalid. lia. }
  destruct (visibility_rule sample_Date_parse 0 visibility_store "about"
              (VRef 9%nat) (VBool true) (VRef 7%nat))
    as (Hone & Hall & _); try reflexivity; try discriminate.
  { apply Hvalid. lia. }
  destruct (Hitem "a" 10%nat) as (_ & Ha & _); [discriminate|reflexivity|].
  destruct (Hitem "b" 11%nat) as (_ & _ & Hb); [discriminate|reflexivity|].
  destruct (Hone "hero" 15%nat) as (Hhero & _); [discriminate|reflexivity|].
  destruct (Hlist eq_refl) as [_ Hcomp].
  destruct (Hall eq_refl) as [Habout _].
  split; [by apply Ha|]. split; [by apply Hb|]. split; [|split; [by apply Hhero|by apply Habout]].
  destruct (Hcomp eq_refl 6%nat _ eq_refl eq_refl) as (a & es & Hret & Harr & Hes & _).
  - repeat constructor.
    + exists 10%nat, (VStr "1970-01-01T00:00:59.999Z"). repeat split. vm_compute. lia.
    + exists 11%nat, (VStr "1970-01-01T00:01:00.001Z"). repeat split. vm_compute. lia.
    + exists 12%nat, VUndef. repeat split. vm_compute. lia.
    + exists 13%nat, (VStr ""). repeat split. vm_compute. lia.
  - exists a, es. split; [exact Hret|]. split; [exact Harr|]. rewrite Hes. reflexivity.
Defined.

(** C1 as stated fails in two places.  The item [d] has a [publish_date],
    the empty string, which parses to [NaN], a time that exceeds nothing;
    it is not of a one-off type, and yet [getItem] returns a new empty
    object for it and [getCombined] leaves it out.  The item [_e] was
    published at time 0, [getItem] returns it, and [getCombined] leaves it
    out for the underscore in its key. *)
Lemma visibility_hides_more_than_absent_or_future :
  let h := st_heap visibility_store in
  let listing := getCombined sample_Date_parse 0 ["companies"] visibility_store in
  own_prop h 13 "publish_date" = Some (VStr "")
  ∧ num_gt (sample_Date_parse "") (Fin (0 + 60000)) = false
  ∧ getItem sample_Date_parse 0 (VStr "companies") (VStr "d") visibility_store
    = new_object visibility_store
  ∧ own_prop h 14 "publish_date" = Some (VStr "1970-01-01T00:00:00.000Z")
  ∧ num_gt (sample_Date_parse "1970-01-01T00:00:00.000Z") (Fin (0 + 60000)) = false
  ∧ returned (getItem sample_Date_parse 0 (VStr "companies") (VStr "_e")
                visibility_store) = Some (VRef 14%nat)
  ∧ returned_elems listing = Some [VRef 10%nat].
Proof. repeat split; vm_compute; reflexivity. Qed.

(** * Further properties *)

(** ** The pages of a render *)

(** The state on the page [k + 1] of a render. *)
Lemma nth_page_state {T} (data : list T) perPage pageName k σ0 :
  nth_page data perPage pageName k σ0
  = mkState (st_heap σ0)
      (Self.mk (Self.context (self σ0)) (Self.data (self σ0))
         (Self.settings (self σ0)) (Self.typeInfo (self σ0)) true
         (1 + Z.of_nat k) (ceil_div (Z.of_nat (length data)) perPage)
         (segment pageName) (Some (Self.CURRENT_URL (self σ0)))
         (Self.cachedData (self σ0)) (Self.CURRENT_URL (self σ0))).
Proof.
  induction k as [|k IH].
  - unfold nth_page, first_page, paginate, init, set_pagination, set_self,
      get_self, bind, ret. simpl. unfold segment.
    by destruct pageName as [name|].
  - unfold nth_page in *. rewrite Nat.iter_succ, IH. clear IH.
    unfold next_page, paginate, increasePage, set_pagination, set_self,
      get_self, bind, ret. simpl.
    destruct (Z.eqb_spec (1 + Z.of_nat k + 1) 1) as [Hk|Hk]; [lia|]. simpl.
    replace (1 + Z.of_nat k + 1) with (1 + Z.of_nat (S k)) by lia.
    do 3 f_equal. unfold segment.
    destruct pageName as [name|]; [|done]. by destruct (String.eqb name "").
Qed.

Lemma ceil_div_le n p k :
  0 < p → (k ≤ - (- n / p) ↔ (k - 1) * p < n).
Proof.
  intros Hp. pose proof (Z.div_mod (- n) p ltac:(lia)) as Hdm.
  pose proof (Z.mod_pos_bound (- n) p Hp) as Hb. split; intros H; nia.
Qed.

(** X1: in a render with a positive page size no [paginate] call after the
    first page throws, the page [k + 1] has [curPage = k + 1], and
    [shouldPaginate] offers it exactly when its offset [k * perPage] lies
    inside the data; so a render of [n] elements has [ceil(n / perPage)]
    pages, and none at all when the data are empty. *)
Theorem render_pages :
  ∀ (T : Type) (data : list T) (perPage : Z) (pageName : option string)
    (k : nat) σ0,
    0 < perPage →
    let σ := nth_page data perPage pageName k σ0 in
    returned (getCurPage σ) = Some (1 + Z.of_nat k)
    ∧ returned (getMaxPage σ) = Some (Fin (- (- Z.of_nat (length data) / perPage)))
    ∧ returned (shouldPaginate σ)
      = Some (bool_decide (Z.of_nat k * perPage < Z.of_nat (length data)))
    ∧ thrown (paginate data perPage pageName (state_of (increasePage σ))) = None.
Proof.
  intros T data perPage pageName k σ0 Hp σ. subst σ.
  rewrite nth_page_state.
  unfold getCurPage, getMaxPage, shouldPaginate, get_self, bind, ret. simpl.
  unfold ceil_div. destruct (Z.eqb_spec perPage 0) as [|_]; [lia|].
  split; [done|]. split; [done|]. split.
  - simpl. f_equal. symmetry.
    pose proof (ceil_div_le (Z.of_nat (length data)) perPage (1 + Z.of_nat k) Hp)
      as Hc.
    replace (1 + Z.of_nat k - 1) with (Z.of_nat k) in Hc by lia.
    destruct (Z.leb_spec (1 + Z.of_nat k) (- (- Z.of_nat (length data) / perPage))).
    + apply bool_decide_eq_true. by apply Hc.
    + apply bool_decide_eq_false. intros H'. apply Hc in H'. lia.
  - unfold paginate, increasePage, set_self, get_self, bind. simpl.
    destruct (Z.eqb_spec (1 + Z.of_nat k + 1) 1) as [Hk|Hk]; [lia|]. done.
Qed.

Lemma render_pages_witness :
  returned (shouldPaginate (nth_page [1; 2; 3; 4; 5] 2 None 2 swigFunctions))
  = Some true
  ∧ returned (shouldPaginate (nth_page [1; 2; 3; 4; 5] 2 None 3 swigFunctions))
    = Some false.
Proof.
  split.
  - destruct (render_pages Z [1; 2; 3; 4; 5] 2 None 2 swigFunctions ltac:(lia))
      as (_ & _ & H & _). exact H.
  - destruct (render_pages Z [1; 2; 3; 4; 5] 2 None 3 swigFunctions ltac:(lia))
      as (_ & _ & H & _). exact H.
Defined.

(** X2: a page size of zero makes [shouldPaginate] hold on every page of a
    render of non-empty data, however often [increasePage] is called, and
    fail at once on empty data; a negative page size makes it fail on every
    page. *)
Theorem degenerate_page_sizes :
  ∀ (T : Type) (data : list T) (perPage : Z) (pageName : option string)
    (k : nat) σ0,
    perPage ≤ 0 →
    returned (shouldPaginate (nth_page data perPage pageName k σ0))
    = Some (bool_decide (perPage = 0 ∧ data ≠ [])).
Proof.
  intros T data perPage pageName k σ0 Hp. rewrite nth_page_state.
  unfold shouldPaginate, get_self, bind, ret. simpl. f_equal.
  unfold ceil_div. destruct (Z.eqb_spec perPage 0) as [->|Hne].
  - destruct data as [|x data].
    + rewrite bool_decide_eq_false_2; [done|]. by intros [_ ?].
    + rewrite bool_decide_eq_true_2; done.
  - rewrite bool_decide_eq_false_2 by (intros [? _]; done). simpl.
    apply Z.leb_gt.
    pose proof (Z.div_mod (- Z.of_nat (length data)) perPage ltac:(lia)).
    pose proof (Z.mod_neg_bound (- Z.of_nat (length data)) perPage ltac:(lia)).
    nia.
Qed.

Lemma degenerate_page_sizes_witness :
  returned (shouldPaginate (nth_page [1; 2; 3] 0 None 1000 swigFunctions))
  = Some true.
Proof.
  exact (degenerate_page_sizes Z [1; 2; 3] 0 None 1000 swigFunctions ltac:(lia)).
Defined.

(** ** Page URLs *)

Lemma string_of_Z_inj z1 z2 : string_of_Z z1 = string_of_Z z2 → z1 = z2.
Proof.
  unfold string_of_Z. intros H.
  assert (Hnn : ∀ z, Z.to_int z ≠ Decimal.Pos Decimal.Nil
                     ∧ Z.to_int z ≠ Decimal.Neg Decimal.Nil).
  { intros [|p|p]; simpl; split; try discriminate;
      intros [= Hp]; by apply DecimalPos.Unsigned.to_uint_nonnil in Hp. }
  apply DecimalZ.to_int_inj.
  assert (Some (Z.to_int z1) = Some (Z.to_int z2)) as [= ->]; [|done].
  rewrite <- (NilZero.isi (Z.to_int z1)), <- (NilZero.isi (Z.to_int z2));
    try apply Hnn. by rewrite H.
Qed.

Lemma length_append s t :
  String.length (s ++ t) = (String.length s + String.length t)%nat.
Proof. induction s as [|c s IH]; simpl; [done|]. by rewrite <- IH. Qed.

Lemma append_assoc s t u : (s ++ t) ++ u = s ++ t ++ u.
Proof.
  induction s as [|c s IH]; [done|].
  change (String c ((s ++ t) ++ u) = String c (s ++ t ++ u)). by rewrite IH.
Qed.

Lemma append_inj_l s t1 t2 : s ++ t1 = s ++ t2 → t1 = t2.
Proof. induction s as [|c s IH]; [done|]. intros [= H]. by apply IH. Qed.

Lemma append_inj_r s1 s2 t : s1 ++ t = s2 ++ t → s1 = s2.
Proof.
  revert s2. induction s1 as [|c s1 IH]; intros [|c2 s2] H.
  - done.
  - apply (f_equal String.length) in H. rewrite !length_append in H.
    simpl in H. lia.
  - apply (f_equal String.length) in H. rewrite !length_append in H.
    simpl in H. lia.
  - change (String c (s1 ++ t) = String c2 (s2 ++ t)) in H.
    injection H as -> H. f_equal. by apply IH.
Qed.

(** The pagination fields on every page of such a render. *)
Lemma pages_at_state {T} (data : list T) perPage pageName url urls : ∀ σ,
  Self.paginationBaseUrl (self σ) = Some url →
  Self.pageUrl (self σ) = segment pageName →
  1 ≤ Self.curPage (self σ) →
  let σ' := pages_at data perPage pageName urls σ in
  Self.paginationBaseUrl (self σ') = Some url
  ∧ Self.pageUrl (self σ') = segment pageName
  ∧ Self.CURRENT_URL (self σ')
    = default (Self.CURRENT_URL (self σ)) (last urls).
Proof.
  induction urls as [|u urls IH]; intros σ Hbase Hseg Hcur σ'; subst σ'.
  - done.
  - cbn [pages_at].
    set (σ1 := state_of (paginate data perPage pageName
                           (at_url u (state_of (increasePage σ))))).
    assert (H1 : Self.paginationBaseUrl (self σ1) = Some url
                 ∧ Self.pageUrl (self σ1) = segment pageName
                 ∧ Self.curPage (self σ1) = Self.curPage (self σ) + 1
                 ∧ Self.CURRENT_URL (self σ1) = u).
    { subst σ1.
      unfold paginate, increasePage, at_url, set_pagination, set_self, get_self,
        bind, ret, throw. simpl.
      destruct (Z.eqb_spec (Self.curPage (self σ) + 1) 1) as [Heq|_]; [lia|].
      simpl. rewrite Hbase, Hseg. split; [done|]. split; [|done].
      unfold segment. destruct pageName as [name|]; [|done].
      by destruct (String.eqb name ""). }
    destruct H1 as (Hb1 & Hs1 & Hc1 & Hu1).
    destruct (IH σ1 Hb1 Hs1) as (Hb & Hs & Hu); [lia|].
    split; [exact Hb|]. split; [exact Hs|]. rewrite Hu, Hu1.
    rewrite last_cons. by destruct (last urls).
Qed.

(** X3: in a render whose pages have URLs of their own, [getPageUrl(1)] is
    on every page the URL the template had when [paginate] was first
    called, not the URL of the page being rendered, and [getPageUrl(n)]
    for another page number (an integer below 2^53 in size, which prints
    digit by digit) is that first URL followed by the segment ([pageName],
    or [page-] without one), the number and a slash; before the first
    [paginate] of a pass the first is [null] and the second starts with the
    text [null]. *)
Theorem page_urls :
  ∀ (T : Type) (data : list T) (perPage : Z) (pageName : option string)
    (url : string) (urls : list string) σ0 (n : Z),
    let σ := pages_at data perPage pageName urls
               (first_page_at data perPage pageName url σ0) in
    getPageUrl 1 σ = Ok (VStr url) σ
    ∧ Self.CURRENT_URL (self σ) = default url (last urls)
    ∧ (n ≠ 1 → safe_integer n →
       getPageUrl n σ
       = Ok (VStr (url ++ segment pageName ++ string_of_Z n ++ "/")) σ)
    ∧ returned (getPageUrl 1 (state_of (init σ0))) = Some VNull
    ∧ (n ≠ 1 → safe_integer n →
       returned (getPageUrl n (state_of (init σ0)))
       = Some (VStr ("null" ++ "page-" ++ string_of_Z n ++ "/"))).
Proof.
  intros T data perPage pageName url urls σ0 n σ.
  set (σ1 := first_page_at data perPage pageName url σ0) in *.
  assert (H1 : Self.paginationBaseUrl (self σ1) = Some url
               ∧ Self.pageUrl (self σ1) = segment pageName
               ∧ Self.curPage (self σ1) = 1
               ∧ Self.CURRENT_URL (self σ1) = url).
  { subst σ1.
    unfold first_page_at, paginate, init, at_url, set_pagination, set_self,
      get_self, bind, ret, throw. simpl. split; [done|]. split; [|done].
    unfold segment. destruct pageName as [name|]; [|done].
    by destruct (String.eqb name ""). }
  destruct H1 as (Hb1 & Hs1 & Hc1 & Hu1).
  destruct (pages_at_state data perPage pageName url urls σ1 Hb1 Hs1)
    as (Hb & Hs & Hu); [lia|].
  fold σ in Hb, Hs, Hu. rewrite Hu1 in Hu.
  unfold getPageUrl, init, get_self, set_self, bind, ret. simpl.
  rewrite Hb, Hs. split; [done|]. split; [exact Hu|]. split; [|split; [done|]].
  - intros Hn _. destruct (Z.eqb_spec n 1); done.
  - intros Hn _. destruct (Z.eqb_spec n 1); done.
Qed.

(** A blog of three pages: on the third, at [/blog/page-3/], the first
    page is still [/blog/] and the second [/blog/page-2/]. *)
Lemma page_urls_witness :
  let σ := pages_at [1; 2; 3; 4; 5] 2 None ["/blog/page-2/"; "/blog/page-3/"]
             (first_page_at [1; 2; 3; 4; 5] 2 None "/blog/" swigFunctions) in
  getPageUrl 1 σ = Ok (VStr "/blog/") σ
  ∧ Self.CURRENT_URL (self σ) = "/blog/page-3/"
  ∧ getPageUrl 2 σ = Ok (VStr "/blog/page-2/") σ.
Proof.
  intros σ.
  destruct (page_urls Z [1; 2; 3; 4; 5] 2 None "/blog/"
              ["/blog/page-2/"; "/blog/page-3/"] swigFunctions 2)
    as (Hfirst & Hcur & Hnth & _).
  split; [exact Hfirst|]. split; [exact Hcur|].
  apply Hnth; [discriminate|]. split; reflexivity.
Defined.

Lemma getPageUrl_inj σ (n m : Z) :
  returned (getPageUrl n σ) = returned (getPageUrl m σ) → n = m.
Proof.
  unfold getPageUrl, get_self, bind, ret. simpl.
  set (b := match Self.paginationBaseUrl (self σ) with
            | Some base => base
            | None => "null"
            end).
  assert (Hpre : ∀ (z : Z) (v : value),
            v = VNull ∨ v = VStr b →
            v ≠ VStr (b ++ Self.pageUrl (self σ) ++ string_of_Z z ++ "/")).
  { intros z v [->| ->]; [done|]. intros [= H].
    apply (f_equal String.length) in H. rewrite !length_append in H.
    simpl in H. lia. }
  assert (Hone : (match Self.paginationBaseUrl (self σ) with
                  | Some base => VStr base
                  | None => VNull
                  end) = VNull
                 ∨ (match Self.paginationBaseUrl (self σ) with
                    | Some base => VStr base
                    | None => VNull
                    end) = VStr b).
  { subst b. destruct (Self.paginationBaseUrl (self σ)); auto. }
  destruct (Z.eqb_spec n 1) as [->|Hn], (Z.eqb_spec m 1) as [->|Hm]; simpl.
  - done.
  - intros [= H]. by apply (Hpre m _ Hone) in H.
  - intros [= H]. symmetry in H. by apply (Hpre n _ Hone) in H.
  - intros [= H]. apply append_inj_l, append_inj_l, append_inj_r in H.
    by apply string_of_Z_inj.
Qed.

(** X4: in any state, before or after [paginate], two different page
    numbers, integers below 2^53 in size, have different page URLs. *)
Theorem page_urls_differ :
  ∀ σ (n m : Z),
    safe_integer n → safe_integer m →
    n ≠ m → returned (getPageUrl n σ) ≠ returned (getPageUrl m σ).
Proof.
  intros σ n m _ _ Hne H. apply Hne. revert H. apply getPageUrl_inj.
Qed.

Lemma page_urls_differ_witness :
  returned (getPageUrl 2 swigFunctions) ≠ returned (getPageUrl 3 swigFunctions).
Proof.
  apply page_urls_differ; [split; reflexivity|split; reflexivity|discriminate].
Defined.

(** ** What the functions leave alone *)

Lemma frame_below_refl n K σ : frame_below n K σ σ.
Proof. split; [done|]. intros l o _ Hl. eauto using same_but_refl. Qed.

Lemma frame_below_trans n K σ1 σ2 σ3 :
  frame_below n K σ1 σ2 → frame_below n K σ2 σ3 → frame_below n K σ1 σ3.
Proof.
  intros [Hs1 Hh1] [Hs2 Hh2]. split; [congruence|]. intros l o Hl Ho.
  destruct (Hh1 l o Hl Ho) as (o2 & Ho2 & Hsame2).
  destruct (Hh2 l o2 Hl Ho2) as (o3 & Ho3 & Hsame3).
  eauto using same_but_trans.
Qed.

Lemma frame_frame_below n K σ σ' : frame K σ σ' → frame_below n K σ σ'.
Proof. intros [Hs Hh]. split; [done|]. intros l o _ Hl. by apply Hh. Qed.

Lemma respects_keeps n K {A} (m : M A) : respects K m → keeps n K m.
Proof. intros Hm σ. apply frame_frame_below, Hm. Qed.

Lemma keeps_bind n K {A B} (m : M A) (f : A → M B) :
  keeps n K m → (∀ a, keeps n K (f a)) → keeps n K (bind m f).
Proof.
  intros Hm Hf σ. rewrite state_of_bind. specialize (Hm σ).
  destruct (m σ) as [a σ1|e σ1]; simpl in *; [|done].
  eapply frame_below_trans; [done|apply Hf].
Qed.

Lemma keeps_forEach n K {A} (es : list A) (f : A → M unit) :
  (∀ a, keeps n K (f a)) → keeps n K (forEach es f).
Proof.
  intros Hf. induction es as [|e es IH]; simpl.
  - intros σ. apply frame_below_refl.
  - apply keeps_bind; [apply Hf|]. intros _. apply IH.
Qed.

(** [push] changes the array it pushes on and nothing else. *)
Lemma keeps_push n K l x : (n ≤ l)%nat → keeps n K (push (VRef l) x).
Proof.
  intros Hl σ. unfold push, bind, get_heap, put_heap, throw. simpl.
  destruct (st_heap σ !! l) as [[ps|es ps]|] eqn:Ho; simpl;
    try apply frame_below_refl.
  split; [done|]. intros l' o Hl' Ho'. simpl. exists o.
  split; [|apply same_but_refl]. rewrite list_lookup_insert_ne; [done|lia].
Qed.

Lemma respects_isEmpty K v : respects K (isEmpty v).
Proof. unfold isEmpty. respects_tac. Qed.

Lemma getItems_keeps Date_parse now arr σ :
  frame_below (length (st_heap σ)) ["_type"] σ
    (state_of (getItems Date_parse now arr σ)).
Proof.
  assert (Hin : "_type" ∈ ["_type"]) by apply list_elem_of_here.
  unfold getItems. destruct (negb (truthy arr)).
  { apply frame_frame_below, respects_new_array. }
  rewrite state_of_bind. simpl.
  set (n := length (st_heap σ)).
  eapply frame_below_trans.
  { apply frame_frame_below. apply (respects_new_array ["_type"] [] σ). }
  apply keeps_bind; [apply respects_keeps, respects_array_elems|].
  intros [es|]; [|intros σ'; apply frame_below_refl].
  apply keeps_bind; [|intros _ σ'; apply frame_below_refl].
  apply keeps_forEach. intros itm.
  apply keeps_bind; [by apply respects_keeps, respects_getItem|]. intros obj.
  apply keeps_bind; [apply respects_keeps, respects_isEmpty|]. intros [|].
  { intros σ'. apply frame_below_refl. }
  apply keeps_bind; [by apply respects_keeps, respects_getItem|]. intros x.
  by apply keeps_push.
Qed.

(** What [getCombined] does to the instance: at most one new cache entry,
    under its own key, and only when there was none. *)
Lemma getCombined_self Date_parse now names σ :
  let s := self σ in
  let s' := self (state_of (getCombined Date_parse now names σ)) in
  s' = s
  ∨ (truthy (default VUndef (Self.cachedData s !! join "," names)) = false
     ∧ ∃ d, s' = Self.mk (Self.context s) (Self.data s) (Self.settings s)
                   (Self.typeInfo s) (Self.paginate s) (Self.curPage s)
                   (Self.maxPage s) (Self.pageUrl s) (Self.paginationBaseUrl s)
                   (<[join "," names := d]> (Self.cachedData s))
                   (Self.CURRENT_URL s)).
Proof.
  intros s s'. subst s s'. unfold getCombined.
  erewrite bind_eval; [|reflexivity].
  destruct (truthy _) eqn:Hhit; [by left|].
  unfold getCombined_fresh. erewrite bind_eval; [|reflexivity].
  set (σ1 := mkState (st_heap σ ++ [Arr [] []])%list (self σ)).
  pose proof (respects_combine_all Date_parse now annotations id_annotation
                type_annotation names (VRef (length (st_heap σ))) σ1) as [Hs1 _].
  rewrite state_of_bind.
  destruct (combine_all Date_parse now names _ σ1) as [d σ2|e σ2]; simpl in *.
  - right. split; [done|]. exists d. by rewrite Hs1.
  - by left.
Qed.

Section Independence.

Variable Date_parse : string → number.
Variable now : Z.

(** X5: the query functions never touch the pagination state, the tables or
    the current URL: [getItem] and [getItems] leave every field of the
    instance as it was, and [getCombined] changes nothing but the cache. *)
Theorem queries_keep_pagination :
  ∀ σ,
    (∀ type key, self (state_of (getItem Date_parse now type key σ)) = self σ)
    ∧ (∀ arr, self (state_of (getItems Date_parse now arr σ)) = self σ)
    ∧ (∀ names,
         let s' := self (state_of (getCombined Date_parse now names σ)) in
         pagination_of s' = pagination_of (self σ)
         ∧ Self.data s' = Self.data (self σ)
         ∧ Self.typeInfo s' = Self.typeInfo (self σ)
         ∧ Self.settings s' = Self.settings (self σ)).
Proof.
  intros σ. split; [|split].
  - intros type key.
    assert (Hin : "_type" ∈ ["_type"]) by apply list_elem_of_here.
    by destruct (respects_getItem Date_parse now ["_type"] Hin type key σ).
  - intros arr. by destruct (getItems_keeps Date_parse now arr σ).
  - intros names s'. subst s'.
    destruct (getCombined_self Date_parse now names σ) as [->|(_ & d & ->)];
      done.
Qed.

(** X6: [getItems] changes the store the way [getItem] does: every object
    that was there before the call is still in its place, with its array
    elements and all its properties other than [_type]. *)
Theorem getItems_store_frame :
  ∀ arr σ l o,
    st_heap σ !! l = Some o →
    ∃ o', st_heap (state_of (getItems Date_parse now arr σ)) !! l = Some o'
          ∧ same_but ["_type"] o o'.
Proof.
  intros arr σ l o Hl.
  destruct (getItems_keeps Date_parse now arr σ) as [_ Hkeep].
  apply Hkeep; [|done]. by eapply lookup_lt_Some.
Qed.

End Independence.

Lemma getItems_store_frame_witness :
  returned_elems (getItems sample_Date_parse 0 (VRef 11%nat) related_store)
  = Some [VRef 8%nat; VRef 9%nat]
  ∧ ∃ o', st_heap (state_of (getItems sample_Date_parse 0 (VRef 11%nat)
                               related_store)) !! 8%nat = Some o'
          ∧ same_but ["_type"]
              (Obj [("name", VStr "Acme");
                    ("publish_date", VStr "1970-01-01T00:00:00.000Z")]) o'.
Proof.
  split; [vm_compute; reflexivity|].
  apply (getItems_store_frame sample_Date_parse 0 (VRef 11%nat) related_store
           8%nat).
  reflexivity.
Defined.

(** ** The cache between two [setData] *)

Lemma getTypes_step_self types key σ :
  self (state_of (getTypes_step types key σ)) = self σ.
Proof.
  unfold getTypes_step. rewrite state_of_bind. simpl.
  rewrite state_of_bind.
  destruct (get_member _ key σ) as [info σ1|e σ1] eqn:H1;
    [apply reads_get_member in H1 as ->|
     by destruct (respects_get_member [] (Self.typeInfo (self σ)) key σ) as [Hs _];
        rewrite H1 in Hs].
  rewrite state_of_bind.
  destruct (get_member info "oneOff" σ) as [oneOff σ1|e σ1] eqn:H2;
    [apply reads_get_member in H2 as ->|
     by destruct (respects_get_member [] info "oneOff" σ) as [Hs _];
        rewrite H2 in Hs].
  destruct (negb (truthy oneOff)); [|done].
  rewrite state_of_bind.
  destruct (get_member info "name" σ) as [name σ1|e σ1] eqn:H3;
    [apply reads_get_member in H3 as ->|
     by destruct (respects_get_member [] info "name" σ) as [Hs _];
        rewrite H3 in Hs].
  rewrite state_of_bind. simpl.
  unfold push, bind, get_heap, put_heap, throw. simpl.
  destruct types as [| | | | |l]; try done.
  by destruct ((st_heap σ ++ _)%list !! l) as [[]|].
Qed.

Lemma forEach_self {A} (es : list A) (f : A → M unit) σ :
  (∀ a σ, self (state_of (f a σ)) = self σ) →
  self (state_of (forEach es f σ)) = self σ.
Proof.
  intros Hf. revert σ. induction es as [|e es IH]; intros σ; simpl; [done|].
  rewrite state_of_bind. specialize (Hf e σ).
  destruct (f e σ) as [[] σ1|err σ1]; simpl in *; [|done].
  by rewrite IH.
Qed.

Lemma getTypes_self σ : self (state_of (getTypes σ)) = self σ.
Proof.
  unfold getTypes. rewrite state_of_bind. simpl.
  rewrite state_of_bind. simpl. rewrite state_of_bind. simpl.
  rewrite state_of_bind.
  pose proof (forEach_self
                (for_in_keys (st_heap σ ++ [Arr [] []]) (Self.typeInfo (self σ)))
                (getTypes_step (VRef (length (st_heap σ))))
                (mkState (st_heap σ ++ [Arr [] []])%list (self σ))
                (getTypes_step_self _)) as Hs.
  destruct (forEach _ _ _) as [[] σ1|e σ1]; simpl in *; done.
Qed.

Lemma getSetting_self key σ : self (state_of (getSetting key σ)) = self σ.
Proof.
  unfold getSetting. rewrite state_of_bind. simpl. rewrite state_of_bind.
  destruct (get_member _ "general" σ) as [g σ1|e σ1] eqn:H1.
  - apply reads_get_member in H1 as ->. destruct (negb (truthy g)); [done|].
    by destruct (respects_get_member [] g key σ).
  - destruct (respects_get_member [] (Self.settings (self σ)) "general" σ)
      as [Hs _]. by rewrite H1 in Hs.
Qed.

Section CacheLife.

Variable Date_parse : string → number.
Variable now : Z.

Lemma run_op_cache o σ key v :
  truthy v = true →
  Self.cachedData (self σ) !! key = Some v →
  Self.cachedData (self (run_op Date_parse now o σ)) !! key = Some v.
Proof.
  intros Hv Hc. destruct o; simpl; try done.
  - unfold paginate, bind, get_self, throw, set_pagination, set_self, ret. simpl.
    by destruct (_ && _).
  - assert (Hin : "_type" ∈ ["_type"]) by apply list_elem_of_here.
    destruct (respects_getItem Date_parse now ["_type"] Hin type key0 σ)
      as [-> _]. done.
  - destruct (getItems_keeps Date_parse now arr σ) as [-> _]. done.
  - destruct (getCombined_self Date_parse now names σ) as [->|(Hmiss & d & ->)];
      [done|]. simpl.
    rewrite lookup_insert_ne; [done|]. intros <-. rewrite Hc in Hmiss.
    simpl in Hmiss. congruence.
  - by rewrite getTypes_self.
  - by rewrite getSetting_self.
Qed.

(** X7: nothing but [setData] invalidates the cache.  Once a [getCombined]
    call has returned, the same call returns the same reference again, and
    changes nothing, after any sequence of [init], [increasePage],
    [paginate], [setTypeInfo], [setSettings], [getItem], [getItems],
    [getTypes], [getSetting] and other [getCombined] calls; so the result
    is stale after a [setTypeInfo] that changes a type. *)
Theorem cache_outlives_calls :
  ∀ names σ v σ1 (ops : list op),
    getCombined Date_parse now names σ = Ok v σ1 →
    getCombined Date_parse now names (run_ops Date_parse now ops σ1)
    = Ok v (run_ops Date_parse now ops σ1).
Proof.
  intros names σ v σ1 ops H.
  destruct (getCombined_cached _ _ _ _ _ _ H) as (Hv & Hin & _).
  apply getCombined_hit; [|done]. clear H. revert σ1 Hin.
  unfold run_ops. induction ops as [|o ops IH]; intros σ1 Hin; simpl; [done|].
  apply IH. by apply run_op_cache.
Qed.

End CacheLife.

Lemma cache_outlives_calls_witness :
  let r := getCombined sample_Date_parse 0 ["companies"] oneOff_store in
  let σ2 := run_ops sample_Date_parse 0
              [OpPaginate 3 2 None; OpSetTypeInfo VNull; OpInit] (state_of r) in
  getCombined sample_Date_parse 0 ["companies"] σ2 = Ok (VRef 15%nat) σ2
  ∧ thrown (getCombined_fresh sample_Date_parse 0 ["companies"] σ2)
    = Some TypeError.
Proof.
  intros r σ2. split; [|vm_compute; reflexivity].
  apply (cache_outlives_calls sample_Date_parse 0 ["companies"] oneOff_store).
  vm_compute. reflexivity.
Defined.

(** ** URLs of items *)

Section UrlProperties.

Variable slugger : string → string.
Variable toLowerCase : string → string.

(** [url] on anything but [null] and [undefined], by the three properties
    it reads. *)
Lemma url_eval σ (object s nm t : value) :
  member (st_heap σ) object "slug" = Some s →
  member (st_heap σ) object "name" = Some nm →
  member (st_heap σ) object "_type" = Some t →
  let str := ToString (length (st_heap σ)) (st_heap σ) in
  url slugger toLowerCase object σ
  = Ok (VStr ((if truthy t then "/" ++ str t ++ "/" else "/")
              ++ (if truthy s then str s
                  else if truthy nm then toLowerCase (slugger (str nm))
                       else "null")
              ++ "/")) σ.
Proof.
  intros Hs Hn Ht str. subst str. unfold url.
  erewrite bind_eval; [|by apply get_member_eval].
  set (slug := if truthy s then s
               else if truthy nm
                    then VStr (toLowerCase (slugger
                                 (ToString (length (st_heap σ)) (st_heap σ) nm)))
                    else VNull).
  erewrite (bind_eval _ _ σ slug σ).
  2:{ subst slug. destruct (truthy s); [done|].
      erewrite bind_eval; [|by apply get_member_eval].
      destruct (truthy nm); [|done].
      unfold to_string. erewrite bind_eval; [|by erewrite bind_eval]. done. }
  erewrite bind_eval; [|by apply get_member_eval].
  unfold to_string.
  erewrite bind_eval; [|by erewrite bind_eval].
  erewrite bind_eval; [|by erewrite bind_eval].
  assert (Hslug : ToString (length (st_heap σ)) (st_heap σ) slug
                  = if truthy s then ToString (length (st_heap σ)) (st_heap σ) s
                    else if truthy nm
                         then toLowerCase (slugger
                                (ToString (length (st_heap σ)) (st_heap σ) nm))
                         else "null").
  { subst slug. destruct (truthy s); [done|]. destruct (truthy nm).
    - by destruct (length (st_heap σ)).
    - by destruct (length (st_heap σ)). }
  rewrite Hslug. destruct (truthy t) eqn:Htt.
  - rewrite Htt. unfold ret. do 2 f_equal.
    by rewrite !append_assoc.
  - assert (truthy (VStr "") = false) as -> by done. done.
Qed.

(** X9: an item with a non-empty string [slug] and a non-empty string
    [_type] has the URL [/type/slug/], and [/slug/] without a [_type],
    whatever its [name] and whatever the slugger would make of it; with a
    falsy [slug] and a non-empty string [name] the lower-cased slug of the
    name takes the place of [slug]; and the call changes nothing. *)
Theorem url_of_slug :
  ∀ σ (object s nm t : value),
    member (st_heap σ) object "slug" = Some s →
    member (st_heap σ) object "name" = Some nm →
    member (st_heap σ) object "_type" = Some t →
    let prefix :=
      match t with
      | VStr type => if String.eqb type "" then "/" else "/" ++ type ++ "/"
      | _ => "/"
      end in
    (truthy t = true → ∃ type, t = VStr type) →
    (∀ slug, s = VStr slug → slug ≠ "" →
       url slugger toLowerCase object σ = Ok (VStr (prefix ++ slug ++ "/")) σ)
    ∧ (∀ name, truthy s = false → nm = VStr name → name ≠ "" →
         url slugger toLowerCase object σ
         = Ok (VStr (prefix ++ toLowerCase (slugger name) ++ "/")) σ).
Proof.
  intros σ object s nm t Hs Hn Ht prefix Htype.
  pose proof (url_eval σ object s nm t Hs Hn Ht) as Hu. cbv zeta in Hu.
  assert (Hstr : ∀ x, ToString (length (st_heap σ)) (st_heap σ) (VStr x) = x)
    by (intros x; by destruct (length (st_heap σ))).
  assert (Hpre : (if truthy t
                  then "/" ++ ToString (length (st_heap σ)) (st_heap σ) t ++ "/"
                  else "/") = prefix).
  { subst prefix. destruct (truthy t) eqn:Htt.
    - destruct (Htype eq_refl) as [type ->]. rewrite Hstr.
      simpl in Htt. by destruct (String.eqb type "").
    - destruct t as [| | | | type|]; try done.
      simpl in Htt. by destruct (String.eqb type ""). }
  rewrite Hpre in Hu. split.
  - intros slug -> Hne. by rewrite Hu, (truthy_VStr slug Hne), Hstr.
  - intros name Hsf -> Hne. by rewrite Hu, Hsf, (truthy_VStr name Hne), Hstr.
Qed.

(** X10: [url] throws, a TypeError, on [null] and [undefined]; on anything
    else whose [slug], [name] and [_type] are each a string or not there,
    it returns a string and changes nothing; and on an object with neither
    [slug] nor [name], such as the empty item [getItem] returns for what it
    does not find, that string is [/null/]. *)
Theorem url_total :
  ∀ σ (object : value),
    (object = VUndef ∨ object = VNull →
     url slugger toLowerCase object σ = Throw TypeError σ)
    ∧ (∀ s nm t,
         member (st_heap σ) object "slug" = Some s → textual s = true →
         member (st_heap σ) object "name" = Some nm → textual nm = true →
         member (st_heap σ) object "_type" = Some t → textual t = true →
         ∃ u, url slugger toLowerCase object σ = Ok (VStr u) σ)
    ∧ (∀ Date_parse now type key,
         getItem Date_parse now type key σ = new_object σ →
         returned (bind (getItem Date_parse now type key)
                     (url slugger toLowerCase) σ)
         = Some (VStr "/null/")).
Proof.
  intros σ object. split; [|split].
  - by intros [-> | ->].
  - intros s nm t Hs _ Hnm _ Ht _. eexists. by apply url_eval.
  - intros Date_parse now type key Hitem.
    erewrite bind_eval; [|exact Hitem].
    set (σ1 := mkState (st_heap σ ++ [Obj []])%list (self σ)).
    assert (Hm : ∀ k, member (st_heap σ1) (VRef (length (st_heap σ))) k
                      = Some VUndef).
    { intros k. simpl. by rewrite list_lookup_middle. }
    by rewrite (url_eval σ1 _ VUndef VUndef VUndef (Hm _) (Hm _) (Hm _)).
Qed.

End UrlProperties.

(** The item [42] of [relation_store], once [getItem] has written its type
    on it, and an object with a name and no slug. *)
Lemma url_of_slug_witness :
  let σ := state_of (getItem sample_Date_parse 0 (VStr "companies 42") VUndef
                       relation_store) in
  url id id (VRef 8%nat) σ = Ok (VStr "/companies/Acme/") σ
  ∧ url id id (VRef 7%nat) σ = Ok (VStr "/Companies/") σ.
Proof.
  intros σ. split.
  - destruct (url_of_slug id id σ (VRef 8%nat) VUndef (VStr "Acme")
                (VStr "companies") eq_refl eq_refl eq_refl) as [_ Hname].
    { intros _. by exists "companies". }
    apply (Hname "Acme"); [reflexivity|reflexivity|discriminate].
  - destruct (url_of_slug id id σ (VRef 7%nat) VUndef (VStr "Companies")
                VUndef eq_refl eq_refl eq_refl) as [_ Hname].
    { discriminate. }
    apply (Hname "Companies"); [reflexivity|reflexivity|discriminate].
Defined.

Lemma url_total_witness :
  url id id VUndef relation_store = Throw TypeError relation_store
  ∧ (∃ u, url id id (VRef 7%nat) relation_store = Ok (VStr u) relation_store)
  ∧ returned (bind (getItem sample_Date_parse 0 (VStr "nothing") VUndef)
                (url id id) relation_store) = Some (VStr "/null/").
Proof.
  destruct (url_total id id relation_store VUndef) as (Hthrow & _ & Hnull).
  destruct (url_total id id relation_store (VRef 7%nat)) as (_ & Hstr & _).
  split; [apply Hthrow; by left|]. split.
  - apply (Hstr VUndef (VStr "Companies") VUndef); reflexivity.
  - apply Hnull. vm_compute. reflexivity.
Defined.

Lemma member_own_prop h l k x :
  own_prop h l k = Some x → k ≠ "length" → index_of_key k = None →
  member h (VRef l) k = Some x.
Proof.
  unfold own_prop. simpl. intros Ho Hlen Hidx.
  destruct (h !! l) as [[ps|es ps]|]; [by rewrite Ho| |done].
  unfold arr_member. destruct (String.eqb_spec k "length"); [done|].
  by rewrite Hidx, Ho.
Qed.

Section UrlOfItem.

Variable Date_parse : string → number.
Variable now : Z.
Variable slugger : string → string.
Variable toLowerCase : string → string.

(** X11: the URL of an item [getItem(type, key)] returns from the store
    starts with [/type/], because [getItem] has written [_type] on it; for
    an item whose [slug] and [name] are each a string or not there, it goes
    on with the item's [slug], or the lower-cased slug of its [name], or
    [null]. *)
Theorem url_of_getItem :
  ∀ σ (name key : string) (info flag coll s nm : value) (l : loc),
    let h := st_heap σ in
    name ≠ "" → key ≠ "" →
    member h (Self.typeInfo (self σ)) name = Some info →
    truthy info = true →
    member h info "oneOff" = Some flag →
    member h (Self.data (self σ)) name = Some coll →
    member h coll key = Some (VRef l) →
    (l < length h)%nat →
    truthy flag || negb (hidden Date_parse now h (VRef l)) = true →
    member h (VRef l) "slug" = Some s → textual s = true →
    member h (VRef l) "name" = Some nm → textual nm = true →
    returned (bind (getItem Date_parse now (VStr name) (VStr key))
                (url slugger toLowerCase) σ)
    = Some (VStr ("/" ++ name ++ "/"
                  ++ match s, nm with
                     | VStr (String c slug), _ => String c slug
                     | _, VStr (String c nm) =>
                         toLowerCase (slugger (String c nm))
                     | _, _ => "null"
                     end
                  ++ "/")).
Proof.
  intros σ name key info flag coll s nm l h Hname Hkey Hinfo Hti Hflag Hcoll
    Hitem Hl Hvis Hs Hts Hn Htn. subst h.
  assert (Hps : is_prim s = true) by (by destruct s).
  assert (Hpn : is_prim nm = true) by (by destruct nm).
  assert (Hget : getItem Date_parse now (VStr name) (VStr key) σ
                 = tagged (VRef l) (VStr name) σ).
  { rewrite (getItem_eval Date_parse now σ name key info flag coll l) by done.
    destruct (truthy flag); [done|]. simpl in Hvis.
    apply negb_true_iff in Hvis. by rewrite Hvis. }
  destruct (assign (st_heap σ) (VRef l) "_type" (VStr name)) as [h'|] eqn:Ha.
  2:{ simpl in Ha. by destruct (st_heap σ !! l) as [[]|]. }
  assert (Htag : tagged (VRef l) (VStr name) σ = Ok (VRef l) (mkState h' (self σ))).
  { unfold tagged, set_member, bind, get_heap, put_heap, ret. simpl in *.
    by rewrite Ha. }
  erewrite bind_eval; [|by rewrite Hget, Htag].
  assert (Hext : heap_ext ["_type"] (st_heap σ) h').
  { eapply heap_ext_assign; [apply list_elem_of_here|exact Ha]. }
  assert (Hnot : ∀ k, k ≠ "_type" → k ∉ ["_type"]).
  { intros k Hk Hin. apply elem_of_cons in Hin as [?|Hin]; [done|].
    by apply elem_of_nil in Hin. }
  rewrite (url_eval slugger toLowerCase (mkState h' (self σ)) (VRef l) s nm
             (VStr name)).
  - cbv zeta. simpl st_heap. rewrite (truthy_VStr name Hname).
    rewrite (ToString_prim _ h' (length (st_heap σ)) (st_heap σ) s Hps).
    rewrite (ToString_prim _ h' (length (st_heap σ)) (st_heap σ) nm Hpn).
    assert (ToString (length h') h' (VStr name) = name) as ->
      by (by destruct (length h')).
    assert (Hgo : (if truthy s
                   then ToString (length (st_heap σ)) (st_heap σ) s
                   else if truthy nm
                        then toLowerCase
                               (slugger (ToString (length (st_heap σ))
                                           (st_heap σ) nm))
                        else "null")
                  = match s, nm with
                    | VStr (String c slug), _ => String c slug
                    | _, VStr (String c nm) =>
                        toLowerCase (slugger (String c nm))
                    | _, _ => "null"
                    end).
    { destruct s as [| | | | [|c slug]|]; try done;
        destruct nm as [| | | | [|c' nm]|]; try done;
        by destruct (length (st_heap σ)). }
    rewrite Hgo. do 2 f_equal. by rewrite !append_assoc.
  - simpl st_heap. rewrite (member_ext ["_type"] (st_heap σ) h' l "slug"); try done.
    by apply Hnot.
  - simpl st_heap. rewrite (member_ext ["_type"] (st_heap σ) h' l "name"); try done.
    by apply Hnot.
  - simpl st_heap. apply member_own_prop; [|done|done].
    by apply (assign_own_prop (st_heap σ)).
Qed.

End UrlOfItem.

Lemma url_of_getItem_witness :
  returned (bind (getItem sample_Date_parse 0 (VStr "companies") (VStr "42"))
              (url id id) relation_store)
  = Some (VStr "/companies/Acme/").
Proof.
  apply (url_of_getItem sample_Date_parse 0 id id relation_store "companies" "42"
           (VRef 7%nat) (VBool false) (VRef 6%nat) VUndef (VStr "Acme") 8%nat);
    try reflexivity; try discriminate.
  vm_compute. lia.
Defined.

(** ** What is not found *)

Section NotFound.

Variable Date_parse : string → number.
Variable now : Z.

Lemma getItem_names_no_item e σ :
  names_no_item e = true →
  getItem Date_parse now e VUndef σ = new_object σ.
Proof.
  intros He. unfold getItem. destruct (truthy e) eqn:Ht; [|done].
  destruct e as [| | | | s|l];
    try (unfold names_no_item in He; by rewrite Ht in He).
  cbn [negb]. cbv iota.
  assert (Hrel : relation_of (VStr s) VUndef σ = Ok None σ).
  { unfold relation_of. cbn [truthy negb]. cbv iota.
    erewrite bind_eval; [|reflexivity]. simpl.
    rewrite String_split_single; [done|].
    simpl in He. by destruct (has_char " " s). }
  by erewrite bind_eval; [|exact Hrel].
Qed.

(** X12: with plain objects for the type table, the store and the
    collection, and a type and a key that are no names of
    [Object.prototype], [getItem(type, key)] returns a new empty object,
    and changes nothing else, when the type table has nothing truthy under
    [type], and when the collection of the type has nothing truthy under
    [key]. *)
Theorem getItem_not_found :
  ∀ σ (name key : string) (info : value),
    let h := st_heap σ in
    name ≠ "" → key ≠ "" →
    inherited name = false → inherited key = false →
    plain h (Self.typeInfo (self σ)) →
    member h (Self.typeInfo (self σ)) name = Some info →
    (truthy info = false
     ∨ ∃ coll item, plain h (Self.data (self σ)) ∧ plain h coll
                    ∧ member h (Self.data (self σ)) name = Some coll
                    ∧ member h coll key = Some item ∧ truthy item = false) →
    getItem Date_parse now (VStr name) (VStr key) σ = new_object σ.
Proof.
  intros σ name key info h Hname Hkey _ _ _ Hinfo Hcase. subst h.
  unfold getItem. rewrite (truthy_VStr name Hname). cbn [negb]. cbv iota.
  erewrite bind_eval;
    [|unfold relation_of; rewrite (truthy_VStr key Hkey); reflexivity].
  cbv beta iota. erewrite bind_eval; [|reflexivity].
  erewrite bind_eval; [|by apply get_index_eval].
  destruct Hcase as [Hf|(coll & item & _ & _ & Hcoll & Hitem & Hf)].
  - by rewrite Hf.
  - destruct (truthy info); [|done]. cbn [negb]. cbv iota.
    erewrite bind_eval; [|by apply get_index_eval].
    erewrite bind_eval; [|by apply get_index_eval]. by rewrite Hf.
Qed.

(** X13: [getItem] with one argument throws a TypeError, and changes
    nothing, when the argument is truthy and neither a string nor an array
    (a number, [true], a plain object), and when it is an array whose first
    element is not a string. *)
Theorem getItem_not_a_relation :
  ∀ σ (v : value),
    not_a_relation (st_heap σ) v = true →
    getItem Date_parse now v VUndef σ = Throw TypeError σ.
Proof.
  intros σ v Hv. unfold getItem.
  assert (Ht : truthy v = true).
  { destruct v as [| | | | s|l]; try done. }
  rewrite Ht. cbn [negb]. cbv iota.
  unfold relation_of. cbn [truthy negb]. cbv iota.
  unfold array_elems, relation_parts, get_heap, bind, ret, throw. simpl.
  destruct v as [| | | | s|l]; try done. simpl in Hv.
  destruct (st_heap σ !! l) as [[ps|[|first es] ps]|]; try done.
  destruct first; try done.
Qed.

Lemma forEach_names_no_item items es σ :
  forallb names_no_item es = true →
  ∃ j, forEach es (fun itm =>
         let! obj := getItem Date_parse now itm VUndef in
         let! e := isEmpty obj in
         if (e : bool) then ret tt
         else let! x := getItem Date_parse now itm VUndef in push items x) σ
       = Ok tt (mkState (st_heap σ ++ replicate j (Obj []))%list (self σ)).
Proof.
  revert σ. induction es as [|e es IH]; intros σ Hall.
  - exists 0%nat. simpl. unfold ret. destruct σ. simpl. by rewrite app_nil_r.
  - simpl in Hall. apply andb_true_iff in Hall as [He Hall].
    destruct (IH (mkState (st_heap σ ++ [Obj []])%list (self σ)) Hall) as [j Hj].
    exists (S j). simpl forEach.
    erewrite bind_eval.
    2:{ erewrite bind_eval; [|by apply getItem_names_no_item].
        erewrite bind_eval.
        2:{ unfold isEmpty. cbn [truthy negb]. cbv iota.
            erewrite bind_eval; [|reflexivity]. simpl.
            rewrite list_lookup_middle by done. reflexivity. }
        reflexivity. }
    rewrite Hj. simpl. by rewrite <- app_assoc.
Qed.

(** X14: [getItems] returns a new empty array for a falsy argument; it
    throws a TypeError for an argument that is truthy and not an array, a
    single relation string among them; and for an array whose entries are
    falsy values and strings without a space, it returns an empty array,
    every entry being left out. *)
Theorem getItems_edges :
  ∀ σ (arr : value),
    (truthy arr = false → getItems Date_parse now arr σ = new_array [] σ)
    ∧ (truthy arr = true → valid (st_heap σ) arr →
       (∀ l es ps, arr = VRef l → st_heap σ !! l ≠ Some (Arr es ps)) →
       thrown (getItems Date_parse now arr σ) = Some TypeError)
    ∧ (∀ l es ps,
         arr = VRef l → st_heap σ !! l = Some (Arr es ps) →
         forallb names_no_item es = true →
         returned_elems (getItems Date_parse now arr σ) = Some []).
Proof.
  intros σ arr. split; [|split].
  - intros Hf. unfold getItems. by rewrite Hf.
  - intros Ht Hvalid Hnarr. unfold getItems. rewrite Ht. cbn [negb]. cbv iota.
    erewrite bind_eval; [|reflexivity].
    unfold array_elems, get_heap, bind, ret, throw. simpl.
    destruct arr as [| | | | |l]; try done.
    rewrite lookup_app_l by (by apply Hvalid).
    destruct (st_heap σ !! l) as [[ps|es ps]|] eqn:Hl; try done.
    by destruct (Hnarr l es ps eq_refl).
  - intros l es ps -> Hl Hall. unfold getItems. cbn [truthy negb]. cbv iota.
    erewrite bind_eval; [|reflexivity].
    erewrite bind_eval;
      [|apply (array_elems_eval l es ps); simpl; by apply lookup_app_l_Some].
    destruct (forEach_names_no_item (VRef (length (st_heap σ))) es
                (mkState (st_heap σ ++ [Arr [] []])%list (self σ)) Hall)
      as [j Hj].
    erewrite bind_eval; [|exact Hj]. simpl.
    rewrite <- app_assoc. simpl. by rewrite list_lookup_middle.
Qed.

End NotFound.

Lemma getItem_not_found_witness :
  getItem sample_Date_parse 0 (VStr "companies") (VStr "43") relation_store
  = new_object relation_store.
Proof.
  apply (getItem_not_found sample_Date_parse 0 relation_store "companies" "43"
           (VRef 7%nat));
    [done|done|reflexivity|reflexivity| |reflexivity|].
  - by exists 5%nat, [("companies", VRef 7%nat)].
  - right. exists (VRef 6%nat), VUndef.
    split; [by exists 4%nat, [("companies", VRef 6%nat)]|].
    split; [by eexists 6%nat, _|].
    split; [reflexivity|]. split; reflexivity.
Defined.

Lemma getItem_not_a_relation_witness :
  getItem sample_Date_parse 0 (VRef 8%nat) VUndef relation_store
  = Throw TypeError relation_store.
Proof. apply getItem_not_a_relation. reflexivity. Defined.

Lemma getItems_edges_witness :
  thrown (getItems sample_Date_parse 0 (VStr "companies 42") loose_store)
  = Some TypeError
  ∧ returned_elems (getItems sample_Date_parse 0 (VRef 11%nat) loose_store)
    = Some [].
Proof.
  split.
  - destruct (getItems_edges sample_Date_parse 0 loose_store
                (VStr "companies 42")) as (_ & H & _).
    apply H; [reflexivity|intros l; discriminate|intros l es ps; discriminate].
  - destruct (getItems_edges sample_Date_parse 0 loose_store (VRef 11%nat))
      as (_ & _ & H).
    by apply (H 11%nat [VStr "nothing"; VStr ""; VNull] []).
Defined.

(** ** [getCombined] on what the store does not have *)

Lemma bind_throw {A B} (m : M A) (f : A → M B) σ e σ1 :
  m σ = Throw e σ1 → bind m f σ = Throw e σ1.
Proof. intros H. unfold bind. by rewrite H. Qed.

Lemma valid_app h ext v : valid h v → valid (h ++ ext)%list v.
Proof. intros Hv l Hl. rewrite length_app. specialize (Hv l Hl). lia. Qed.

Section Unknown.

Variable Date_parse : string → number.
Variable now : Z.

(** A name neither the store nor the type table knows adds nothing. *)
Lemma combine_unknown σ name d i a ps0 :
  valid (st_heap σ) (Self.typeInfo (self σ)) →
  member (st_heap σ) (Self.data (self σ)) name = Some d → truthy d = false →
  member (st_heap σ) (Self.typeInfo (self σ)) name = Some i → truthy i = false →
  st_heap σ !! a = Some (Arr [] ps0) →
  combine Date_parse now name (VRef a) σ
  = Ok (VRef (length (st_heap σ) + 4)%nat)
       (mkState (st_heap σ ++ [Obj []; Obj []; Arr [] []; Arr [] []; Arr [] []])%list
          (self σ)).
Proof.
  intros Hvt Hd Hdf Hi Hif Ha.
  set (h := st_heap σ) in *.
  unfold combine. erewrite bind_eval; [|reflexivity].
  erewrite bind_eval; [|by apply get_member_eval]. rewrite Hdf.
  erewrite bind_eval; [|reflexivity].
  erewrite bind_eval;
    [|apply get_member_eval; simpl st_heap; rewrite member_app_valid by done;
      exact Hi].
  rewrite Hif. erewrite bind_eval; [|reflexivity]. rewrite Hif.
  erewrite bind_eval.
  2:{ unfold omit_underscore. erewrite bind_eval; [|reflexivity].
      unfold enumerate. simpl st_heap. fold h.
      rewrite list_lookup_middle by done. reflexivity. }
  erewrite bind_eval.
  2:{ unfold map_annotate. erewrite bind_eval; [|reflexivity].
      unfold enumerate, alloc. simpl st_heap. fold h.
      rewrite list_lookup_middle by (rewrite length_app; simpl; lia).
      erewrite bind_eval; [|reflexivity]. reflexivity. }
  erewrite bind_eval.
  2:{ unfold filter_published.
      erewrite bind_eval.
      2:{ apply (array_elems_eval _ [] []). unfold alloc. simpl st_heap.
          fold h. rewrite list_lookup_middle; [done|].
          rewrite !length_app. simpl. lia. }
      simpl default. erewrite bind_eval; [|reflexivity]. reflexivity. }
  unfold concat.
  erewrite bind_eval.
  2:{ apply (array_elems_eval _ [] ps0). unfold alloc. simpl st_heap. fold h.
      rewrite <- !app_assoc. by apply lookup_app_l_Some. }
  erewrite bind_eval.
  2:{ apply (array_elems_eval _ [] []). unfold alloc. simpl st_heap. fold h.
      rewrite list_lookup_middle; [done|].
      rewrite !length_app. simpl. lia. }
  unfold new_array, alloc. simpl. fold h. rewrite <- !app_assoc. simpl.
  rewrite !length_app. simpl. do 2 f_equal; lia.
Qed.

Lemma combine_all_unknown names : ∀ σ a ps0,
  valid (st_heap σ) (Self.data (self σ)) →
  valid (st_heap σ) (Self.typeInfo (self σ)) →
  Forall (fun name => ∃ d i,
            member (st_heap σ) (Self.data (self σ)) name = Some d
            ∧ truthy d = false
            ∧ member (st_heap σ) (Self.typeInfo (self σ)) name = Some i
            ∧ truthy i = false) names →
  st_heap σ !! a = Some (Arr [] ps0) →
  ∃ ext a' ps1,
    combine_all Date_parse now names (VRef a) σ
    = Ok (VRef a') (mkState (st_heap σ ++ ext)%list (self σ))
    ∧ (st_heap σ ++ ext)%list !! a' = Some (Arr [] ps1).
Proof.
  induction names as [|name names IH]; intros σ a ps0 Hvd Hvt Hall Ha.
  - exists [], a, ps0. simpl. unfold ret. rewrite app_nil_r. by destruct σ.
  - apply Forall_cons in Hall as [(d & i & Hd & Hdf & Hi & Hif) Hall].
    set (ext := [Obj []; Obj []; Arr [] []; Arr [] []; Arr [] []]).
    destruct (IH (mkState (st_heap σ ++ ext)%list (self σ))
                (length (st_heap σ) + 4)%nat [])
      as (ext' & a' & ps1 & Hrest & Ha').
    + by apply valid_app.
    + by apply valid_app.
    + eapply Forall_impl; [exact Hall|].
      intros n (d' & i' & Hd' & Hdf' & Hi' & Hif'). exists d', i'. simpl.
      by rewrite !member_app_valid.
    + simpl. subst ext.
      change (st_heap σ ++ [Obj []; Obj []; Arr [] []; Arr [] []; Arr [] []])%list
        with (st_heap σ ++ [Obj []; Obj []; Arr [] []; Arr [] []] ++ [Arr [] []])%list.
      rewrite app_assoc. rewrite list_lookup_middle; [done|].
      rewrite length_app. simpl. lia.
    + exists (ext ++ ext')%list, a', ps1. simpl combine_all.
      erewrite bind_eval; [|by eapply combine_unknown].
      simpl in Hrest, Ha'. rewrite <- app_assoc in Hrest, Ha'. by split.
Qed.

(** X15: with plain objects for the store and the type table, and names
    that are none of those of [Object.prototype], as the key they make is
    none, [getCombined] returns an empty array, and does not throw, when
    neither the store nor the type table has anything truthy under any of
    the names, and when it is called with no name at all. *)
Theorem getCombined_unknown :
  ∀ σ (names : list string),
    let h := st_heap σ in
    plain h (Self.data (self σ)) →
    plain h (Self.typeInfo (self σ)) →
    Forall (fun name => inherited name = false) names →
    inherited (join "," names) = false →
    Forall (fun name => ∃ d i,
              member h (Self.data (self σ)) name = Some d ∧ truthy d = false
              ∧ member h (Self.typeInfo (self σ)) name = Some i
              ∧ truthy i = false) names →
    Self.cachedData (self σ) !! join "," names = None →
    returned_elems (getCombined Date_parse now names σ) = Some [].
Proof.
  intros σ names h Hpd Hpt _ _ Hall Hmiss. subst h.
  assert (Hvd : valid (st_heap σ) (Self.data (self σ))).
  { destruct Hpd as (l & ps & -> & Hl). intros l' [= <-].
    by apply lookup_lt_Some in Hl. }
  assert (Hvt : valid (st_heap σ) (Self.typeInfo (self σ))).
  { destruct Hpt as (l & ps & -> & Hl). intros l' [= <-].
    by apply lookup_lt_Some in Hl. }
  rewrite getCombined_miss by done. unfold getCombined_fresh.
  erewrite bind_eval; [|reflexivity].
  destruct (combine_all_unknown names
              (mkState (st_heap σ ++ [Arr [] []])%list (self σ))
              (length (st_heap σ)) [])
    as (ext & a' & ps1 & Hall' & Ha').
  - by apply valid_app.
  - by apply valid_app.
  - eapply Forall_impl; [exact Hall|].
    intros n (d & i & Hd & Hdf & Hi & Hif). exists d, i. simpl.
    by rewrite !member_app_valid.
  - simpl. by rewrite list_lookup_middle.
  - erewrite bind_eval; [|exact Hall'].
    erewrite bind_eval; [|reflexivity]. simpl. simpl in Ha'. by rewrite Ha'.
Qed.

(** A value of the collection that is not an object stops [_.map]. *)
Lemma mapM_annotate_throws name kvs : ∀ σ,
  Exists (fun kv : string * value => is_prim kv.2 = true) kvs →
  ∃ σ', mapM (annotate name) kvs σ = Throw TypeError σ' ∧ self σ' = self σ.
Proof.
  induction kvs as [|[k v] kvs IH]; intros σ Hex.
  - by apply Exists_nil in Hex.
  - simpl mapM. destruct v as [| | | | |l];
      try (exists σ; split; [reflexivity|done]).
    apply Exists_cons in Hex as [Hex|Hex]; [done|].
    assert (Hs : ∀ key x σ0, ∃ h', set_member (VRef l) key x σ0
                                   = Ok tt (mkState h' (self σ0))).
    { intros key x σ0. unfold set_member, bind, get_heap, put_heap. simpl.
      destruct (st_heap σ0 !! l) as [[]|]; by eauto. }
    destruct (Hs "_id" (VStr k) σ) as (h1 & Hs1).
    destruct (Hs "_type" (VStr name) (mkState h1 (self σ))) as (h2 & Hs2).
    destruct (IH (mkState h2 (self σ)) Hex) as (σ' & Hthr & Hself).
    exists σ'. split; [|done].
    erewrite bind_eval.
    2:{ unfold annotate. simpl. erewrite bind_eval; [|exact Hs1].
        erewrite bind_eval; [|exact Hs2]. reflexivity. }
    by erewrite bind_throw.
Qed.

(** X16: [getCombined] throws a TypeError, and caches nothing, when the
    collection of the first name, a type without the [oneOff] flag or one
    the type table does not know, is a plain object without a number as its
    [length] and has a value that is not an object (a string, a number,
    [null]) under a key that does not start with an underscore; the key of
    the cache is taken to be no name of [Object.prototype]. *)
Theorem getCombined_primitive_entry :
  ∀ σ (name : string) (rest : list string) (info : value) (c : loc) (ps : props),
    let h := st_heap σ in
    valid h (Self.typeInfo (self σ)) → valid h info →
    member h (Self.typeInfo (self σ)) name = Some info →
    (truthy info = false
     ∨ ∃ flag, member h info "oneOff" = Some flag ∧ truthy flag = false) →
    member h (Self.data (self σ)) name = Some (VRef c) →
    h !! c = Some (Obj ps) →
    (∀ n, lookup_prop "length" ps ≠ Some (VNum n)) →
    Exists (fun kv : string * value => is_prim kv.2 = true) (listed ps) →
    inherited (join "," (name :: rest)) = false →
    Self.cachedData (self σ) !! join "," (name :: rest) = None →
    let r := getCombined Date_parse now (name :: rest) σ in
    thrown r = Some TypeError ∧ self (state_of r) = self σ.
Proof.
  intros σ name rest info c ps h Hvt Hvi Hinfo Hflag Hd Hc _ Hex _ Hmiss r.
  subst r h. rewrite getCombined_miss by done. unfold getCombined_fresh.
  erewrite bind_eval; [|reflexivity].
  set (σ1 := mkState (st_heap σ ++ [Arr [] []])%list (self σ)).
  set (σa := mkState (st_heap σ1 ++ [Obj (listed ps)])%list (self σ)).
  destruct (mapM_annotate_throws name (listed ps) σa Hex) as (σ' & Hthr & Hself).
  assert (Hcomb : combine_all Date_parse now (name :: rest)
                    (VRef (length (st_heap σ))) σ1 = Throw TypeError σ').
  { simpl combine_all. apply bind_throw.
    unfold combine. erewrite bind_eval; [|reflexivity].
    erewrite bind_eval;
      [|apply get_member_eval; simpl; by apply member_app_truthy].
    simpl truthy. cbv iota. erewrite bind_eval; [|reflexivity].
    erewrite bind_eval;
      [|apply get_member_eval; simpl st_heap; rewrite member_app_valid by done;
        exact Hinfo].
    assert (Hone : ∃ flag,
              (if truthy info then get_member info "oneOff" else ret info) σ1
              = Ok flag σ1 ∧ truthy flag = false).
    { destruct (truthy info) eqn:Hti.
      - destruct Hflag as [Hf|(flag & Hfl & Hf)]; [done|].
        exists flag. split; [|done].
        apply get_member_eval. simpl st_heap. by rewrite member_app_valid.
      - by exists info. }
    destruct Hone as (flag & Hone & Hf).
    erewrite bind_eval; [|exact Hone]. rewrite Hf.
    erewrite bind_eval.
    2:{ unfold omit_underscore. erewrite bind_eval; [|reflexivity].
        unfold enumerate. simpl st_heap.
        rewrite (lookup_app_l_Some _ _ _ _ Hc). reflexivity. }
    apply bind_throw. unfold map_annotate.
    erewrite bind_eval; [|reflexivity].
    unfold enumerate. simpl st_heap. rewrite list_lookup_middle by done.
    by apply bind_throw. }
  rewrite (bind_throw _ _ _ _ _ Hcomb). simpl. by rewrite Hself.
Qed.

End Unknown.

Lemma getCombined_unknown_witness :
  returned_elems (getCombined sample_Date_parse 0 ["people"; "places"]
                    relation_store) = Some []
  ∧ returned_elems (getCombined sample_Date_parse 0 [] swigFunctions) = Some [].
Proof.
  split.
  - apply getCombined_unknown.
    + by exists 4%nat, [("companies", VRef 6%nat)].
    + by exists 5%nat, [("companies", VRef 7%nat)].
    + repeat constructor.
    + reflexivity.
    + repeat constructor; exists VUndef, VUndef; repeat split; reflexivity.
    + reflexivity.
  - apply getCombined_unknown.
    + by exists 1%nat, [].
    + by exists 3%nat, [].
    + constructor.
    + reflexivity.
    + constructor.
    + reflexivity.
Defined.

Lemma getCombined_primitive_entry_witness :
  let r := getCombined sample_Date_parse 0 ["companies"] draft_store in
  thrown r = Some TypeError ∧ self (state_of r) = self draft_store.
Proof.
  apply (getCombined_primitive_entry sample_Date_parse 0 draft_store "companies"
           [] (VRef 7%nat) 6%nat [("1", VRef 8%nat); ("2", VStr "draft")]).
  - intros l [= <-]. simpl. lia.
  - intros l [= <-]. simpl. lia.
  - reflexivity.
  - right. exists (VBool false). split; reflexivity.
  - reflexivity.
  - reflexivity.
  - intros n. discriminate.
  - apply Exists_cons_tl, Exists_cons_hd. reflexivity.
  - reflexivity.
  - reflexivity.
Defined.

(** ** Several types in one [getCombined] *)

Lemma set_member_untouched v k x σ σ' l :
  set_member v k x σ = Ok tt σ' → v ≠ VRef l →
  st_heap σ' !! l = st_heap σ !! l.
Proof.
  unfold set_member, bind, get_heap, put_heap, throw, assign. simpl.
  destruct v as [| | | | |l0]; try done. intros H Hne.
  assert (Hl : l0 ≠ l) by congruence.
  destruct (st_heap σ !! l0) as [[ps|es ps]|]; injection H as <-; simpl;
    try done; by rewrite list_lookup_insert_ne.
Qed.

Lemma mapM_annotate_untouched name kvs : ∀ σ vs σ' l,
  mapM (annotate name) kvs σ = Ok vs σ' → VRef l ∉ kvs.*2 →
  st_heap σ' !! l = st_heap σ !! l.
Proof.
  induction kvs as [|[k v] kvs IH]; intros σ vs σ' l H Hl.
  - simpl in H. unfold ret in H. by injection H as <- <-.
  - simpl in H. apply bind_Ok in H as (b & σ1 & Hann & H).
    apply bind_Ok in H as (bs & σ2 & Hrest & H).
    unfold ret in H. injection H as <- <-.
    rewrite fmap_cons in Hl. apply not_elem_of_cons in Hl as [Hne Hl].
    simpl in Hne.
    rewrite (IH _ _ _ _ Hrest Hl).
    unfold annotate in Hann. simpl in Hann.
    apply bind_Ok in Hann as ([] & σa & H1 & Hann).
    apply bind_Ok in Hann as ([] & σb & H2 & Hann).
    unfold ret in Hann. injection Hann as <- <-.
    rewrite (set_member_untouched _ _ _ _ _ l H2) by congruence.
    by rewrite (set_member_untouched _ _ _ _ _ l H1) by congruence.
Qed.

Lemma own_prop_app h ext l k :
  (l < length h)%nat → own_prop (h ++ ext)%list l k = own_prop h l k.
Proof. intros Hl. unfold own_prop. by rewrite lookup_app_l. Qed.

Lemma own_prop_assign_ne h v k x h' l k' :
  assign h v k x = Some h' → k' ≠ k → own_prop h' l k' = own_prop h l k'.
Proof.
  unfold assign, own_prop. destruct v as [| | | | |l0]; try done.
  destruct (h !! l0) as [[ps|es ps]|] eqn:Hl0; intros [= <-] Hne; [| |done].
  - destruct (decide (l = l0)) as [->|Hl].
    + rewrite list_lookup_insert_eq by (by eapply lookup_lt_Some).
      rewrite Hl0. by apply lookup_set_prop_ne.
    + by rewrite list_lookup_insert_ne.
  - destruct (decide (l = l0)) as [->|Hl].
    + rewrite list_lookup_insert_eq by (by eapply lookup_lt_Some).
      rewrite Hl0. by apply lookup_set_prop_ne.
    + by rewrite list_lookup_insert_ne.
Qed.

Lemma own_prop_same h h' l k : h' !! l = h !! l → own_prop h' l k = own_prop h l k.
Proof. intros H. unfold own_prop. by rewrite H. Qed.

Lemma set_member_Ok v k x σ σ' :
  set_member v k x σ = Ok tt σ' →
  ∃ h', assign (st_heap σ) v k x = Some h' ∧ σ' = mkState h' (self σ).
Proof.
  unfold set_member, bind, get_heap, put_heap, throw.
  destruct (assign (st_heap σ) v k x) as [h'|]; [|done].
  intros [= <-]. by exists h'.
Qed.

(** [_.map] leaves on every value its type, and as [_id] a key under which
    the collection has it. *)
Lemma mapM_annotate_writes name kvs : ∀ σ vs σ',
  Forall (fun kv : string * value =>
            ∃ l, kv.2 = VRef l ∧ (l < length (st_heap σ))%nat) kvs →
  mapM (annotate name) kvs σ = Ok vs σ' →
  ∀ k l, (k, VRef l) ∈ kvs →
    own_prop (st_heap σ') l "_type" = Some (VStr name)
    ∧ ∃ k', (k', VRef l) ∈ kvs
            ∧ own_prop (st_heap σ') l "_id" = Some (VStr k').
Proof.
  induction kvs as [|[k0 v0] kvs IH]; intros σ vs σ' Hall H k l Hin.
  - by apply elem_of_nil in Hin.
  - apply Forall_cons in Hall as [(l0 & Hv0 & Hl0) Hall]. simpl in Hv0.
    subst v0. simpl in H.
    apply bind_Ok in H as (b & σ1 & Hann & H).
    apply bind_Ok in H as (bs & σ2 & Hrest & H).
    unfold ret in H. injection H as <- <-.
    unfold annotate in Hann. simpl in Hann.
    apply bind_Ok in Hann as ([] & σa & H1 & Hann).
    apply bind_Ok in Hann as ([] & σb & H2 & Hann).
    unfold ret in Hann. injection Hann as <- <-.
    apply set_member_Ok in H1 as (h1 & Ha1 & ->).
    apply set_member_Ok in H2 as (h2 & Ha2 & ->).
    change (assign h1 (VRef l0) "_type" (VStr name) = Some h2) in Ha2.
    simpl in Hrest.
    assert (Hlen : length h2 = length (st_heap σ)).
    { by rewrite (assign_length _ _ _ _ _ Ha2), (assign_length _ _ _ _ _ Ha1). }
    assert (Hall' : Forall (fun kv : string * value =>
                              ∃ l, kv.2 = VRef l ∧ (l < length h2)%nat) kvs).
    { eapply Forall_impl; [exact Hall|]. intros kv (l' & ? & ?).
      exists l'. split; [done|]. by rewrite Hlen. }
    destruct (decide (VRef l ∈ kvs.*2)) as [Hlater|Hnot].
    + apply list_elem_of_fmap in Hlater as ([k2 v2] & Hv2 & Hin2).
      simpl in Hv2. subst v2.
      destruct (IH (mkState h2 (self σ)) _ _ Hall' Hrest k2 l Hin2)
        as (Hty & k' & Hin' & Hid).
      split; [exact Hty|]. exists k'. split; [by apply elem_of_cons; right|done].
    + apply elem_of_cons in Hin as [[= -> ->]|Hin].
      2:{ destruct Hnot. apply list_elem_of_fmap. by exists (k, VRef l). }
      pose proof (mapM_annotate_untouched _ _ _ _ _ l0 Hrest Hnot) as Hsame.
      simpl in Hsame.
      rewrite !(own_prop_same _ _ _ _ Hsame). split.
      * apply (assign_own_prop h1); [|done].
        by rewrite (assign_length _ _ _ _ _ Ha1).
      * exists k0. split; [apply list_elem_of_here|].
        rewrite (own_prop_assign_ne _ _ _ _ _ l0 "_id" Ha2) by done.
        by apply (assign_own_prop (st_heap σ)).
Qed.

Lemma listed_key_unique (kvs : props) k k' v :
  NoDup kvs.*2 → (k, v) ∈ kvs → (k', v) ∈ kvs → k = k'.
Proof.
  induction kvs as [|[k0 v0] kvs IH]; intros Hnd Hin Hin'.
  - by apply elem_of_nil in Hin.
  - rewrite fmap_cons in Hnd. apply NoDup_cons in Hnd as [Hv0 Hnd].
    assert (Hout : ∀ key, (key, v0) ∉ kvs).
    { intros key Hk. apply Hv0. apply list_elem_of_fmap. by exists (key, v0). }
    apply elem_of_cons in Hin as [Heq|Hin];
      apply elem_of_cons in Hin' as [Heq'|Hin'].
    + congruence.
    + injection Heq as -> ->. by destruct (Hout k').
    + injection Heq' as -> ->. by destruct (Hout k).
    + by apply IH.
Qed.

Section Several.

Variable Date_parse : string → number.
Variable now : Z.

(** [combine_eval], with the objects the call leaves as they were. *)
Lemma combine_eval_items σ name info flag c ps d0 es0 ps0 :
  member (st_heap σ) (Self.typeInfo (self σ)) name = Some info →
  truthy info = true →
  member (st_heap σ) info "oneOff" = Some flag →
  truthy flag = false →
  member (st_heap σ) (Self.data (self σ)) name = Some (VRef c) →
  st_heap σ !! c = Some (Obj ps) →
  st_heap σ !! d0 = Some (Arr es0 ps0) →
  Forall (plain_item (st_heap σ)) (listed ps).*2 →
  ∃ σ' r,
    combine Date_parse now name (VRef d0) σ = Ok (VRef r) σ'
    ∧ frame annotations σ σ'
    ∧ st_heap σ' !! r
      = Some (Arr (es0 ++ filter (fun v => hidden Date_parse now (st_heap σ) v = false)
                            (listed ps).*2)%list [])
    ∧ (∀ l, (l < length (st_heap σ))%nat → VRef l ∉ (listed ps).*2 →
            st_heap σ' !! l = st_heap σ !! l)
    ∧ ∀ k l, (k, VRef l) ∈ listed ps →
        own_prop (st_heap σ') l "_type" = Some (VStr name)
        ∧ ∃ k', (k', VRef l) ∈ listed ps
                ∧ own_prop (st_heap σ') l "_id" = Some (VStr k').
Proof.
  intros Hinfo Hti Hflag Htf Hd Hc Hd0 Hitems.
  set (h := st_heap σ) in *.
  set (σa := mkState (h ++ [Obj (listed ps)])%list (self σ)).
  assert (Homit : omit_underscore (VRef c) σ = Ok (VRef (length h)) σa).
  { unfold omit_underscore. erewrite bind_eval; [|reflexivity].
    unfold enumerate. fold h. by rewrite Hc. }
  assert (Hrefs : Forall (fun kv : string * value => ∃ l, kv.2 = VRef l) (listed ps)).
  { pose proof (proj1 (Forall_fmap snd (plain_item h) (listed ps)) Hitems) as Hps.
    eapply Forall_impl; [exact Hps|].
    intros kv (l & pd & Hl & _). by exists l. }
  destruct (mapM_annotate_eval name (listed ps) σa Hrefs) as (σb & Hmap & Hfb & Hlenb).
  pose proof (fun l => mapM_annotate_untouched name (listed ps) σa _ σb l Hmap)
    as Hsame.
  set (vs := (listed ps).*2) in *.
  set (σc := mkState (st_heap σb ++ [Arr vs []])%list (self σb)).
  assert (Hann : map_annotate name (VRef (length h)) σa = Ok (VRef (length (st_heap σb))) σc).
  { unfold map_annotate. erewrite bind_eval; [|reflexivity].
    unfold enumerate. simpl st_heap. rewrite list_lookup_middle by done.
    erewrite bind_eval; [|exact Hmap]. done. }
  assert (Hvs : Forall (fun e => ∃ l, e = VRef l) vs).
  { eapply Forall_impl; [exact Hitems|]. intros v (l & pd & Hl & _). by exists l. }
  set (kept := filter (fun v => hidden Date_parse now (st_heap σc) v = false) vs).
  set (σd := mkState (st_heap σc ++ [Arr kept []])%list (self σc)).
  assert (Hfil : filter_published Date_parse now (VRef (length (st_heap σb))) σc
                 = Ok (VRef (length (st_heap σc))) σd).
  { unfold filter_published.
    erewrite bind_eval;
      [|apply (array_elems_eval _ vs []); simpl; by rewrite list_lookup_middle].
    simpl default. erewrite bind_eval; [|by apply filterM_eval]. done. }
  assert (Hext_c : heap_ext annotations h (st_heap σc)).
  { eapply heap_ext_trans; [apply (heap_ext_alloc _ h (Obj (listed ps)))|].
    eapply heap_ext_trans; [apply Hfb|]. apply heap_ext_alloc. }
  assert (Hext_d : heap_ext annotations h (st_heap σd)).
  { eapply heap_ext_trans; [exact Hext_c|]. apply heap_ext_alloc. }
  assert (Hkept : kept = filter (fun v => hidden Date_parse now h v = false) vs).
  { apply filter_ext_Forall. eapply Forall_impl; [exact Hitems|].
    intros v (l & pd & -> & Hl & Hpd & Hprim).
    rewrite (hidden_ext Date_parse now annotations h (st_heap σc) l pd); try done.
    apply publish_date_not_annotation. }
  destruct (Hext_d d0 _ Hd0) as (o' & Hd0' & Hsame0).
  destruct o' as [|es0' ps0']; [done|]. destruct Hsame0 as [-> _].
  set (σe := mkState (st_heap σd ++ [Arr (es0 ++ kept) []])%list (self σd)).
  assert (Hcat : concat (VRef d0) (VRef (length (st_heap σc))) σd
                 = Ok (VRef (length (st_heap σd))) σe).
  { unfold concat.
    erewrite bind_eval; [|by apply (array_elems_eval _ es0 ps0')].
    erewrite bind_eval;
      [|apply (array_elems_eval _ kept []); simpl; by rewrite list_lookup_middle].
    done. }
  assert (Hbound : Forall (fun kv : string * value =>
                             ∃ l, kv.2 = VRef l ∧ (l < length (st_heap σa))%nat)
                     (listed ps)).
  { pose proof (proj1 (Forall_fmap snd (plain_item h) (listed ps)) Hitems) as Hps.
    eapply Forall_impl; [exact Hps|].
    intros kv (l & pd & Hl & Hlt & _). exists l. split; [done|].
    simpl. rewrite length_app. lia. }
  pose proof (mapM_annotate_writes name (listed ps) σa _ σb Hbound Hmap)
    as Hwrites.
  exists σe, (length (st_heap σd)). split; [|split; [|split; [|split]]].
  - unfold combine. erewrite bind_eval; [|reflexivity].
    erewrite bind_eval; [|by apply get_member_eval]. simpl truthy. cbv iota.
    erewrite bind_eval; [|reflexivity].
    erewrite bind_eval; [|by apply get_member_eval]. rewrite Hti.
    erewrite bind_eval; [|by apply get_member_eval]. rewrite Htf.
    erewrite bind_eval; [|exact Homit].
    erewrite bind_eval; [|exact Hann].
    erewrite bind_eval; [|exact Hfil].
    exact Hcat.
  - split.
    + simpl. by destruct Hfb as [-> _].
    + eapply heap_ext_trans; [exact Hext_d|]. apply heap_ext_alloc.
  - simpl st_heap. rewrite list_lookup_middle by done. by rewrite Hkept.
  - intros l Hl Hnot.
    assert (Hla : (l < length (st_heap σb))%nat).
    { rewrite Hlenb. simpl. rewrite length_app. lia. }
    simpl st_heap. rewrite !lookup_app_l; try (rewrite ?length_app; simpl; lia).
    rewrite (Hsame l Hnot). simpl. by rewrite lookup_app_l.
  - intros k l Hin.
    assert (Hla : (l < length (st_heap σb))%nat).
    { apply (proj1 (Forall_forall _ _) Hbound) in Hin as (l' & Hl' & Hlt).
      simpl in Hl'. injection Hl' as <-. by rewrite Hlenb. }
    destruct (Hwrites k l Hin) as (Hty & k' & Hin' & Hid).
    simpl st_heap.
    rewrite !own_prop_app; try (rewrite ?length_app; simpl; lia).
    split; [exact Hty|]. by exists k'.
Qed.

Lemma member_same h h' v k :
  (∀ l, v = VRef l → h' !! l = h !! l) → member h' v k = member h v k.
Proof.
  intros H. destruct v as [| | | | |l]; try done. simpl. by rewrite (H l eq_refl).
Qed.

Lemma plain_item_ext h h' v :
  heap_ext annotations h h' → plain_item h v → plain_item h' v.
Proof.
  intros Hext (l & pd & -> & Hl & Hpd & Hprim). exists l, pd.
  split; [done|]. split; [pose proof (heap_ext_length _ _ _ Hext); lia|].
  split; [|done].
  rewrite (member_ext annotations h h' l "publish_date"); try done.
  apply publish_date_not_annotation.
Qed.

Section Accumulate.

Variable σ : state.
Variable all : list value.

Hypothesis data_apart : apart (st_heap σ) all (Self.data (self σ)).
Hypothesis typeInfo_apart : apart (st_heap σ) all (Self.typeInfo (self σ)).

Lemma member_during σk v k :
  during σ all σk → apart (st_heap σ) all v →
  member (st_heap σk) v k = member (st_heap σ) v k.
Proof.
  intros (_ & _ & Hsame) [Hv Hn]. apply member_same. intros l ->.
  apply Hsame; [by apply Hv|done].
Qed.

Lemma combine_all_concat names : ∀ σk d0 es0 ps0,
  during σ all σk →
  st_heap σk !! d0 = Some (Arr es0 ps0) →
  Forall (fun name => ordinary (st_heap σ) (self σ) all name
                      ∧ items_of (st_heap σ) (self σ) name ⊆ all) names →
  ∃ σ' r ps1,
    combine_all Date_parse now names (VRef d0) σk = Ok (VRef r) σ'
    ∧ self σ' = self σ
    ∧ st_heap σ' !! r
      = Some (Arr (es0 ++ names ≫= visible_of Date_parse now (st_heap σ) (self σ))%list
                ps1).
Proof.
  induction names as [|name names IH]; intros σk d0 es0 ps0 Hk Hd0 Hall.
  - exists σk, d0, ps0. split; [done|]. split; [by destruct Hk|].
    simpl. by rewrite app_nil_r.
  - apply Forall_cons in Hall as [[Hord Hsub] Hall].
    destruct Hord as (i & flag & c & ps & Hinfo & Hi & Hflag & Hf & Hd & Hc
                      & Hcn & Hitems).
    pose proof Hk as (Hself & Hext & Hsame).
    assert (Hio : items_of (st_heap σ) (self σ) name = (listed ps).*2).
    { unfold items_of. rewrite Hd. unfold enumerate. by rewrite Hc. }
    destruct (combine_eval_items σk name (VRef i) flag c ps d0 es0 ps0)
      as (σ1 & r & Hcomb & [Hself1 Hext1] & Hr & Hsame1 & _); try done.
    { rewrite Hself. by rewrite member_during. }
    { by rewrite member_during. }
    { rewrite Hself. by rewrite member_during. }
    { rewrite Hsame; [done| |done]. by apply lookup_lt_Some in Hc. }
    { eapply Forall_impl; [exact Hitems|]. intros v. by apply plain_item_ext. }
    destruct (IH σ1 r
                (es0 ++ filter (fun v => hidden Date_parse now (st_heap σk) v = false)
                          (listed ps).*2)%list [])
      as (σ' & r' & ps1 & Hrest & Hself' & Hr'); try done.
    { split; [congruence|]. split; [by eapply heap_ext_trans|].
      intros l Hl Hnot. rewrite Hsame1.
      - by apply Hsame.
      - pose proof (heap_ext_length _ _ _ Hext). lia.
      - intros Hin. apply Hnot, Hsub. by rewrite Hio. }
    exists σ', r', ps1. split; [|split; [done|]].
    + simpl combine_all. erewrite bind_eval; [|exact Hcomb]. exact Hrest.
    + rewrite Hr'. do 2 f_equal. rewrite bind_cons, <- app_assoc. f_equal.
      unfold visible_of at 2. rewrite Hio. f_equal.
      apply filter_ext_Forall. eapply Forall_impl; [exact Hitems|].
      intros v (l & pd & -> & Hl & Hpd & Hprim).
      rewrite (hidden_ext Date_parse now annotations (st_heap σ) (st_heap σk) l pd);
        try done.
      apply publish_date_not_annotation.
Qed.

End Accumulate.

(** X17: on a store laid out as a tree, [getCombined] with the names of
    ordinary types and nothing cached returns, for each name in the order
    given, the items of its collection that pass the test on
    [publish_date], in the order of their keys, one name after the other. *)
Theorem getCombined_concatenates :
  ∀ σ (names : list string),
    let h := st_heap σ in
    let s := self σ in
    let all := names ≫= items_of h s in
    apart h all (Self.data s) → apart h all (Self.typeInfo s) →
    Forall (ordinary h s all) names →
    Self.cachedData s !! join "," names = None →
    returned_elems (getCombined Date_parse now names σ)
    = Some (names ≫= visible_of Date_parse now h s).
Proof.
  intros σ names h s all Hda Hta Hord Hmiss. subst h s.
  rewrite getCombined_miss by done. unfold getCombined_fresh.
  erewrite bind_eval; [|reflexivity].
  destruct (combine_all_concat σ all Hda Hta names
              (mkState (st_heap σ ++ [Arr [] []])%list (self σ))
              (length (st_heap σ)) [] [])
    as (σ' & r & ps1 & Hcomb & Hself & Hr).
  - split; [done|]. split; [apply heap_ext_alloc|].
    intros l Hl _. simpl. by rewrite lookup_app_l.
  - simpl. by rewrite list_lookup_middle.
  - apply Forall_forall. intros name Hin. split.
    + by apply (proj1 (Forall_forall _ _) Hord).
    + intros v Hv. apply list_elem_of_bind. by exists name.
  - erewrite bind_eval; [|exact Hcomb].
    erewrite bind_eval; [|reflexivity]. simpl. by rewrite Hr.
Qed.

End Several.

Lemma getCombined_concatenates_witness :
  returned_elems (getCombined sample_Date_parse 0 ["x,x"; "x"] comma_store)
  = Some [VRef 10%nat; VRef 9%nat].
Proof.
  assert (Hvalid : ∀ n : nat, (n < 11)%nat →
                     valid (st_heap comma_store) (VRef n)).
  { intros n Hn l [= <-]. exact Hn. }
  assert (Hnot : ∀ n : nat, (n < 9)%nat →
                   VRef n ∉ [VRef 10%nat; VRef 9%nat]).
  { intros n Hn Hin. apply elem_of_cons in Hin as [[= ->]|Hin]; [lia|].
    apply elem_of_cons in Hin as [[= ->]|Hin]; [lia|].
    by apply elem_of_nil in Hin. }
  apply (getCombined_concatenates sample_Date_parse 0 comma_store ["x,x"; "x"]).
  - split; [apply Hvalid; lia|apply Hnot; lia].
  - split; [apply Hvalid; lia|apply Hnot; lia].
  - repeat constructor.
    + exists 8%nat, (VBool false), 7%nat, [("2", VRef 10%nat)].
      split; [reflexivity|]. split; [split; [apply Hvalid; lia|apply Hnot; lia]|].
      split; [reflexivity|]. split; [reflexivity|]. split; [reflexivity|].
      split; [reflexivity|]. split; [apply Hnot; lia|].
      repeat constructor.
      exists 10%nat, (VStr "1970-01-01T00:00:00.000Z"). repeat split.
      vm_compute. lia.
    + exists 8%nat, (VBool false), 6%nat, [("1", VRef 9%nat)].
      split; [reflexivity|]. split; [split; [apply Hvalid; lia|apply Hnot; lia]|].
      split; [reflexivity|]. split; [reflexivity|]. split; [reflexivity|].
      split; [reflexivity|]. split; [apply Hnot; lia|].
      repeat constructor.
      exists 9%nat, (VStr "1970-01-01T00:00:00.000Z"). repeat split.
      vm_compute. lia.
  - reflexivity.
Defined.

(** X22: [setData] makes [getCombined] compute again.  Whatever the cache
    held before, the first call after [setData(store)] with the names of
    ordinary types of the new store, laid out as a tree, under a key that
    is no name of [Object.prototype], returns the items of the new store
    that pass the test on [publish_date], name after name. *)
Theorem setData_invalidates :
  ∀ (Date_parse : string → number) (now : Z) σ (store : value)
    (names : list string),
    let σ' := state_of (setData store σ) in
    let h := st_heap σ' in
    let s := self σ' in
    let all := names ≫= items_of h s in
    inherited (join "," names) = false →
    apart h all store → apart h all (Self.typeInfo s) →
    Forall (ordinary h s all) names →
    Self.data s = store
    ∧ returned_elems (getCombined Date_parse now names σ')
      = Some (names ≫= visible_of Date_parse now h s).
Proof.
  intros Date_parse now σ store names σ' h s all _ Hda Hta Hord.
  split; [reflexivity|].
  assert (Hmiss : Self.cachedData s !! join "," names = None)
    by apply lookup_empty.
  rewrite getCombined_miss by exact Hmiss. unfold getCombined_fresh.
  erewrite bind_eval; [|reflexivity].
  destruct (combine_all_concat Date_parse now σ' all Hda Hta names
              (mkState (st_heap σ' ++ [Arr [] []])%list (self σ'))
              (length (st_heap σ')) [] [])
    as (σ2 & r & ps1 & Hcomb & Hself & Hr).
  - split; [done|]. split; [apply heap_ext_alloc|].
    intros l Hl _. simpl. by rewrite lookup_app_l.
  - simpl. by rewrite list_lookup_middle.
  - apply Forall_forall. intros name Hin. split.
    + by apply (proj1 (Forall_forall _ _) Hord).
    + intros v Hv. apply list_elem_of_bind. by exists name.
  - erewrite bind_eval; [|exact Hcomb].
    erewrite bind_eval; [|reflexivity]. simpl. by rewrite Hr.
Qed.

(** On [comma_store], once [getCombined("x")] has cached its array at
    location 15: without [setData] the call is served that array, and after
    [setData] with the same store it computes a new one. *)
Lemma setData_invalidates_witness :
  let σ := state_of (getCombined sample_Date_parse 0 ["x"] comma_store) in
  let σ' := state_of (setData (VRef 4%nat) σ) in
  returned (getCombined sample_Date_parse 0 ["x"] σ) = Some (VRef 15%nat)
  ∧ returned (getCombined sample_Date_parse 0 ["x"] σ') = Some (VRef 20%nat)
  ∧ returned_elems (getCombined sample_Date_parse 0 ["x"] σ')
    = Some [VRef 9%nat].
Proof.
  intros σ σ'.
  assert (Hvalid : ∀ n : nat, (n < 16)%nat → valid (st_heap σ') (VRef n)).
  { intros n Hn l [= <-]. exact Hn. }
  assert (Hnot : ∀ n : nat, (n < 9)%nat → VRef n ∉ [VRef 9%nat]).
  { intros n Hn Hin. apply elem_of_cons in Hin as [[= ->]|Hin]; [lia|].
    by apply elem_of_nil in Hin. }
  split; [vm_compute; reflexivity|]. split; [vm_compute; reflexivity|].
  apply (setData_invalidates sample_Date_parse 0 σ (VRef 4%nat) ["x"]).
  - reflexivity.
  - split; [apply Hvalid; lia|apply Hnot; lia].
  - split; [apply Hvalid; lia|apply Hnot; lia].
  - repeat constructor.
    exists 8%nat, (VBool false), 6%nat, [("1", VRef 9%nat)].
    split; [reflexivity|]. split; [split; [apply Hvalid; lia|apply Hnot; lia]|].
    split; [reflexivity|]. split; [reflexivity|]. split; [reflexivity|].
    split; [reflexivity|]. split; [apply Hnot; lia|].
    repeat constructor.
    exists 9%nat, (VStr "1970-01-01T00:00:00.000Z"). repeat split.
    vm_compute. lia.
Defined.




(** ** What the queries write on the store *)

Lemma items_of_entries h s name : items_of h s name = (entries_of h s name).*2.
Proof. unfold items_of, entries_of. by destruct (member h (Self.data s) name). Qed.

Section Annotations.

Variable Date_parse : string → number.
Variable now : Z.

Section Written.

Variable σ : state.
Variable all : list value.

Hypothesis data_apart : apart (st_heap σ) all (Self.data (self σ)).
Hypothesis typeInfo_apart : apart (st_heap σ) all (Self.typeInfo (self σ)).

(** The loop over the names of ordinary types whose items are all
    different objects: each item ends with its own key and the name of its
    type on it, and what is none of these items is not written on. *)
Lemma combine_all_writes names : ∀ σk d0 es0 ps0,
  during σ all σk →
  st_heap σk !! d0 = Some (Arr es0 ps0) →
  Forall (fun name => ordinary (st_heap σ) (self σ) all name
                      ∧ items_of (st_heap σ) (self σ) name ⊆ all) names →
  NoDup (names ≫= items_of (st_heap σ) (self σ)) →
  ∃ σ' r,
    combine_all Date_parse now names (VRef d0) σk = Ok (VRef r) σ'
    ∧ (∀ l, (l < length (st_heap σ))%nat →
            VRef l ∉ names ≫= items_of (st_heap σ) (self σ) →
            st_heap σ' !! l = st_heap σk !! l)
    ∧ ∀ name k l,
        name ∈ names → (k, VRef l) ∈ entries_of (st_heap σ) (self σ) name →
        own_prop (st_heap σ') l "_type" = Some (VStr name)
        ∧ own_prop (st_heap σ') l "_id" = Some (VStr k).
Proof.
  induction names as [|name names IH]; intros σk d0 es0 ps0 Hk Hd0 Hall Hnd.
  - exists σk, d0. split; [done|]. split; [done|].
    intros name k l Hin. by apply elem_of_nil in Hin.
  - apply Forall_cons in Hall as [[Hord Hsub] Hall].
    rewrite bind_cons in Hnd. apply NoDup_app in Hnd as (Hnd0 & Hdisj & Hnd).
    destruct Hord as (i & flag & c & ps & Hinfo & Hi & Hflag & Hf & Hd & Hc
                      & Hcn & Hitems).
    pose proof Hk as (Hself & Hext & Hsame).
    assert (Hio : items_of (st_heap σ) (self σ) name = (listed ps).*2).
    { unfold items_of. rewrite Hd. unfold enumerate. by rewrite Hc. }
    assert (Heo : entries_of (st_heap σ) (self σ) name = listed ps).
    { unfold entries_of. rewrite Hd. unfold enumerate. by rewrite Hc. }
    pose proof (heap_ext_length _ _ _ Hext) as Hlen.
    destruct (combine_eval_items Date_parse now σk name (VRef i) flag c ps d0
                es0 ps0)
      as (σ1 & r & Hcomb & [Hself1 Hext1] & Hr & Hsame1 & Hann1); try done.
    { rewrite Hself. by rewrite (member_during σ all). }
    { by rewrite (member_during σ all). }
    { rewrite Hself. by rewrite (member_during σ all). }
    { rewrite Hsame; [done| |done]. by apply lookup_lt_Some in Hc. }
    { eapply Forall_impl; [exact Hitems|]. intros v. by apply plain_item_ext. }
    destruct (IH σ1 r
                (es0 ++ filter (fun v => hidden Date_parse now (st_heap σk) v = false)
                          (listed ps).*2)%list [])
      as (σ' & r' & Hrest & Hsame' & Hann'); try done.
    { split; [congruence|]. split; [by eapply heap_ext_trans|].
      intros l Hl Hnot. rewrite Hsame1.
      - by apply Hsame.
      - lia.
      - intros Hin. apply Hnot, Hsub. by rewrite Hio. }
    exists σ', r'. split; [|split].
    + simpl combine_all. erewrite bind_eval; [|exact Hcomb]. exact Hrest.
    + intros l Hl Hnot. rewrite bind_cons in Hnot.
      apply not_elem_of_app in Hnot as [Hn0 Hn]. rewrite Hsame' by done.
      apply Hsame1; [lia|]. by rewrite <- Hio.
    + intros name' k l Hin Hkl. apply elem_of_cons in Hin as [->|Hin].
      2:{ by apply (Hann' name' k l). }
      rewrite Heo in Hkl.
      destruct (Hann1 k l Hkl) as (Hty & k' & Hkl' & Hid).
      rewrite Hio in Hnd0.
      rewrite (listed_key_unique (listed ps) k k' (VRef l) Hnd0 Hkl Hkl').
      assert (Hitem : VRef l ∈ (listed ps).*2).
      { apply list_elem_of_fmap. by exists (k, VRef l). }
      assert (Hl : (l < length (st_heap σ))%nat).
      { apply (proj1 (Forall_forall _ _) Hitems) in Hitem
          as (l' & pd & Hl' & Hlt & _). by injection Hl' as <-. }
      assert (Hsame2 : st_heap σ' !! l = st_heap σ1 !! l).
      { apply Hsame'; [done|]. apply Hdisj. by rewrite Hio. }
      by rewrite !(own_prop_same _ _ _ _ Hsame2).
Qed.

End Written.

(** [getCombined(name)] on an ordinary type, with nothing cached: the array
    it returns, and what it has written on the items of the collection. *)
Lemma getCombined_single σ name info flag c ps :
  member (st_heap σ) (Self.typeInfo (self σ)) name = Some info →
  truthy info = true → valid (st_heap σ) info →
  member (st_heap σ) info "oneOff" = Some flag →
  truthy flag = false →
  member (st_heap σ) (Self.data (self σ)) name = Some (VRef c) →
  st_heap σ !! c = Some (Obj ps) →
  Forall (plain_item (st_heap σ)) (listed ps).*2 →
  Self.cachedData (self σ) !! name = None →
  let r := getCombined Date_parse now [name] σ in
  returned_elems r
  = Some (filter (fun v => hidden Date_parse now (st_heap σ) v = false)
            (listed ps).*2)
  ∧ ∀ k l, (k, VRef l) ∈ listed ps →
      own_prop (st_heap (state_of r)) l "_type" = Some (VStr name)
      ∧ ∃ k', (k', VRef l) ∈ listed ps
              ∧ own_prop (st_heap (state_of r)) l "_id" = Some (VStr k').
Proof.
  intros Hinfo Hti Hvalid Hflag Htf Hd Hc Hitems Hmiss r. subst r.
  set (h := st_heap σ) in *.
  set (σ1 := mkState (h ++ [Arr [] []])%list (self σ)).
  assert (Hitems1 : Forall (plain_item (st_heap σ1)) (listed ps).*2).
  { eapply Forall_impl; [exact Hitems|]. intros v.
    apply plain_item_ext, heap_ext_alloc. }
  destruct (combine_eval_items Date_parse now σ1 name info flag c ps (length h)
              [] [])
    as (σ2 & a & Hcomb & _ & Ha & _ & Hann); try done.
  { by apply member_app_truthy. }
  { simpl st_heap. by rewrite member_app_valid. }
  { by apply member_app_truthy. }
  { by apply lookup_app_l_Some. }
  { simpl. by rewrite list_lookup_middle. }
  assert (Hfilt : filter (fun v => hidden Date_parse now (st_heap σ1) v = false)
                    (listed ps).*2
                  = filter (fun v => hidden Date_parse now h v = false) (listed ps).*2).
  { apply filter_ext_Forall. eapply Forall_impl; [exact Hitems|].
    intros v (l & pd & -> & Hl & Hpd & Hprim).
    rewrite (hidden_ext Date_parse now annotations h (st_heap σ1) l pd); try done.
    - apply heap_ext_alloc.
    - apply publish_date_not_annotation. }
  rewrite Hfilt in Ha. clear Hfilt.
  rewrite getCombined_miss by done. unfold getCombined_fresh.
  erewrite bind_eval; [|reflexivity].
  erewrite bind_eval;
    [|simpl combine_all; erewrite bind_eval; [|exact Hcomb]; reflexivity].
  erewrite bind_eval; [|reflexivity]. simpl. rewrite Ha. simpl.
  split; [done|]. exact Hann.
Qed.

(** C9, as amended: [getItem] and [getCombined] keep every object of the
    store in its place, with its array elements and with all its properties
    other than [_type] (and [_id] for [getCombined]), and [self.data] keeps
    referring to the same store; the annotations themselves are written on
    the objects of the store, which are the objects the calls return: the
    item [getItem] returns is the one the store has under the key of the
    collection, and carries the type as [_type] in the store afterwards; and
    after [getCombined] on an ordinary type every item the collection has
    under a key without a leading underscore carries the slug as [_type]
    and a key of the collection as [_id], its own key when the items are
    different objects, while the array returned holds these same items;
    and so for a call with several ordinary types of a store laid out as a
    tree, each item carrying its own key and the slug of its own type. *)
Theorem store_changes_only_by_annotations :
  ∀ σ,
    let h := st_heap σ in
    (∀ type key,
       let r := getItem Date_parse now type key σ in
       self (state_of r) = self σ
       ∧ heap_ext ["_type"] h (st_heap (state_of r))
       ∧ ∀ l, returned r = Some (VRef l) → (l < length h)%nat →
           ∃ ty k coll,
             relation_of type key σ = Ok (Some (ty, k)) σ
             ∧ (truthy key = true → ty = type ∧ k = key)
             ∧ get_index (Self.data (self σ)) ty σ = Ok coll σ
             ∧ get_index coll k σ = Ok (VRef l) σ
             ∧ own_prop (st_heap (state_of r)) l "_type" = Some ty)
    ∧ (∀ names,
         let r := getCombined Date_parse now names σ in
         Self.data (self (state_of r)) = Self.data (self σ)
         ∧ heap_ext ["_id"; "_type"] h (st_heap (state_of r)))
    ∧ (∀ (name : string) info flag c ps,
         inherited name = false →
         member h (Self.typeInfo (self σ)) name = Some info →
         truthy info = true → valid h info →
         member h info "oneOff" = Some flag → truthy flag = false →
         member h (Self.data (self σ)) name = Some (VRef c) →
         h !! c = Some (Obj ps) →
         Forall (plain_item h) (listed ps).*2 →
         Self.cachedData (self σ) !! name = None →
         let r := getCombined Date_parse now [name] σ in
         returned_elems r
         = Some (filter (fun v => hidden Date_parse now h v = false)
                   (listed ps).*2)
         ∧ ∀ k l, (k, VRef l) ∈ listed ps →
             own_prop (st_heap (state_of r)) l "_type" = Some (VStr name)
             ∧ (∃ k', (k', VRef l) ∈ listed ps
                      ∧ own_prop (st_heap (state_of r)) l "_id"
                        = Some (VStr k'))
             ∧ (NoDup (listed ps).*2 →
                own_prop (st_heap (state_of r)) l "_id" = Some (VStr k)))
    ∧ (∀ names,
         let s := self σ in
         let all := names ≫= items_of h s in
         inherited (join "," names) = false →
         apart h all (Self.data s) → apart h all (Self.typeInfo s) →
         Forall (ordinary h s all) names → NoDup all →
         Self.cachedData s !! join "," names = None →
         let r := getCombined Date_parse now names σ in
         returned_elems r = Some (names ≫= visible_of Date_parse now h s)
         ∧ ∀ name k l,
             name ∈ names → (k, VRef l) ∈ entries_of h s name →
             own_prop (st_heap (state_of r)) l "_type" = Some (VStr name)
             ∧ own_prop (st_heap (state_of r)) l "_id" = Some (VStr k)).
Proof.
  intros σ h. subst h. split; [|split; [|split]].
  - intros type key r.
    assert (Hin : "_type" ∈ ["_type"]) by apply list_elem_of_here.
    destruct (respects_getItem Date_parse now ["_type"] Hin type key σ)
      as [Hs Hh].
    split; [done|]. split; [done|].
    intros l Hret Hl. subst r.
    destruct (getItem Date_parse now type key σ) as [v σ'|] eqn:Hr; [|done].
    injection Hret as ->.
    apply getItem_result in Hr
      as [[Hv _]|(ty & k & coll & h' & Hrel & Hcoll & Hitem & Ha & ->)].
    + injection Hv as ->. lia.
    + exists ty, k, coll. split; [exact Hrel|]. split.
      { intros Hkey. unfold relation_of in Hrel. rewrite Hkey in Hrel.
        by injection Hrel as <- <-. }
      split; [exact Hcoll|]. split; [exact Hitem|].
      simpl. by apply (assign_own_prop (st_heap σ)).
  - intros names r. apply getCombined_frame.
  - intros name info flag c ps _ Hinfo Hti Hvalid Hflag Htf Hd Hc Hitems Hmiss r.
    destruct (getCombined_single σ name info flag c ps Hinfo Hti Hvalid Hflag
                Htf Hd Hc Hitems Hmiss) as [Hret Hann].
    split; [exact Hret|]. intros k l Hin.
    destruct (Hann k l Hin) as (Hty & k' & Hin' & Hid).
    split; [exact Hty|]. split; [by exists k'|].
    intros Hnd. by rewrite (listed_key_unique (listed ps) k k' (VRef l) Hnd Hin Hin').
  - intros names s all _ Hda Hta Hord Hnd Hmiss r. subst r s.
    set (σ1 := mkState (st_heap σ ++ [Arr [] []])%list (self σ)).
    assert (Hduring : during σ all σ1).
    { split; [done|]. split; [apply heap_ext_alloc|].
      intros l Hl _. simpl. by rewrite lookup_app_l. }
    assert (Hd0 : st_heap σ1 !! length (st_heap σ) = Some (Arr [] [])).
    { simpl. by rewrite list_lookup_middle. }
    assert (Hall : Forall (fun name =>
                     ordinary (st_heap σ) (self σ) all name
                     ∧ items_of (st_heap σ) (self σ) name ⊆ all) names).
    { apply Forall_forall. intros name Hin. split.
      - by apply (proj1 (Forall_forall _ _) Hord).
      - intros v Hv. apply list_elem_of_bind. by exists name. }
    destruct (combine_all_concat Date_parse now σ all Hda Hta names σ1
                (length (st_heap σ)) [] [] Hduring Hd0 Hall)
      as (σ' & a & ps1 & Hcomb & Hself & Ha).
    destruct (combine_all_writes σ all Hda Hta names σ1
                (length (st_heap σ)) [] [] Hduring Hd0 Hall Hnd)
      as (σ2 & a2 & Hcomb2 & _ & Hann).
    rewrite Hcomb in Hcomb2. injection Hcomb2 as <- <-.
    rewrite getCombined_miss by done. unfold getCombined_fresh.
    erewrite bind_eval; [|reflexivity].
    erewrite bind_eval; [|exact Hcomb].
    erewrite bind_eval; [|reflexivity]. simpl. rewrite Ha.
    split; [done|]. exact Hann.
Qed.

End Annotations.

(** On [relation_store]: [getItem] returns the item at location 8 of the
    store with [_type] on it, and after [getCombined] the three items of
    the collection carry their keys and the slug, the date and the name of
    each being as before.  On [comma_store] the call with the two types
    [x,x] and [x] leaves on the item of each its key and its type. *)
Lemma store_changes_only_by_annotations_witness :
  let r := getItem sample_Date_parse 0 (VStr "companies") (VStr "42")
             relation_store in
  let q := getCombined sample_Date_parse 0 ["companies"] relation_store in
  let m := getCombined sample_Date_parse 0 ["x,x"; "x"] comma_store in
  returned r = Some (VRef 8%nat)
  ∧ own_prop (st_heap (state_of r)) 8 "_type" = Some (VStr "companies")
  ∧ own_prop (st_heap (state_of r)) 8 "name" = Some (VStr "Acme")
  ∧ returned_elems q = Some [VRef 8%nat; VRef 9%nat; VRef 10%nat]
  ∧ own_prop (st_heap (state_of q)) 10 "_id" = Some (VStr "a b")
  ∧ own_prop (st_heap (state_of q)) 10 "_type" = Some (VStr "companies")
  ∧ own_prop (st_heap (state_of m)) 10 "_type" = Some (VStr "x,x")
  ∧ own_prop (st_heap (state_of m)) 9 "_id" = Some (VStr "1").
Proof.
  intros r q m.
  destruct (store_changes_only_by_annotations sample_Date_parse 0 relation_store)
    as (Hitem & _ & Hlist & _).
  destruct (store_changes_only_by_annotations sample_Date_parse 0 comma_store)
    as (_ & _ & _ & Hseveral).
  destruct (Hitem (VStr "companies") (VStr "42")) as (_ & _ & Hann).
  destruct (Hann 8%nat) as (ty & k & coll & _ & Harg & _ & _ & Hty);
    [reflexivity|vm_compute; lia|].
  destruct (Harg eq_refl) as [-> ->].
  split; [reflexivity|]. split; [exact Hty|]. split; [reflexivity|].
  destruct (Hlist "companies" (VRef 7%nat) (VBool false) 6%nat
              [("42", VRef 8%nat); ("a", VRef 9%nat); ("a b", VRef 10%nat)])
    as [Hret Hwritten]; try reflexivity.
  { intros l [= <-]. vm_compute. lia. }
  { repeat constructor.
    - exists 8%nat, (VStr "1970-01-01T00:00:00.000Z"). repeat split.
      vm_compute. lia.
    - exists 9%nat, (VStr "1970-01-01T00:00:00.000Z"). repeat split.
      vm_compute. lia.
    - exists 10%nat, (VStr "1970-01-01T00:00:00.000Z"). repeat split.
      vm_compute. lia. }
  split; [exact Hret|].
  destruct (Hwritten "a b" 10%nat) as (Htype & _ & Hid).
  { apply list_elem_of_further, list_elem_of_further, list_elem_of_here. }
  split.
  { apply Hid. repeat constructor; intros Hin;
      repeat (apply elem_of_cons in Hin as [[=]|Hin]);
      by apply elem_of_nil in Hin. }
  split; [exact Htype|].
  assert (Hvalid : ∀ n : nat, (n < 11)%nat →
                     valid (st_heap comma_store) (VRef n)).
  { intros n Hn l [= <-]. exact Hn. }
  assert (Hnot : ∀ n : nat, (n < 9)%nat →
                   VRef n ∉ [VRef 10%nat; VRef 9%nat]).
  { intros n Hn Hin. apply elem_of_cons in Hin as [[= ->]|Hin]; [lia|].
    apply elem_of_cons in Hin as [[= ->]|Hin]; [lia|].
    by apply elem_of_nil in Hin. }
  destruct (Hseveral ["x,x"; "x"]) as [_ Heach].
  - reflexivity.
  - split; [apply Hvalid; lia|apply Hnot; lia].
  - split; [apply Hvalid; lia|apply Hnot; lia].
  - repeat constructor.
    + exists 8%nat, (VBool false), 7%nat, [("2", VRef 10%nat)].
      split; [reflexivity|]. split; [split; [apply Hvalid; lia|apply Hnot; lia]|].
      split; [reflexivity|]. split; [reflexivity|]. split; [reflexivity|].
      split; [reflexivity|]. split; [apply Hnot; lia|].
      repeat constructor.
      exists 10%nat, (VStr "1970-01-01T00:00:00.000Z"). repeat split.
      vm_compute. lia.
    + exists 8%nat, (VBool false), 6%nat, [("1", VRef 9%nat)].
      split; [reflexivity|]. split; [split; [apply Hvalid; lia|apply Hnot; lia]|].
      split; [reflexivity|]. split; [reflexivity|]. split; [reflexivity|].
      split; [reflexivity|]. split; [apply Hnot; lia|].
      repeat constructor.
      exists 9%nat, (VStr "1970-01-01T00:00:00.000Z"). repeat split.
      vm_compute. lia.
  - repeat constructor; intros Hin;
      repeat (apply elem_of_cons in Hin as [[=]|Hin]);
      by apply elem_of_nil in Hin.
  - reflexivity.
  - split.
    + apply (Heach "x,x" "2" 10%nat); [apply list_elem_of_here|].
      apply list_elem_of_here.
    + apply (Heach "x" "1" 9%nat);
        [apply list_elem_of_further, list_elem_of_here|].
      apply list_elem_of_here.
Defined.

(** C9 as stated fails: both calls write on the objects the store holds.
    The item at location 8 of [relation_store] has two properties; after
    [getItem] it has [_type] as well, and after [getCombined] it has [_id]
    and [_type]. *)
Lemma store_objects_are_annotated :
  let item := [("name", VStr "Acme");
               ("publish_date", VStr "1970-01-01T00:00:00.000Z")] in
  st_heap relation_store !! 8%nat = Some (Obj item)
  ∧ st_heap (state_of (getItem sample_Date_parse 0 (VStr "companies") (VStr "42")
                         relation_store)) !! 8%nat
    = Some (Obj (item ++ [("_type", VStr "companies")])%list)
  ∧ st_heap (state_of (getCombined sample_Date_parse 0 ["companies"]
                         relation_store)) !! 8%nat
    = Some (Obj (item ++ [("_id", VStr "42"); ("_type", VStr "companies")])%list).
Proof. repeat split; vm_compute; reflexivity. Qed.

(** ** The list of types *)

Lemma member_is_Some h v k :
  nullish v = false → ∃ x, member h v k = Some x.
Proof.
  destruct v as [| | | | |l]; try done; simpl; eauto.
  destruct (h !! l) as [[]|]; eauto.
Qed.

Lemma lookup_prop_NoDup k v ps :
  NoDup ps.*1 → (k, v) ∈ ps → lookup_prop k ps = Some v.
Proof.
  induction ps as [|[k' v'] ps IH]; intros Hnd Hin.
  - by apply elem_of_nil in Hin.
  - rewrite fmap_cons in Hnd. apply NoDup_cons in Hnd as [Hk' Hnd]. simpl.
    apply elem_of_cons in Hin as [[= -> ->]|Hin].
    + by rewrite String.eqb_refl.
    + destruct (String.eqb_spec k' k) as [->|Hne]; [|by apply IH].
      destruct Hk'. apply list_elem_of_fmap. by exists (k, v).
Qed.

Section Types.

Variable h : heap.
Variable s : Self.t.
Variable t : loc.
Variable tps : props.

Hypothesis table : Self.typeInfo s = VRef t.
Hypothesis table_props : h !! t = Some (Obj tps).

(** The heap while [getTypes] runs: the array of the types, and the
    entries made so far. *)
Lemma getTypes_step_eval k info ents :
  lookup_prop k tps = Some info → valid h info → nullish info = false →
  let types j := Arr (VRef <$> seq (S (length h)) j) [] in
  getTypes_step (VRef (length h)) k
    (mkState (h ++ types (length ents) :: ents)%list s)
  = Ok tt
      match type_entry h (k, info) with
      | Some o => mkState (h ++ types (S (length ents)) :: ents ++ [o])%list s
      | None => mkState (h ++ types (length ents) :: ents)%list s
      end.
Proof.
  intros Hk Hv Hn types.
  destruct (member_is_Some h info "oneOff" Hn) as [flag Hflag].
  destruct (member_is_Some h info "name" Hn) as [name Hname].
  unfold type_entry. simpl fst. simpl snd. rewrite Hflag, Hname.
  unfold getTypes_step. erewrite bind_eval; [|reflexivity].
  simpl self. rewrite table.
  erewrite bind_eval.
  2:{ apply get_member_eval. simpl.
      rewrite (lookup_app_l_Some _ _ _ _ table_props). by rewrite Hk. }
  simpl default.
  erewrite bind_eval;
    [|apply get_member_eval; simpl st_heap; rewrite member_app_valid by done;
      exact Hflag].
  destruct (truthy flag); cbn [negb]; cbv iota; [done|].
  erewrite bind_eval;
    [|apply get_member_eval; simpl st_heap; rewrite member_app_valid by done;
      exact Hname].
  erewrite bind_eval; [|reflexivity].
  unfold push, bind, get_heap, put_heap. simpl.
  rewrite <- app_assoc. simpl. rewrite list_lookup_middle by done.
  assert (Hseq : VRef <$> seq (S (length h)) (S (length ents))
                 = ((VRef <$> seq (S (length h)) (length ents))
                    ++ [VRef (S (length h) + length ents)%nat])%list)
    by (by rewrite seq_S, fmap_app).
  unfold types. rewrite Hseq. clear Hseq. simpl. f_equal.
  rewrite insert_app_r_alt by done. rewrite Nat.sub_diag. simpl.
  do 7 f_equal. rewrite length_app. simpl. lia.
Qed.

Lemma getTypes_loop kvs : ∀ ents,
  Forall (fun kv : string * value =>
            lookup_prop kv.1 tps = Some kv.2 ∧ valid h kv.2
            ∧ nullish kv.2 = false) kvs →
  let types j := Arr (VRef <$> seq (S (length h)) j) [] in
  forEach kvs.*1 (getTypes_step (VRef (length h)))
    (mkState (h ++ types (length ents) :: ents)%list s)
  = Ok tt (mkState (h ++ types (length (ents ++ type_entries h kvs))
                      :: ents ++ type_entries h kvs)%list s).
Proof.
  induction kvs as [|[k info] kvs IH]; intros ents Hall types; subst types.
  - simpl. unfold ret. by rewrite app_nil_r.
  - apply Forall_cons in Hall as [(Hk & Hv & Hn) Hall].
    rewrite fmap_cons. simpl forEach.
    simpl in Hk, Hv, Hn.
    erewrite bind_eval; [|by apply (getTypes_step_eval k info)].
    unfold type_entries. simpl omap.
    destruct (type_entry h (k, info)) as [o|].
    + specialize (IH (ents ++ [o])%list Hall). cbv zeta in IH.
      rewrite length_app in IH. simpl length in IH.
      replace (S (length ents)) with (length ents + 1)%nat by lia.
      cbv beta. rewrite IH. unfold type_entries.
      by rewrite <- !app_assoc.
    + by apply IH.
Qed.

End Types.

(** X18: when the type table is an object whose values are there (none of
    them [null] or [undefined]), [getTypes] returns a new array with one new
    object for each type whose [oneOff] is falsy, in the order of the table,
    made of the key as [slug] and of the [name] of the type; nothing else in
    the heap changes, and the instance is as it was. *)
Theorem getTypes_lists :
  ∀ σ (t : loc) (tps : props),
    let h := st_heap σ in
    Self.typeInfo (self σ) = VRef t → h !! t = Some (Obj tps) →
    NoDup tps.*1 →
    Forall (fun v => valid h v ∧ nullish v = false) tps.*2 →
    let entries := type_entries h tps in
    getTypes σ
    = Ok (VRef (length h))
        (mkState (h ++ Arr (VRef <$> seq (S (length h)) (length entries)) []
                    :: entries)%list (self σ)).
Proof.
  intros σ t tps h Ht Htps Hnd Hall entries. subst h entries.
  unfold getTypes. erewrite bind_eval; [|reflexivity].
  erewrite bind_eval; [|reflexivity]. erewrite bind_eval; [|reflexivity].
  simpl self. simpl st_heap. unfold for_in_keys. rewrite Ht.
  unfold enumerate. rewrite (lookup_app_l_Some _ _ _ _ Htps).
  pose proof (getTypes_loop (st_heap σ) (self σ) t tps Ht Htps tps []) as Hloop.
  simpl in Hloop. erewrite bind_eval; [done|]. apply Hloop.
  apply Forall_forall. intros [k v] Hin.
  assert (Hv : v ∈ tps.*2) by (apply list_elem_of_fmap; by exists (k, v)).
  destruct (proj1 (Forall_forall _ _) Hall v Hv) as [Hvalid Hn].
  split; [by apply lookup_prop_NoDup|done].
Qed.

Lemma getTypes_lists_witness :
  getTypes oneOff_store
  = Ok (VRef 11%nat)
      (mkState (st_heap oneOff_store
                  ++ [Arr [VRef 12%nat] [];
                      Obj [("slug", VStr "companies"); ("name", VStr "Companies")]])%list
         (self oneOff_store)).
Proof.
  apply (getTypes_lists oneOff_store 5%nat
           [("about", VRef 8%nat); ("companies", VRef 9%nat)]).
  - reflexivity.
  - reflexivity.
  - repeat constructor; [|apply not_elem_of_nil].
    intros Hin. apply elem_of_cons in Hin as [[=]|Hin].
    by apply elem_of_nil in Hin.
  - repeat apply Forall_cons_2; try apply Forall_nil_2;
      (split; [intros l [= <-]; simpl; lia|reflexivity]).
Defined.

Lemma getTypes_step_outcome a key σ :
  (∃ σ', getTypes_step (VRef a) key σ = Ok tt σ'
         ∧ self σ' = self σ
         ∧ ∀ l, l ≠ a → (l < length (st_heap σ))%nat →
                st_heap σ' !! l = st_heap σ !! l)
  ∨ (∃ σ', getTypes_step (VRef a) key σ = Throw TypeError σ').
Proof.
  cbv beta iota delta [getTypes_step bind get_self get_member get_heap throw
                       ret alloc].
  simpl.
  destruct (member (st_heap σ) (Self.typeInfo (self σ)) key) as [info|];
    [|right; by eexists].
  destruct (member (st_heap σ) info "oneOff") as [flag|]; [|right; by eexists].
  destruct (truthy flag); simpl; [left; by exists σ|].
  destruct (member (st_heap σ) info "name") as [name|]; [|right; by eexists].
  unfold push, bind, get_heap, put_heap, throw. simpl.
  destruct ((st_heap σ ++ [Obj [("slug", VStr key); ("name", name)]])%list !! a)
    as [[ps|es ps]|]; [right; by eexists| |right; by eexists].
  left. eexists. split; [reflexivity|]. split; [done|].
  intros l Hne Hl. simpl. rewrite list_lookup_insert_ne by done.
  by rewrite lookup_app_l.
Qed.

Lemma getTypes_loop_throws a t tps keys : ∀ σ,
  Self.typeInfo (self σ) = VRef t → t ≠ a → st_heap σ !! t = Some (Obj tps) →
  Exists (fun k => nullish (default VUndef (lookup_prop k tps)) = true) keys →
  ∃ σ', forEach keys (getTypes_step (VRef a)) σ = Throw TypeError σ'.
Proof.
  induction keys as [|k keys IH]; intros σ Hti Hne Ht Hex.
  - by apply Exists_nil in Hex.
  - simpl forEach.
    destruct (getTypes_step_outcome a k σ)
      as [(σ1 & Hstep & Hself & Hsame)|(σ1 & Hstep)].
    + apply Exists_cons in Hex as [Hbad|Hex].
      * exfalso. revert Hstep.
        cbv beta iota delta [getTypes_step bind get_self get_member get_heap
                             throw ret].
        simpl. rewrite Hti. simpl. rewrite Ht.
        by destruct (default VUndef (lookup_prop k tps)).
      * destruct (IH σ1) as (σ' & Hrest); try done.
        { congruence. }
        { rewrite Hsame; [done|done|]. by apply lookup_lt_Some in Ht. }
        exists σ'. by erewrite bind_eval.
    + exists σ1. by apply bind_throw.
Qed.

(** X19: [getTypes] throws a TypeError when the type table has [null] or
    [undefined] for one of its keys. *)
Theorem getTypes_null_entry :
  ∀ σ (t : loc) (tps : props),
    Self.typeInfo (self σ) = VRef t → st_heap σ !! t = Some (Obj tps) →
    NoDup tps.*1 →
    Exists (fun v => nullish v = true) tps.*2 →
    thrown (getTypes σ) = Some TypeError.
Proof.
  intros σ t tps Hti Ht Hnd Hex.
  unfold getTypes. erewrite bind_eval; [|reflexivity].
  erewrite bind_eval; [|reflexivity]. erewrite bind_eval; [|reflexivity].
  simpl self. simpl st_heap. unfold for_in_keys. rewrite Hti.
  unfold enumerate. rewrite (lookup_app_l_Some _ _ _ _ Ht).
  destruct (getTypes_loop_throws (length (st_heap σ)) t tps tps.*1
              (mkState (st_heap σ ++ [Arr [] []])%list (self σ)))
    as (σ' & Hthr); try done.
  - apply lookup_lt_Some in Ht. lia.
  - by apply lookup_app_l_Some.
  - apply Exists_exists in Hex as (v & Hv & Hn).
    apply list_elem_of_fmap in Hv as ([k v'] & -> & Hin).
    apply Exists_exists. exists k. split.
    + apply list_elem_of_fmap. by exists (k, v').
    + by rewrite (lookup_prop_NoDup k v' tps Hnd Hin).
  - by rewrite (bind_throw _ _ _ _ _ Hthr).
Qed.

Lemma getTypes_null_entry_witness :
  thrown (getTypes null_type_store) = Some TypeError.
Proof.
  apply (getTypes_null_entry null_type_store 5%nat
           [("companies", VRef 6%nat); ("about", VNull)]).
  - reflexivity.
  - reflexivity.
  - repeat constructor; [|apply not_elem_of_nil].
    intros Hin. apply elem_of_cons in Hin as [[=]|Hin].
    by apply elem_of_nil in Hin.
  - apply Exists_cons_tl, Exists_cons_hd. reflexivity.
Defined.

(** ** A random element *)

Lemma of_lu_nat d :
  N.to_nat (DecimalPos.Unsigned.of_lu d) = DecimalNat.Unsigned.of_lu d.
Proof.
  induction d;
    cbn [DecimalPos.Unsigned.of_lu DecimalNat.Unsigned.of_lu]; lia.
Qed.

Lemma of_uint_nat d : Nat.of_uint d = N.to_nat (Pos.of_uint d).
Proof.
  by rewrite DecimalNat.Unsigned.of_uint_alt, DecimalPos.Unsigned.of_uint_alt,
    of_lu_nat.
Qed.

(** The decimal form of a natural number is the key of that index. *)
Lemma index_of_nat i : index_of_key (string_of_Z (Z.of_nat i)) = Some i.
Proof.
  destruct i as [|n]; [reflexivity|].
  change (Z.of_nat (S n)) with (Z.pos (Pos.of_succ_nat n)).
  set (p := Pos.of_succ_nat n).
  change (string_of_Z (Z.pos p)) with (NilZero.string_of_uint (Pos.to_uint p)).
  unfold index_of_key.
  rewrite NilZero.usu by apply DecimalPos.Unsigned.to_uint_nonnil.
  cbv zeta.
  assert (Hof : Nat.of_uint (Pos.to_uint p) = S n).
  { rewrite of_uint_nat, DecimalPos.Unsigned.of_to. simpl. subst p.
    apply SuccNat2Pos.id_succ. }
  assert (Hto : Nat.to_uint (S n) = Pos.to_uint p).
  { rewrite <- Hof, DecimalNat.Unsigned.to_of.
    rewrite <- DecimalPos.Unsigned.to_of, DecimalPos.Unsigned.of_to. done. }
  rewrite Hof, Hto. by rewrite String.eqb_refl.
Qed.

(** X20: [randomElement] returns [null] for what is not an array; for an
    array that is not empty it returns one of the elements, the one at the
    index drawn, which is below the length; for an empty array it returns
    [undefined]. *)
Theorem randomElement_draws :
  ∀ (Math_random_floor : nat → nat) σ (array : value),
    (∀ n, (0 < n)%nat → (Math_random_floor n < n)%nat) →
    Math_random_floor 0%nat = 0%nat →
    ((∀ l es ps, array = VRef l → st_heap σ !! l ≠ Some (Arr es ps)) →
     randomElement Math_random_floor array σ = Ok VNull σ)
    ∧ (∀ l es ps,
         array = VRef l → st_heap σ !! l = Some (Arr es ps) →
         let r := returned (randomElement Math_random_floor array σ) in
         r = Some (default VUndef (es !! Math_random_floor (length es)))
         ∧ (es = [] → r = Some VUndef)
         ∧ (es ≠ [] → ∃ x, r = Some x ∧ x ∈ es)).
Proof.
  intros f σ array Hbelow Hzero. split.
  - intros Hnarr. unfold randomElement.
    destruct (truthy array); [|done]. cbn [negb]. cbv iota.
    unfold array_elems, bind, get_heap, ret.
    destruct array as [| | | | |l]; try done.
    destruct (st_heap σ !! l) as [[ps|es ps]|] eqn:Hl; try done.
    by destruct (Hnarr l es ps eq_refl).
  - intros l es ps -> Hl r.
    assert (Hr : r = Some (default VUndef (es !! f (length es)))).
    { subst r. unfold randomElement. cbn [truthy negb]. cbv iota.
      erewrite bind_eval; [|by apply (array_elems_eval l es ps)].
      cbv beta iota. erewrite bind_eval; [|reflexivity].
      set (i := f (length es)).
      set (h' := (st_heap σ ++ [Arr [VNum (Fin (Z.of_nat i))] []])%list).
      unfold get_index, to_string.
      erewrite bind_eval; [|by erewrite bind_eval].
      simpl st_heap. fold h'.
      replace (ToString (length h') h' (VRef (length (st_heap σ))))
        with (string_of_Z (Z.of_nat i)).
      2:{ unfold h'. rewrite length_app. simpl length.
          rewrite Nat.add_1_r. simpl ToString.
          rewrite list_lookup_middle by done. simpl.
          by destruct (length (st_heap σ)). }
      erewrite get_member_eval; [done|].
      simpl. unfold h'. rewrite (lookup_app_l_Some _ _ _ _ Hl).
      unfold arr_member. rewrite index_of_nat.
      destruct (String.eqb_spec (string_of_Z (Z.of_nat i)) "length")
        as [Heq|_]; [|done].
      pose proof (index_of_nat i) as Hi. rewrite Heq in Hi. discriminate. }
    split; [exact Hr|]. split.
    + intros ->. by rewrite Hr.
    + intros Hne. rewrite Hr.
      destruct (lookup_lt_is_Some_2 es (f (length es))) as [x Hx].
      { apply Hbelow. destruct es; [done|simpl; lia]. }
      exists x. rewrite Hx. split; [done|].
      by eapply list_elem_of_lookup_2.
Qed.

Lemma randomElement_draws_witness :
  let r := returned (randomElement (fun n => (n - 1)%nat) (VRef 11%nat)
                       related_store) in
  r = Some (VStr "companies a")
  ∧ randomElement (fun n => (n - 1)%nat) (VStr "companies") related_store
    = Ok VNull related_store.
Proof.
  destruct (randomElement_draws (fun n => (n - 1)%nat) related_store (VRef 11%nat))
    as [_ Hdraw]; [intros n Hn; lia|reflexivity|].
  destruct (randomElement_draws (fun n => (n - 1)%nat) related_store
              (VStr "companies"))
    as [Hnull _]; [intros n Hn; lia|reflexivity|].
  split.
  - by destruct (Hdraw 11%nat
                   [VStr "companies 42"; VStr "nothing"; VStr "companies a"] []
                   eq_refl eq_refl) as [-> _].
  - apply Hnull. intros l es ps. discriminate.
Defined.
